(** * Snowpack: plugin registry, extension map and import resolution

    A shallow embedding of [src/plugins.ts] and
    [src/commands/import-resolver.ts].

    Conventions of the embedding:
    - a JavaScript object used as a dictionary ([Record<string, T>]) is a
      finite map over its own properties ([gmap string T]); where the code
      iterates it ([Object.entries], [Object.values]) it is an association
      list in insertion order; a read [o[k]] of a key that is not an own
      property finds the member of [Object.prototype] of that name, when
      there is one;
    - an array is a [list]; [[...new Set(xs)]] is the list of the first
      occurrences of [xs], in order;
    - a function that can end the process ([handleError], which calls
      [process.exit(1)]) or raise returns an [outcome];
    - Node's [path] and [fs] modules, the module loader ([require]), the
      [yargs-parser] package and the helpers imported from [../util] are
      the fields of a [Host] that every function takes;
    - an identifier that a function reads and that nothing declares
      raises a [ReferenceError] where it is read. *)

From Stdlib Require Import Ascii String.
From stdpp Require Import base option list gmap strings.

(** ** Outcomes *)

(** The exceptions the modelled code can raise. *)
Inductive JsError :=
  | TypeError
  | ReferenceError
  | ModuleLoadError.

(** The diagnostics passed to [handleError] before [process.exit(1)]. *)
Inductive ConfigError :=
  | BundlerLoadFailed (bundlerName : string)
  | LoadedInScriptsAndPlugins (pluginName : string)
  | MissingInputOptions (pluginName : string)
  | MustUseMountCommand (id : string)
  | BadMountFormat (id : string)
  | MountToNotUrlPath (id : string) (to : string).

Inductive outcome (A : Type) :=
  | Ok (a : A)
  | Exit (e : ConfigError)
  | Throw (e : JsError).
Arguments Ok {A} a.
Arguments Exit {A} e.
Arguments Throw {A} e.

Definition obind {A B} (m : outcome A) (k : A -> outcome B) : outcome B :=
  match m with
  | Ok a => k a
  | Exit e => Exit e
  | Throw e => Throw e
  end.

Notation "x <-- m ;; k" := (obind m (fun x => k))
  (at level 100, m at next level, right associativity).

(** [xs.forEach(f)] where [f] updates a state and may abort. *)
Fixpoint forEachM {A S} (f : S -> A -> outcome S) (xs : list A) (s : S)
  : outcome S :=
  match xs with
  | [] => Ok s
  | x :: rest => s' <-- f s x ;; forEachM f rest s'
  end.

(** ** JavaScript [Set] and strings *)

Module JsSet.
(** A [Set] keeps its elements in insertion order; adding an element
    that is already there leaves it unchanged. *)
Definition add (s : list string) (x : string) : list string :=
  if bool_decide (x ∈ s) then s else s ++ [x].

(** [[...new Set(xs)]] *)
Definition spread (xs : list string) : list string := foldl add [] xs.
End JsSet.

Module JsString.
Definition is_upper (c : ascii) : bool :=
  let n := nat_of_ascii c in (65 <=? n)%nat && (n <=? 90)%nat.

Definition lower_char (c : ascii) : ascii :=
  if is_upper c then ascii_of_nat (nat_of_ascii c + 32) else c.

(** [s.toLowerCase()], on the ASCII letters. *)
Fixpoint toLowerCase (s : string) : string :=
  match s with
  | EmptyString => EmptyString
  | String c r => String (lower_char c) (toLowerCase r)
  end.

(** [s.split(sep)] for a one-character separator: the fields between
    the separators, empty ones included. *)
Fixpoint split_go (sep : ascii) (cur : string) (s : string) : list string :=
  match s with
  | EmptyString => [cur]
  | String c r =>
      if Ascii.eqb c sep then cur :: split_go sep EmptyString r
      else split_go sep (cur +:+ String c EmptyString) r
  end.

Definition split (sep : ascii) (s : string) : list string :=
  split_go sep EmptyString s.

(** White space as [\s] and [trim] see it, on ASCII. *)
Definition is_space (c : ascii) : bool :=
  let n := nat_of_ascii c in
  ((9 <=? n)%nat && (n <=? 13)%nat) || (n =? 32)%nat.

Fixpoint trimStart (s : string) : string :=
  match s with
  | EmptyString => EmptyString
  | String c r => if is_space c then trimStart r else s
  end.

Fixpoint trimEnd (s : string) : string :=
  match s with
  | EmptyString => EmptyString
  | String c r =>
      match trimEnd r with
      | EmptyString => if is_space c then EmptyString else String c EmptyString
      | r' => String c r'
      end
  end.

Definition trim (s : string) : string := trimEnd (trimStart s).

(** [s.split(/\s+/)] *)
Fixpoint split_ws_go (in_ws : bool) (cur : string) (s : string) : list string :=
  match s with
  | EmptyString => [cur]
  | String c r =>
      if is_space c then
        if in_ws then split_ws_go true cur r
        else cur :: split_ws_go true EmptyString r
      else split_ws_go false (cur +:+ String c EmptyString) r
  end.

Definition split_ws (s : string) : list string :=
  split_ws_go false EmptyString s.

(** [s.startsWith(p)] *)
Definition startsWith (s p : string) : bool := String.prefix p s.

(** [s.replace(/^\./, '')] *)
Definition strip_leading_dot (s : string) : string :=
  match s with
  | String "." r => r
  | _ => s
  end.

(** truthiness of a string *)
Definition truthy (s : string) : bool :=
  match s with EmptyString => false | _ => true end.
End JsString.

(** ** Plain objects and free identifiers *)

(** The string-named members of [Object.prototype]: an object made by
    [{}] or by [JSON.parse] inherits them. *)
Definition Object_prototype_names : list string :=
  ["constructor"; "__defineGetter__"; "__defineSetter__"; "hasOwnProperty";
   "__lookupGetter__"; "__lookupSetter__"; "isPrototypeOf";
   "propertyIsEnumerable"; "toString"; "valueOf"; "__proto__";
   "toLocaleString"].

Definition inherited (k : string) : bool :=
  bool_decide (k ∈ Object_prototype_names).

(** What a read [o[k]] finds: an own property, an inherited member (a
    function, or for [__proto__] the prototype itself: truthy, not
    iterable, without the methods of a string or an array), or
    [undefined]. *)
Inductive Slot (V : Type) :=
  | Own (v : V)
  | Inherited
  | Missing.
Arguments Own {V} v.
Arguments Inherited {V}.
Arguments Missing {V}.

(** [o[k]] on an object kept as the finite map of its own properties. *)
Definition js_get {V} (o : gmap string V) (k : string) : Slot V :=
  match o !! k with
  | Some v => Own v
  | None => if inherited k then Inherited else Missing
  end.

(** Reading an identifier that no file declares. *)
Definition undeclared (A : Type) : outcome A := Throw ReferenceError.

(** ** Plugins ([src/config.ts], interface [SnowpackPlugin]) *)

(** [string | string[]] *)
Inductive Exts :=
  | OneExt (ext : string)
  | ManyExts (exts : list string).

Record SnowpackPlugin := {
  name : string;
  input : Exts;
  output : Exts;
  defaultBuildScript : option string;
}.

(** [Array.isArray(x) ? x : [x]] *)
Definition toArray (x : Exts) : list string :=
  match x with
  | OneExt e => [e]
  | ManyExts es => es
  end.

(** [!x] for [x : string | string[]]: only the empty string is falsy. *)
Definition exts_falsy (x : Exts) : bool :=
  match x with
  | OneExt e => negb (JsString.truthy e)
  | ManyExts _ => false
  end.

(** ** Extension map ([createPluginExtensionMap], plugins.ts 158-183) *)

Record ExtensionMap := {
  extMap_input : gmap string (list string);
  extMap_output : gmap string (list string);
}.

(** Body of [inputs.forEach]: [if (!m[ext]) m[ext] = [];
    m[ext] = [...new Set([...m[ext], ...outputs])]]. An inherited
    member is truthy, so line 172 leaves it, and line 173 spreads it. *)
Definition add_input (outputs : list string)
    (m : gmap string (list string)) (ext : string)
  : outcome (gmap string (list string)) :=
  match js_get m ext with
  | Own outs => Ok (<[ext := JsSet.spread (outs ++ outputs)]> m)
  | Missing => Ok (<[ext := JsSet.spread ([] ++ outputs)]> m)
  | Inherited => Throw TypeError
  end.

(** Body of [outputs.forEach]: [if (!m[ext]) m[ext] = [ext];
    m[ext] = [...new Set([...m[ext], ...inputs])]]. *)
Definition add_output (inputs : list string)
    (m : gmap string (list string)) (ext : string)
  : outcome (gmap string (list string)) :=
  match js_get m ext with
  | Own ins => Ok (<[ext := JsSet.spread (ins ++ inputs)]> m)
  | Missing => Ok (<[ext := JsSet.spread ([ext] ++ inputs)]> m)
  | Inherited => Throw TypeError
  end.

(** Body of [plugins.forEach]. *)
Definition extMap_step (extMap : ExtensionMap) (plugin : SnowpackPlugin)
  : outcome ExtensionMap :=
  let inputs := toArray (input plugin) in
  let outputs := toArray (output plugin) in
  input' <-- forEachM (add_input outputs) inputs (extMap_input extMap) ;;
  output' <-- forEachM (add_output inputs) outputs (extMap_output extMap) ;;
  Ok {| extMap_input := input'; extMap_output := output' |}.

Definition extMap_empty : ExtensionMap :=
  {| extMap_input := ∅; extMap_output := ∅ |}.

Definition createPluginExtensionMap (plugins : list SnowpackPlugin)
  : outcome ExtensionMap :=
  forEachM extMap_step plugins extMap_empty.

(** What either loop body leaves when it returns: the two differ only
    in the list a new key starts from. The proofs go through this
    common form. *)
Definition merge_exts (seed : string -> list string) (extra : list string)
    (m : gmap string (list string)) (ext : string) : gmap string (list string) :=
  <[ext := JsSet.spread (default (seed ext) (m !! ext) ++ extra)]> m.

(** What [extMap_step] leaves when it returns. *)
Definition extMap_merge (extMap : ExtensionMap) (plugin : SnowpackPlugin)
  : ExtensionMap :=
  let inputs := toArray (input plugin) in
  let outputs := toArray (output plugin) in
  {| extMap_input :=
       foldl (merge_exts (fun _ => []) outputs) (extMap_input extMap) inputs;
     extMap_output :=
       foldl (merge_exts (fun ext => [ext]) inputs) (extMap_output extMap) outputs |}.

Definition merged (plugins : list SnowpackPlugin) : ExtensionMap :=
  foldl extMap_merge extMap_empty plugins.

(** No key of the map is the name of a member of [Object.prototype]. *)
Definition no_inherited_key (extMap : ExtensionMap) : Prop :=
  forall k, inherited k = true ->
            extMap_input extMap !! k = None /\ extMap_output extMap !! k = None.

(** No extension of the plugin is the name of a member of
    [Object.prototype]; an extension that starts with a dot is none. *)
Definition plain_exts (p : SnowpackPlugin) : Prop :=
  Forall (fun ext => inherited ext = false) (toArray (input p))
  /\ Forall (fun ext => inherited ext = false) (toArray (output p)).

(** ** The host environment

    What the two modules read from outside themselves. *)

(** The part of [yargs-parser]'s result that [getMountedDirs] reads. *)
Record YargsArgv := {
  argv_to : option string;       (* --to *)
  argv_positional : list string; (* _ *)
}.

(** Result of [getExt] ([../util]). *)
Record FileExt := {
  baseExt : string;
  expandedExt : string;
}.

Record Host := {
  (** [require(require.resolve(specifier))(config)] inside the [try] of
      [loadPluginFromScript]: [None] when it raises or yields a falsy
      value. *)
  requireScript : string -> option SnowpackPlugin;
  (** [require(require.resolve(name))(config, options)] of
      [loadPluginFromConfig]: [None] when it raises. *)
  requireConfig : string -> string -> option SnowpackPlugin;
  yargs : list string -> YargsArgv;
  posix_normalize : string -> string;
  posix_resolve : string -> string -> string;
  posix_join : string -> string -> string -> string;
  path_extname : string -> string;
  path_join : string -> string -> string -> string;
  existsSync : string -> bool;
  (** [getExt] and [replaceExt] are imported from [../util] *)
  getExt : string -> FileExt;
  replaceExt : string -> string -> string;
}.

(** ** Configuration ([SnowpackConfig], the fields read here) *)

(** An element of [config.plugins]: [string | [string, any]]. *)
Inductive PluginRef :=
  | PluginName (pluginName : string)
  | PluginWithOptions (pluginName : string) (pluginOptions : string).

Record SnowpackConfig := {
  (** [Object.entries(config.scripts)] *)
  config_scripts : list (string * string);
  config_plugins : list PluginRef;
  (** [config.buildOptions.baseUrl] *)
  config_baseUrl : string;
}.

(** ** [parseScript] (plugins.ts 10-17) *)

(** [`.${ext}`.replace(/^\./, '').trim()] *)
Definition normalizeExt (ext : string) : string :=
  JsString.trim (JsString.strip_leading_dot ("." +:+ ext)).

(** [script.toLowerCase().split(':')] destructured into
    [[scriptType, extMatch]]; [extMatch.split] raises when the script id
    has no colon. *)
Definition parseScript (script : string) : outcome (string * list string) :=
  match JsString.split ":" (JsString.toLowerCase script) with
  | scriptType :: extMatch :: _ =>
      Ok (scriptType,
          JsSet.spread (map normalizeExt (JsString.split "," extMatch)))
  | _ => Throw TypeError
  end.

(** ** [loadPlugins] (plugins.ts 19-143) *)

Record RunCmd := {
  RunCmd_id : string;
  RunCmd_cmd : string;
}.

Record LoadedPlugins := {
  plugins : list SnowpackPlugin;
  bundler : option SnowpackPlugin;
  runCommands : list RunCmd;
  (** the own properties of [buildCommands] *)
  buildCommands : gmap string RunCmd;
  (** the prototype an assignment to [buildCommands['__proto__']] gave
      it; [None] while it is still [Object.prototype] *)
  buildCommands_proto : option RunCmd;
}.

(** The variables the [config.scripts] loop updates. *)
Record ScriptState := {
  st_runCommands : list RunCmd;
  (** [scriptPlugins], in insertion order *)
  st_scriptPlugins : list (string * SnowpackPlugin);
  st_buildCommands : gmap string RunCmd;
  st_buildCommands_proto : option RunCmd;
  st_bundler : option SnowpackPlugin;
}.

Definition ScriptState_init : ScriptState :=
  {| st_runCommands := []; st_scriptPlugins := [];
     st_buildCommands := ∅; st_buildCommands_proto := None;
     st_bundler := None |}.

(** [o[k]] on an object kept as an association list. *)
Fixpoint obj_get {V} (o : list (string * V)) (k : string) : option V :=
  match o with
  | [] => None
  | (k', v) :: rest => if String.eqb k' k then Some v else obj_get rest k
  end.

(** [o[k] = v]: an existing key keeps its place. *)
Fixpoint obj_set {V} (o : list (string * V)) (k : string) (v : V)
  : list (string * V) :=
  match o with
  | [] => [(k, v)]
  | (k', v') :: rest =>
      if String.eqb k' k then (k', v) :: rest else (k', v') :: obj_set rest k v
  end.

Definition set_name (n : string) (p : SnowpackPlugin) : SnowpackPlugin :=
  {| name := n; input := input p; output := output p;
     defaultBuildScript := defaultBuildScript p |}.

Definition set_exts (extensions : list string) (p : SnowpackPlugin)
  : SnowpackPlugin :=
  {| name := name p; input := ManyExts extensions;
     output := ManyExts extensions;
     defaultBuildScript := defaultBuildScript p |}.

(** [if (o[k])] on an object whose values are objects: an own property
    or an inherited member is truthy. *)
Definition obj_has {V} (o : list (string * V)) (k : string) : bool :=
  match obj_get o k with
  | Some _ => true
  | None => inherited k
  end.

(** [buildCommands[ext] = rc] (line 80): an own property, except that
    assigning an object to [__proto__] replaces the prototype and makes
    no property. *)
Definition set_buildCommand (rc : RunCmd)
    (o : gmap string RunCmd * option RunCmd) (ext : string)
  : gmap string RunCmd * option RunCmd :=
  if String.eqb ext "__proto__" then (o.1, Some rc)
  else (<[ext := rc]> o.1, o.2).

(** Callback of [Object.entries(config.scripts).forEach] (lines 50-99). *)
Definition script_step (H : Host) (st : ScriptState) (entry : string * string)
  : outcome ScriptState :=
  let '(target, cmd) := entry in
  parsed <-- parseScript target ;;
  let '(scriptType, extensions) := parsed in
  if String.eqb scriptType "run" then
    Ok {| st_runCommands :=
            st_runCommands st ++ [{| RunCmd_id := target; RunCmd_cmd := cmd |}];
          st_scriptPlugins := st_scriptPlugins st;
          st_buildCommands := st_buildCommands st;
          st_buildCommands_proto := st_buildCommands_proto st;
          st_bundler := st_bundler st |}
  else if String.eqb scriptType "build" then
    let pluginName := cmd in
    match requireScript H pluginName with
    | Some plugin =>
        if obj_has (st_scriptPlugins st) pluginName then
          (* line 65 reads [loadPlugins[pluginName]], a property of the
             function [loadPlugins] itself, and destructures it: it has
             no [input] to spread *)
          Throw TypeError
        else
          Ok {| st_runCommands := st_runCommands st;
                st_scriptPlugins :=
                  st_scriptPlugins st ++
                  [(pluginName, set_exts extensions (set_name pluginName plugin))];
                st_buildCommands := st_buildCommands st;
                st_buildCommands_proto := st_buildCommands_proto st;
                st_bundler := st_bundler st |}
    | None =>
        let commands :=
          foldl (set_buildCommand {| RunCmd_id := target; RunCmd_cmd := cmd |})
                (st_buildCommands st, st_buildCommands_proto st) extensions in
        Ok {| st_runCommands := st_runCommands st;
              st_scriptPlugins := st_scriptPlugins st;
              st_buildCommands := commands.1;
              st_buildCommands_proto := commands.2;
              st_bundler := st_bundler st |}
    end
  else if String.eqb scriptType "bundle" then
    let bundlerName := cmd in
    match requireScript H bundlerName with
    | None => Exit (BundlerLoadFailed bundlerName)
    | Some b =>
        Ok {| st_runCommands := st_runCommands st;
              st_scriptPlugins := st_scriptPlugins st;
              st_buildCommands := st_buildCommands st;
              st_buildCommands_proto := st_buildCommands_proto st;
              st_bundler :=
                Some (if JsString.truthy (name b) then b
                      else set_name bundlerName b) |}
    end
  else Ok st.

Definition option_truthy (o : option string) : bool :=
  match o with
  | Some s => JsString.truthy s
  | None => false
  end.

(** Callback of [config.plugins.forEach] (lines 104-135); [acc] is the
    part of [plugins] pushed by this loop. *)
Definition plugin_ref_step (H : Host)
    (scriptPlugins : list (string * SnowpackPlugin))
    (acc : list SnowpackPlugin) (ref : PluginRef)
  : outcome (list SnowpackPlugin) :=
  let pluginName :=
    match ref with PluginName n => n | PluginWithOptions n _ => n end in
  let pluginOptions :=
    match ref with PluginName _ => "{}" | PluginWithOptions _ o => o end in
  if obj_has scriptPlugins pluginName then
    Exit (LoadedInScriptsAndPlugins pluginName)
  else
    match requireConfig H pluginName pluginOptions with
    | None => Throw ModuleLoadError
    | Some plugin =>
        let hasScript := option_truthy (defaultBuildScript plugin) in
        if negb hasScript && exts_falsy (input plugin) then
          Exit (MissingInputOptions pluginName)
        else
          plugin1 <--
            (if hasScript && exts_falsy (input plugin) then
               parsed <-- parseScript (default "" (defaultBuildScript plugin)) ;;
               Ok (set_exts (snd parsed) plugin)
             else Ok plugin) ;;
          (* line 129 reads [name]: no parameter, variable or import of
             that name is in scope *)
          name <-- undeclared (option string) ;;
          Ok (acc ++ [if option_truthy name then plugin1
                      else set_name pluginName plugin1])
    end.

Definition loadPlugins (H : Host) (config : SnowpackConfig)
  : outcome LoadedPlugins :=
  st <-- forEachM (script_step H) (config_scripts config) ScriptState_init ;;
  declared <--
    forEachM (plugin_ref_step H (st_scriptPlugins st)) (config_plugins config) [] ;;
  Ok {| plugins := map snd (st_scriptPlugins st) ++ declared;
        bundler := st_bundler st;
        runCommands := st_runCommands st;
        buildCommands := st_buildCommands st;
        buildCommands_proto := st_buildCommands_proto st |}.

(** ** [getMountedDirs] (import-resolver.ts 18-54) *)

(** Body of the [for ... of Object.entries(config.scripts)] loop. *)
Definition mount_step (H : Host) (mountedDirs : list (string * string))
    (entry : string * string) : outcome (list (string * string)) :=
  let '(id, cmd) := entry in
  if negb (JsString.startsWith id "mount:") then Ok mountedDirs
  else
    let cmdArr := JsString.split_ws cmd in
    if negb (String.eqb (hd "" cmdArr) "mount") then Exit (MustUseMountCommand id)
    else
      let cmdArr := tl cmdArr in (* cmdArr.shift() *)
      let argv := yargs H cmdArr in
      if negb (length (argv_positional argv) =? 1)%nat then Exit (BadMountFormat id)
      else
        let to := default "" (argv_to argv) in
        if JsString.truthy to && negb (JsString.startsWith to "/") then
          Exit (MountToNotUrlPath id to)
        else
          let dirDisk := hd "undefined" cmdArr in
          let dirUrl := if JsString.truthy to then to else "/" +:+ dirDisk in
          let fromDisk := posix_normalize H (dirDisk +:+ "/") in
          let toUrl := posix_normalize H (dirUrl +:+ "/") in
          Ok (obj_set mountedDirs fromDisk toUrl).

Definition getMountedDirs (H : Host) (config : SnowpackConfig)
  : outcome (list (string * string)) :=
  forEachM (mount_step H) (config_scripts config) [].

(** ** [createImportResolver] (import-resolver.ts 56-107) *)

(** [\w] *)
Definition is_word (c : ascii) : bool :=
  let n := nat_of_ascii c in
  ((48 <=? n)%nat && (n <=? 57)%nat) || ((65 <=? n)%nat && (n <=? 90)%nat)
  || ((97 <=? n)%nat && (n <=? 122)%nat) || (n =? 95)%nat.

(** The longest prefix of word characters, and what follows it. *)
Fixpoint take_word (s : string) : string * string :=
  match s with
  | EmptyString => (EmptyString, EmptyString)
  | String c r =>
      if is_word c then let '(w, rest) := take_word r in (String c w, rest)
      else (EmptyString, s)
  end.

Definition drop_chars (n : nat) (s : string) : string :=
  String.substring n (String.length s - n) s.

(** A match of [URL_HAS_PROTOCOL_REGEX = /^(\w+:)?\/\//]: the matched
    prefix and the rest of the string. *)
Definition match_protocol (s : string) : option (string * string) :=
  if String.prefix "//" s then Some ("//", drop_chars 2 s)
  else
    let '(w, rest) := take_word s in
    if JsString.truthy w && String.prefix "://" rest
    then Some (w +:+ "://", drop_chars 3 rest)
    else None.

(** [URL_HAS_PROTOCOL_REGEX.test(s)] *)
Definition URL_HAS_PROTOCOL (s : string) : bool :=
  match match_protocol s with Some _ => true | None => false end.

Record ImportResolverOptions := {
  fileLoc : string;
  webModulesPath : string;
  (** [dependencyImportMap.imports], [None] for [null] or [undefined] *)
  dependencyImportMap : option (gmap string string);
  isDev : bool;
  isBundled : bool;
  config : SnowpackConfig;
}.

(** [string | false] *)
Inductive Resolution :=
  | Resolved (url : string)
  | Unresolved.

(** [spec.startsWith('/') || spec.startsWith('./') || spec.startsWith('../')] *)
Definition is_path_like (spec : string) : bool :=
  JsString.startsWith spec "/" || JsString.startsWith spec "./"
  || JsString.startsWith spec "../".

(** Lines 88-98: the path an import-map entry [target] resolves to,
    before any suffix. *)
Definition resolvedImport (H : Host) (o : ImportResolverOptions)
    (target : string) : string :=
  let protocolMatch := match_protocol (config_baseUrl (config o)) in
  let protocol := match protocolMatch with Some (p, _) => p | None => "" end in
  let baseUrl :=
    match protocolMatch with
    | Some (_, rest) => rest
    | None => config_baseUrl (config o)
    end in
  if isDev o then posix_resolve H (webModulesPath o) target
  else protocol +:+ posix_join H baseUrl (webModulesPath o) target.

(** Lines 99-103. *)
Definition resolveFromImportMap (H : Host) (o : ImportResolverOptions)
    (target : string) : string :=
  let resolvedImport := resolvedImport H o target in
  let extName := path_extname H resolvedImport in
  if negb (isBundled o) && JsString.truthy extName
     && negb (String.eqb extName ".js")
  then resolvedImport +:+ ".proxy.js"
  else resolvedImport.

(** The function [createImportResolver] returns. Neither [matchedDir]
    nor [resolveSourceSpecifier] nor [importStats] is a parameter, a
    variable or an import of the module. *)
Definition importResolver (H : Host) (o : ImportResolverOptions)
    (spec : string) : outcome Resolution :=
  if URL_HAS_PROTOCOL spec then Ok (Resolved spec)
  else
    matchedDir <-- undeclared (option (string * string)) ;; (* line 76 *)
    match matchedDir with
    | Some _ =>
        (* lines 77-80: the block declares [const spec] and reads it in
           its own initialiser *)
        Throw ReferenceError
    | None =>
        if is_path_like spec then
          resolveSourceSpecifier <-- undeclared (string -> bool -> string) ;;
          Ok (Resolved (resolveSourceSpecifier spec (isBundled o)))
        else
          match dependencyImportMap o with
          | Some imports =>
              match js_get imports spec with
              | Own target =>
                  if JsString.truthy target
                  then Ok (Resolved (resolveFromImportMap H o target))
                  else Ok Unresolved
              | Inherited =>
                  (* [path.posix.resolve] and [path.posix.join] take
                     strings only *)
                  Throw TypeError
              | Missing => Ok Unresolved
              end
          | None => Ok Unresolved
          end
    end.

(** ** [urlToFile] (import-resolver.ts 109-158) *)

Record UrlToFileResult := {
  locOnDisk : option string;
  lookups : list string;
}.

(** The inner loop (lines 147-154): [break] leaves it at the first
    attempt that exists. *)
Fixpoint try_exts (H : Host) (url cwd fromDisk : string) (exts : list string)
    (r : UrlToFileResult) : UrlToFileResult :=
  match exts with
  | [] => r
  | ext :: rest =>
      let locationAttempt := path_join H cwd fromDisk (replaceExt H url ext) in
      let lookups' := lookups r ++ [locationAttempt] in
      if existsSync H locationAttempt
      then {| locOnDisk := Some locationAttempt; lookups := lookups' |}
      else try_exts H url cwd fromDisk rest
             {| locOnDisk := locOnDisk r; lookups := lookups' |}
  end.

(** [expandedExt || baseExt] *)
Definition lookupKey (e : FileExt) : string :=
  if JsString.truthy (expandedExt e) then expandedExt e else baseExt e.

(** Body of the outer loop (line 146): iterating [extMap.output[key]]
    raises when the key is no own property of the map: what the read
    finds then is [undefined] or a member of [Object.prototype], and
    neither can be iterated. *)
Definition mount_lookup_step (H : Host) (extMap : ExtensionMap)
    (url cwd : string) (r : UrlToFileResult) (dir : string * string)
  : outcome UrlToFileResult :=
  match extMap_output extMap !! lookupKey (getExt H url) with
  | None => Throw TypeError
  | Some exts => Ok (try_exts H url cwd (fst dir) exts r)
  end.

Definition possibleDirs (url : string) (mountedDirs : list (string * string))
  : list (string * string) :=
  List.filter (fun d => JsString.startsWith url (snd d)) mountedDirs.

Definition urlToFile (H : Host) (url : string) (config : SnowpackConfig)
    (cwd : string) : outcome UrlToFileResult :=
  loaded <-- loadPlugins H config ;;
  mountedDirs <-- getMountedDirs H config ;;
  (* lines 123-139 repeat the body of [createPluginExtensionMap] *)
  extMap <-- forEachM extMap_step (plugins loaded) extMap_empty ;;
  forEachM (mount_lookup_step H extMap url cwd)
           (possibleDirs url mountedDirs)
           {| locOnDisk := None; lookups := [] |}.

(** ** Notions the statements use *)

(** Every list of the output side starts with its own key. *)
Definition self_first (m : gmap string (list string)) : Prop :=
  forall k l, m !! k = Some l -> exists t, l = k :: t.

(** What links the two results of [urlToFile]: a location that was
    found is an attempt that exists, and without one no attempt exists. *)
Definition found_ok (H : Host) (r : UrlToFileResult) : Prop :=
  (forall p, locOnDisk r = Some p -> p ∈ lookups r /\ existsSync H p = true)
  /\ (locOnDisk r = None -> forall p, p ∈ lookups r -> existsSync H p = false).

(** The script ids [loadPlugins] treats as [bundle:*]. *)
Definition is_bundle_script (target : string) : bool :=
  match parseScript target with
  | Ok (scriptType, _) => String.eqb scriptType "bundle"
  | _ => false
  end.

(** The script ids [loadPlugins] treats as [build:*]. *)
Definition is_build_script (target : string) : bool :=
  match parseScript target with
  | Ok (scriptType, _) => String.eqb scriptType "build"
  | _ => false
  end.

(** The commands of the bundle scripts, in script order. *)
Definition bundle_names (scripts : list (string * string)) : list string :=
  map snd (List.filter (fun e => is_bundle_script (fst e)) scripts).

(** What the last bundle script loads, named as lines 87-95 name it. *)
Definition last_bundler (H : Host) (scripts : list (string * string))
  : option SnowpackPlugin :=
  match last (bundle_names scripts) with
  | Some bundlerName =>
      match requireScript H bundlerName with
      | Some b =>
          Some (if JsString.truthy (name b) then b else set_name bundlerName b)
      | None => None
      end
  | None => None
  end.

(** The disk path [urlToFile] tries for [url] with extension [ext]
    under the mount [dir] (line 148). *)
Definition locationAttempt (H : Host) (url cwd : string)
    (dir : string * string) (ext : string) : string :=
  path_join H cwd (fst dir) (replaceExt H url ext).

(** ** A concrete host and project, for the examples

    Small stand-ins for the host: enough of Node's [path], of
    [yargs-parser] and of [../util] for paths without [.] or [..]
    segments, a module loader that knows a fixed list of plugins, and a
    disk given as the list of its files. *)

Module Demo.
(** collapse runs of [/] *)
Fixpoint collapse_slashes (after_slash : bool) (s : string) : string :=
  match s with
  | EmptyString => EmptyString
  | String c r =>
      if Ascii.eqb c "/" then
        if after_slash then collapse_slashes true r
        else String c (collapse_slashes true r)
      else String c (collapse_slashes false r)
  end.

Definition normalize (p : string) : string := collapse_slashes false p.

Definition join3 (a b c : string) : string :=
  normalize (a +:+ "/" +:+ b +:+ "/" +:+ c).

Definition resolve (from to : string) : string :=
  if JsString.startsWith to "/" then normalize to
  else normalize ("/" +:+ from +:+ "/" +:+ to).

Fixpoint basename_go (cur : string) (s : string) : string :=
  match s with
  | EmptyString => cur
  | String c r =>
      if Ascii.eqb c "/" then basename_go EmptyString r
      else basename_go (cur +:+ String c EmptyString) r
  end.

Definition basename (p : string) : string := basename_go EmptyString p.

(** the suffix that starts at the first dot *)
Fixpoint from_first_dot (s : string) : string :=
  match s with
  | EmptyString => EmptyString
  | String c r => if Ascii.eqb c "." then s else from_first_dot r
  end.

(** the suffix that starts at the last dot *)
Fixpoint from_last_dot (s : string) : string :=
  match s with
  | EmptyString => EmptyString
  | String c r =>
      match from_last_dot r with
      | EmptyString => if Ascii.eqb c "." then s else EmptyString
      | e => e
      end
  end.

Definition extname (p : string) : string := from_last_dot (basename p).

Definition fileExt (fileName : string) : FileExt :=
  {| baseExt := JsString.toLowerCase (extname fileName);
     expandedExt := JsString.toLowerCase (from_first_dot (basename fileName)) |}.

Definition withExt (fileName newExt : string) : string :=
  let old := from_first_dot (basename fileName) in
  String.substring 0 (String.length fileName - String.length old) fileName
  +:+ newExt.

Fixpoint parse_args (args : list string) : YargsArgv :=
  match args with
  | [] => {| argv_to := None; argv_positional := [] |}
  | a :: rest =>
      if String.eqb a "--to" then
        match rest with
        | v :: rest' =>
            {| argv_to := Some v; argv_positional := argv_positional (parse_args rest') |}
        | [] => {| argv_to := Some ""; argv_positional := [] |}
        end
      else
        let r := parse_args rest in
        {| argv_to := argv_to r; argv_positional := a :: argv_positional r |}
  end.

(** what an installed plugin module returns before [loadPlugins]
    names it and sets its extensions *)
Definition bare_plugin : SnowpackPlugin :=
  {| name := ""; input := OneExt ".js"; output := OneExt ".js";
     defaultBuildScript := None |}.

Definition host (installed : list string) (files : list string) : Host :=
  {| requireScript := fun n =>
       if bool_decide (n ∈ installed) then Some bare_plugin else None;
     requireConfig := fun n _ =>
       if bool_decide (n ∈ installed) then Some bare_plugin else None;
     yargs := parse_args;
     posix_normalize := normalize;
     posix_resolve := resolve;
     posix_join := join3;
     path_extname := extname;
     path_join := join3;
     existsSync := fun p => bool_decide (p ∈ files);
     getExt := fileExt;
     replaceExt := withExt |}.

Definition svelte_plugin : SnowpackPlugin :=
  {| name := "svelte"; input := OneExt ".svelte";
     output := ManyExts [".js"; ".css"]; defaultBuildScript := None |}.

Definition sass_plugin : SnowpackPlugin :=
  {| name := "sass"; input := ManyExts [".scss"; ".sass"];
     output := OneExt ".css"; defaultBuildScript := None |}.

Definition mk_config (scripts : list (string * string)) : SnowpackConfig :=
  {| config_scripts := scripts; config_plugins := []; config_baseUrl := "/" |}.

(** a stylesheet plugin registered for [.css] and [.scss], and [dist]
    mounted at [/dist/] *)
Definition sass_config : SnowpackConfig :=
  mk_config [("mount:dist", "mount dist");
             ("build:.css,.scss", "sass-plugin")].

(** the same plugin, with [public] mounted at [/] and [src] at [/dist/] *)
Definition two_mounts_config : SnowpackConfig :=
  mk_config [("mount:public", "mount public --to /");
             ("mount:src", "mount src --to /dist");
             ("build:.css,.scss", "sass-plugin")].

(** the same plugin registered for [constructor] and [.css] *)
Definition odd_config : SnowpackConfig :=
  mk_config [("mount:dist", "mount dist");
             ("build:constructor,.css", "sass-plugin")].

(** no plugin at all, [dist] mounted at [/dist/] *)
Definition mount_only_config : SnowpackConfig :=
  mk_config [("mount:dist", "mount dist")].

(** one plugin named by two build scripts *)
Definition twice_config : SnowpackConfig :=
  mk_config [("build:js,jsx", "babel-plugin"); ("build:ts", "babel-plugin")].

(** two bundle scripts *)
Definition two_bundlers_config : SnowpackConfig :=
  mk_config [("bundle:*", "webpack-plugin"); ("bundle:all", "parcel-plugin")].

(** only [app.scss] is on disk *)
Definition sass_host : Host :=
  host ["sass-plugin"] ["/proj/dist/dist/app.scss"].

(** [app.css] is on disk under both mounted directories *)
Definition two_mounts_host : Host :=
  host ["sass-plugin"]
       ["/proj/public/dist/app.css"; "/proj/src/dist/app.css"].

(** no plugin installed, [logo.png] on disk *)
Definition logo_host : Host := host [] ["/proj/dist/dist/logo.png"].

(** nothing installed, nothing on disk *)
Definition plain_host : Host := host [] [].

Definition resolver_options (bundled : bool) : ImportResolverOptions :=
  {| fileLoc := "src/index.js";
     webModulesPath := "/web_modules";
     dependencyImportMap :=
       Some (<["lodash" := "lodash.js"]> (<["theme" := "theme/main.css"]> ∅));
     isDev := true;
     isBundled := bundled;
     config := mk_config [] |}.
End Demo.

(** ** [createBuildPipeline] (plugins.ts 145-156) *)

(** [if (pipeline[ext]) pipeline[ext].push(plugin);
    else pipeline[ext] = [plugin]]: an inherited member is truthy and
    has no [push]. *)
Definition pipeline_push (plugin : SnowpackPlugin)
    (pipeline : gmap string (list SnowpackPlugin)) (ext : string)
  : outcome (gmap string (list SnowpackPlugin)) :=
  match js_get pipeline ext with
  | Own queued => Ok (<[ext := queued ++ [plugin]]> pipeline)
  | Inherited => Throw TypeError
  | Missing => Ok (<[ext := [plugin]]> pipeline)
  end.

Definition createBuildPipeline (plugins : list SnowpackPlugin)
  : outcome (gmap string (list SnowpackPlugin)) :=
  forEachM (fun pipeline plugin =>
              forEachM (pipeline_push plugin) (toArray (input plugin)) pipeline)
           plugins ∅.

(** What [pipeline_push] leaves when it returns. *)
Definition pipeline_add (plugin : SnowpackPlugin)
    (pipeline : gmap string (list SnowpackPlugin)) (ext : string)
  : gmap string (list SnowpackPlugin) :=
  match pipeline !! ext with
  | Some queued => <[ext := queued ++ [plugin]]> pipeline
  | None => <[ext := [plugin]]> pipeline
  end.

Definition piped (plugins : list SnowpackPlugin)
  : gmap string (list SnowpackPlugin) :=
  foldl (fun pipeline plugin =>
           foldl (pipeline_add plugin) pipeline (toArray (input plugin)))
        ∅ plugins.

(** No input extension of the plugin is the name of a member of
    [Object.prototype]. *)
Definition plain_inputs (p : SnowpackPlugin) : Prop :=
  Forall (fun ext => inherited ext = false) (toArray (input p)).

(** What one plugin pushes under [ext]: itself, once for every time
    [ext] stands in its input. *)
Definition pushes (ext : string) (plugin : SnowpackPlugin) : list SnowpackPlugin :=
  map (fun _ => plugin) (List.filter (String.eqb ext) (toArray (input plugin))).

(** A list appended to an entry that may not be there yet. *)
Definition queue_after {A} (entry : option (list A)) (more : list A)
  : option (list A) :=
  match more with
  | [] => entry
  | _ => Some (default [] entry ++ more)
  end.

(** ** More notions the statements use *)

(** [s.includes(c)] for a character. *)
Fixpoint has_char (c : ascii) (s : string) : bool :=
  match s with
  | EmptyString => false
  | String c' r => Ascii.eqb c' c || has_char c r
  end.

(** The script ids [loadPlugins] treats as [run:*]. *)
Definition is_run_script (target : string) : bool :=
  match parseScript target with
  | Ok (scriptType, _) => String.eqb scriptType "run"
  | _ => false
  end.

(** The [run:*] scripts as [runCommands] entries, in script order. *)
Definition run_commands_of (scripts : list (string * string)) : list RunCmd :=
  map (fun e => {| RunCmd_id := fst e; RunCmd_cmd := snd e |})
      (List.filter (fun e => is_run_script (fst e)) scripts).

(** A raw build command for [ext], as the scripts loop records it: the
    id and the command of a build script that names [ext] and whose
    command did not load as a plugin. *)
Definition recorded (H : Host) (scripts : list (string * string))
    (ext : string) (rc : RunCmd) : Prop :=
  (RunCmd_id rc, RunCmd_cmd rc) ∈ scripts
  /\ requireScript H (RunCmd_cmd rc) = None
  /\ exists extensions,
      parseScript (RunCmd_id rc) = Ok ("build", extensions) /\ ext ∈ extensions.

(** The name of an element of [config.plugins] (plugins.ts 105). *)
Definition PluginRef_name (ref : PluginRef) : string :=
  match ref with
  | PluginName n => n
  | PluginWithOptions n _ => n
  end.


(** The script ids [getMountedDirs] reads. *)
Definition is_mount_script (id : string) : bool := JsString.startsWith id "mount:".

(** What [yargs] makes of a mount command (import-resolver.ts 32-37). *)
Definition mount_argv (H : Host) (cmd : string) : YargsArgv :=
  yargs H (tl (JsString.split_ws cmd)).

(** The entry a well-formed mount command adds (lines 44-50): the disk
    prefix and the URL prefix. *)
Definition mount_entry (H : Host) (cmd : string) : string * string :=
  let to := default "" (argv_to (mount_argv H cmd)) in
  let dirDisk := hd "undefined" (tl (JsString.split_ws cmd)) in
  (posix_normalize H (dirDisk +:+ "/"),
   posix_normalize H ((if JsString.truthy to then to else "/" +:+ dirDisk) +:+ "/")).

(** The checks of lines 33-43. *)
Definition mount_command_ok (H : Host) (cmd : string) : Prop :=
  hd "" (JsString.split_ws cmd) = "mount"
  /\ length (argv_positional (mount_argv H cmd)) = 1
  /\ (forall to, argv_to (mount_argv H cmd) = Some to -> to <> "" ->
       JsString.startsWith to "/" = true).

(** The paths [urlToFile] can try for [url] under [dir], in order. *)
Definition candidates (H : Host) (url cwd : string) (dir : string * string)
    (exts : list string) : list string :=
  map (locationAttempt H url cwd dir) exts.

(** A list up to and including its first element that satisfies [f]. *)
Fixpoint until_first {A} (f : A -> bool) (l : list A) : list A :=
  match l with
  | [] => []
  | x :: rest => if f x then [x] else x :: until_first f rest
  end.

(** ** [rewriteImport] (assets/babel-plugin.js 32-54) *)

(** [s.startsWith('http://') || s.startsWith('https://')] *)
Definition is_http (s : string) : bool :=
  JsString.startsWith s "http://" || JsString.startsWith s "https://".

(** [imp.startsWith('/') || imp.startsWith('.') || imp.startsWith('\\')] *)
Definition isSourceImport (imp : string) : bool :=
  JsString.startsWith imp "/" || JsString.startsWith imp "."
  || JsString.startsWith imp "\".

Record Rewritten := {
  rewritten : string;
  (** whether the [bare import ... not found] warning was logged *)
  warned : bool;
}.

(** [imports] holds the own properties of [importMap.imports], the
    object [JSON.parse] made of the import map file (its values taken to
    be strings). An entry that is the empty string is falsy and counts
    as no entry; an inherited member is truthy and has no [startsWith]
    (line 37). *)
Definition rewriteImport (H : Host) (imports : gmap string string)
    (imp dir : string) (shouldAddMissingExtension : bool) : outcome Rewritten :=
  mappedImport <--
    match js_get imports imp with
    | Own mapped => Ok mapped
    | Missing => Ok ""   (* [undefined], falsy like the empty string *)
    | Inherited => Throw TypeError
    end ;;
  Ok (if JsString.truthy mappedImport then
        if is_http mappedImport
        then {| rewritten := mappedImport; warned := false |}
        else {| rewritten := posix_join H "/" dir mappedImport; warned := false |}
      else if is_http imp then {| rewritten := imp; warned := false |}
      else if negb (isSourceImport imp) then {| rewritten := imp; warned := true |}
      else if shouldAddMissingExtension && negb (JsString.truthy (path_extname H imp))
      then {| rewritten := imp +:+ ".js"; warned := false |}
      else {| rewritten := imp; warned := false |}).

(** ** Configuration ([src/config.ts]) *)

(** What [handleConfigError] reports in [normalizeConfig] and
    [handleLegacyProxyScripts] before [process.exit(1)]. *)
Inductive NormalizeError :=
  | BundleWithoutBundler
  | MustUseProxyCommand (scriptId : string)
  | BadProxyFormat (scriptId : string)
  | ProxyToNotUrlPath (scriptId : string) (to : string)
  | CannotOverwriteProxy (scriptId : string) (toUrl : string).

Inductive checked (A : Type) :=
  | Done (a : A)
  | Fatal (e : NormalizeError).
Arguments Done {A} a.
Arguments Fatal {A} e.

Definition cbind {A B} (m : checked A) (k : A -> checked B) : checked B :=
  match m with
  | Done a => k a
  | Fatal e => Fatal e
  end.

Fixpoint forEachC {A S} (f : S -> A -> checked S) (xs : list A) (s : S)
  : checked S :=
  match xs with
  | [] => Done s
  | x :: rest => cbind (f s x) (forEachC f rest)
  end.

(** [id.indexOf(c)]: [None] is [-1]. *)
Fixpoint indexOf (c : ascii) (s : string) : option nat :=
  match s with
  | EmptyString => None
  | String c' r =>
      if Ascii.eqb c' c then Some 0
      else match indexOf c r with
           | Some i => Some (S i)
           | None => None
           end
  end.

(** [string | number | true], as [expandCliFlags] builds it *)
Inductive EnvValue :=
  | EnvString (val : string)
  | EnvTrue.

(** Lines 278-279: [index > 0 ? [id.substr(0, index), id.substr(index + 1)]
    : [id, true]]. *)
Definition env_entry (id : string) : string * EnvValue :=
  match indexOf "=" id with
  | Some (S i) =>
      (String.substring 0 (S i) id, EnvString (drop_chars (S (S i)) id))
  | _ => (id, EnvTrue)
  end.

(** [acc[key] = val] (line 280) for a string or [true]: an own
    property, except that assigning a primitive to [__proto__] does
    nothing. *)
Definition env_assign (acc : list (string * EnvValue)) (key : string)
    (val : EnvValue) : list (string * EnvValue) :=
  if String.eqb key "__proto__" then acc else obj_set acc key val.

(** The [reduce] of lines 276-283 over [--env] flags: the own
    properties of the object it returns. *)
Definition expandEnv (env : list string) : list (string * EnvValue) :=
  foldl (fun acc id => env_assign acc (fst (env_entry id)) (snd (env_entry id)))
        [] env.

(** The first occurrence of [needle] in [hay]: what stands before it
    and what stands after it. *)
Fixpoint find_sub (needle hay : string) : option (string * string) :=
  if String.prefix needle hay
  then Some (EmptyString, drop_chars (String.length needle) hay)
  else match hay with
       | EmptyString => None
       | String c r =>
           match find_sub needle r with
           | Some (before, after) => Some (String c before, after)
           | None => None
           end
       end.

(** [s.replace(pattern, '')] for a string pattern *)
Definition remove_first (s pattern : string) : string :=
  match find_sub pattern s with
  | Some (before, after) => before +:+ after
  | None => s
  end.

(** [s.split(sep)[0]]: [None] is [undefined], the first element of the
    empty array that [''.split('')] is. *)
Definition split_first (s sep : string) : option string :=
  match sep with
  | EmptyString =>
      match s with
      | EmptyString => None
      | String c _ => Some (String c EmptyString)
      end
  | _ =>
      match find_sub sep s with
      | Some (before, _) => Some before
      | None => Some s
      end
  end.

(** The [proxyReq] handler of [normalizeProxies] (lines 339-342): the
    new value of [proxyReq.path]. *)
Definition proxyReq_path (pathPrefix path url : string) : string :=
  default "undefined" (split_first path url) +:+ remove_first url pathPrefix.

(** A value of [config.proxy] before [normalizeProxies]; the options
    object is kept as it is. *)
Inductive RawProxy (Options : Type) :=
  | ProxyTarget (target : string)
  | ProxyObject (options : Options).
Arguments ProxyTarget {Options} target.
Arguments ProxyObject {Options} options.

(** [ProxyOptions] as [normalizeProxies] builds them. *)
Inductive ProxyOptions (Options : Type) :=
  (** [{on: {}, ...options}] *)
  | WithDefaultOn (options : Options)
  (** [{on: {proxyReq}, target, changeOrigin: true, secure: false}], the
      handler being [proxyReq_path pathPrefix] *)
  | Forward (pathPrefix target : string).
Arguments WithDefaultOn {Options} options.
Arguments Forward {Options} pathPrefix target.

(** Truthiness of [config.proxy[toUrl]]. *)
Definition proxy_truthy {Options} (entry : option (RawProxy Options)) : bool :=
  match entry with
  | Some (ProxyTarget target) => JsString.truthy target
  | Some (ProxyObject _) => true
  | None => false
  end.

(** [delete o[k]] *)
Fixpoint obj_delete {V} (o : list (string * V)) (k : string) : list (string * V) :=
  match o with
  | [] => []
  | (k', v) :: rest =>
      if String.eqb k' k then rest else (k', v) :: obj_delete rest k
  end.

(** The fields of the configuration that [normalizeConfig] reads and
    writes. *)
Record MergedConfig (Options : Type) := {
  (** [config.install] *)
  m_install : option (list string);
  (** [config.installOptions.dest] *)
  m_dest : string;
  (** [config.devOptions.out] *)
  m_out : string;
  (** [config.devOptions.bundle] *)
  m_bundle : option bool;
  m_exclude : list string;
  (** [config.buildOptions.metaDir] *)
  m_metaDir : string;
  (** [Object.entries(config.scripts)] *)
  m_scripts : list (string * string);
  (** [config.proxy], [None] when falsy *)
  m_proxy : option (list (string * RawProxy Options));
}.
Arguments m_install {Options} _.
Arguments m_dest {Options} _.
Arguments m_out {Options} _.
Arguments m_bundle {Options} _.
Arguments m_exclude {Options} _.
Arguments m_metaDir {Options} _.
Arguments m_scripts {Options} _.
Arguments m_proxy {Options} _.

Record NormalizedConfig (Options : Type) := {
  n_knownEntrypoints : list string;
  n_dest : string;
  n_out : string;
  n_exclude : list string;
  n_metaDir : string;
  n_scripts : list (string * string);
  n_proxy : list (string * ProxyOptions Options);
}.
Arguments n_knownEntrypoints {Options} _.
Arguments n_dest {Options} _.
Arguments n_out {Options} _.
Arguments n_exclude {Options} _.
Arguments n_metaDir {Options} _.
Arguments n_scripts {Options} _.
Arguments n_proxy {Options} _.

Definition ALWAYS_EXCLUDE : list string :=
  ["**/node_modules/**/*"; "**/.types/**/*"].

Definition is_slash (c : ascii) : bool := Ascii.eqb c "/" || Ascii.eqb c "\".

(** [s.replace(/^(\/|\\)/g, '')] *)
Definition strip_leading_slash (s : string) : string :=
  match s with
  | String c r => if is_slash c then r else s
  | EmptyString => EmptyString
  end.

(** [s.replace(/(\/|\\)$/g, '')] *)
Fixpoint strip_trailing_slash (s : string) : string :=
  match s with
  | EmptyString => EmptyString
  | String c EmptyString => if is_slash c then EmptyString else s
  | String c r => String c (strip_trailing_slash r)
  end.

(** The state [handleLegacyProxyScripts] updates: [config.scripts] and
    [config.proxy]. *)
Definition LegacyState (Options : Type) : Type :=
  (list (string * string) * list (string * RawProxy Options))%type.

(** Body of the [for ... in config.scripts] loop (config.ts 292-318). *)
Definition legacy_proxy_step {Options} (H : Host) (st : LegacyState Options)
    (scriptId : string) : checked (LegacyState Options) :=
  let '(scripts, proxy) := st in
  if negb (JsString.startsWith scriptId "proxy:") then Done st
  else
    let cmdArr := JsString.split_ws (default "" (obj_get scripts scriptId)) in
    if negb (String.eqb (hd "" cmdArr) "proxy") then Fatal (MustUseProxyCommand scriptId)
    else
      let cmdArr := tl cmdArr in
      let argv := yargs H cmdArr in
      if negb (length (argv_positional argv) =? 1)%nat
      then Fatal (BadProxyFormat scriptId)
      else
        let to := default "" (argv_to argv) in
        if JsString.truthy to && negb (JsString.startsWith to "/")
        then Fatal (ProxyToNotUrlPath scriptId to)
        else
          (* the property key that [to] makes *)
          let toUrl := default "undefined" (argv_to argv) in
          let fromUrl := hd "undefined" (argv_positional argv) in
          if proxy_truthy (obj_get proxy toUrl)
          then Fatal (CannotOverwriteProxy scriptId toUrl)
          else Done (obj_delete scripts scriptId,
                     obj_set proxy toUrl (ProxyTarget fromUrl)).

Definition handleLegacyProxyScripts {Options} (H : Host)
    (st : LegacyState Options) : checked (LegacyState Options) :=
  forEachC (legacy_proxy_step H) (map fst (fst st)) st.

(** [normalizeProxies] (config.ts 322-350) *)
Definition normalizeProxies {Options} (proxies : list (string * RawProxy Options))
  : list (string * ProxyOptions Options) :=
  map (fun entry =>
         match snd entry with
         | ProxyObject options => (fst entry, WithDefaultOn options)
         | ProxyTarget target => (fst entry, Forward (fst entry) target)
         end)
      proxies.

(** [normalizeConfig] (config.ts 353-377); [resolve] is
    [path.resolve(process.cwd(), _)]. *)
Definition normalizeConfig {Options} (H : Host) (resolve : string -> string)
    (config : MergedConfig Options) : checked (NormalizedConfig Options) :=
  let exclude := JsSet.spread (ALWAYS_EXCLUDE ++ m_exclude config) in
  let proxy := default [] (m_proxy config) in
  let metaDir := strip_trailing_slash (strip_leading_slash (m_metaDir config)) in
  if bool_decide (m_bundle config = Some true)
     && negb (JsString.truthy (default "" (obj_get (m_scripts config) "bundle:*")))
  then Fatal BundleWithoutBundler
  else
    cbind (handleLegacyProxyScripts H (m_scripts config, proxy))
          (fun st =>
             Done {| n_knownEntrypoints := default [] (m_install config);
                     n_dest := resolve (m_dest config);
                     n_out := resolve (m_out config);
                     n_exclude := exclude;
                     n_metaDir := metaDir;
                     n_scripts := fst st;
                     n_proxy := normalizeProxies (snd st) |}).

(** The script ids [handleLegacyProxyScripts] converts. *)
Definition is_proxy_script (scriptId : string) : bool :=
  JsString.startsWith scriptId "proxy:".

(** What [yargs] makes of a proxy command (config.ts 296-301). *)
Definition proxy_argv (H : Host) (cmd : string) : YargsArgv :=
  yargs H (tl (JsString.split_ws cmd)).

(** The key that [to] makes in [config.proxy] (lines 312-316). *)
Definition proxy_toUrl (H : Host) (cmd : string) : string :=
  default "undefined" (argv_to (proxy_argv H cmd)).

(** [_[0]] (line 312) *)
Definition proxy_fromUrl (H : Host) (cmd : string) : string :=
  hd "undefined" (argv_positional (proxy_argv H cmd)).

(** The script ids that stay in [config.scripts]. *)
Definition kept_scripts (scripts : list (string * string)) : list (string * string) :=
  List.filter (fun e => negb (is_proxy_script (fst e))) scripts.

(** ** More concrete inputs, for the examples *)

Module Samples.
Definition babel : SnowpackPlugin :=
  {| name := "babel"; input := ManyExts [".js"; ".jsx"];
     output := OneExt ".js"; defaultBuildScript := None |}.

Definition typescript : SnowpackPlugin :=
  {| name := "typescript"; input := ManyExts [".ts"; ".js"];
     output := OneExt ".js"; defaultBuildScript := None |}.
(** a test runner, a linter, a plugin and a shell command *)
Definition mixed_config : SnowpackConfig :=
  Demo.mk_config [("run:test", "jest"); ("build:js,jsx", "babel-plugin");
                  ("run:lint", "eslint src"); ("build:css", "postcss")].

(** [babel-plugin] named by a build script and listed in [plugins] *)
Definition both_config : SnowpackConfig :=
  {| config_scripts := [("build:js,jsx", "babel-plugin")];
     config_plugins := [PluginName "babel-plugin"];
     config_baseUrl := "/" |}.
(** the import map of a project that installed [lodash] *)
Definition import_map : gmap string string :=
  <["lodash" := "lodash.js"]> (<["htm" := "https://cdn.skypack.dev/htm"]> ∅).
(** a project that still declares its API proxy as a script *)
Definition legacy_config : MergedConfig unit :=
  {| m_install := None;
     m_dest := "web_modules";
     m_out := "build";
     m_bundle := Some true;
     m_exclude := ["**/.types/**/*"; "__tests__/**/*"];
     m_metaDir := "/__snowpack__/";
     m_scripts := [("mount:src", "mount src"); ("bundle:*", "webpack-plugin");
                   ("proxy:api", "proxy http://localhost:3000 --to /api")];
     m_proxy := None |}.

Definition resolve_in_proj (p : string) : string := "/proj/" +:+ p.
End Samples.


(** * Properties *)

(** ** [Set] *)

Section JsSetFacts.
Implicit Types (s xs : list string) (x y : string).

Lemma elem_of_add s x y : y ∈ JsSet.add s x <-> y ∈ s \/ y = x.
Proof.
  unfold JsSet.add. case_bool_decide as Hin.
  - split; [auto | intros [? | ->]; assumption].
  - rewrite elem_of_app, list_elem_of_singleton. reflexivity.
Qed.

Lemma elem_of_foldl_add xs s y :
  y ∈ foldl JsSet.add s xs <-> y ∈ s \/ y ∈ xs.
Proof.
  revert s. induction xs as [| x xs IH]; intros s; simpl.
  - rewrite elem_of_nil. tauto.
  - rewrite IH, elem_of_add, elem_of_cons. tauto.
Qed.

Lemma elem_of_spread xs y : y ∈ JsSet.spread xs <-> y ∈ xs.
Proof.
  unfold JsSet.spread. rewrite elem_of_foldl_add, elem_of_nil. tauto.
Qed.

Lemma NoDup_add s x : NoDup s -> NoDup (JsSet.add s x).
Proof.
  intros Hs. unfold JsSet.add. case_bool_decide as Hin; [assumption |].
  apply NoDup_app. split; [assumption |]. split.
  - intros y Hy Hy'. apply list_elem_of_singleton in Hy'. congruence.
  - apply NoDup_singleton.
Qed.

Lemma NoDup_foldl_add xs s : NoDup s -> NoDup (foldl JsSet.add s xs).
Proof.
  revert s. induction xs as [| x xs IH]; intros s Hs; simpl; [assumption |].
  apply IH, NoDup_add, Hs.
Qed.

Lemma NoDup_spread xs : NoDup (JsSet.spread xs).
Proof. apply NoDup_foldl_add, NoDup_nil_2. Qed.

(** The first element ever inserted stays first. *)
Lemma add_cons_head x s y : exists t, JsSet.add (x :: s) y = x :: t.
Proof.
  unfold JsSet.add. case_bool_decide; simpl; eauto.
Qed.

Lemma foldl_add_cons_head xs x s :
  exists t, foldl JsSet.add (x :: s) xs = x :: t.
Proof.
  revert s. induction xs as [| y xs IH]; intros s; simpl; [eauto |].
  destruct (add_cons_head x s y) as [t ->]. apply IH.
Qed.

Lemma spread_cons_head x xs : exists t, JsSet.spread (x :: xs) = x :: t.
Proof.
  unfold JsSet.spread. simpl. unfold JsSet.add at 2. simpl.
  apply foldl_add_cons_head.
Qed.
End JsSetFacts.

(** ** Outcomes and loops *)

Lemma obind_Ok {A B} (m : outcome A) (k : A -> outcome B) b :
  obind m k = Ok b -> exists a, m = Ok a /\ k a = Ok b.
Proof. destruct m; simpl; intros Hm; try discriminate. eauto. Qed.

Lemma forEachM_app {A S} (f : S -> A -> outcome S) xs ys s :
  forEachM f (xs ++ ys) s = (s' <-- forEachM f xs s ;; forEachM f ys s').
Proof.
  revert s. induction xs as [| x xs IH]; intros s; simpl; [reflexivity |].
  destruct (f s x); simpl; auto.
Qed.

Lemma forEachM_invariant {A S} (f : S -> A -> outcome S) (P : S -> Prop) :
  (forall s x s', P s -> f s x = Ok s' -> P s') ->
  forall xs s s', P s -> forEachM f xs s = Ok s' -> P s'.
Proof.
  intros Hstep xs. induction xs as [| x xs IH]; intros s s' Hs Hrun; simpl in Hrun.
  - injection Hrun as <-. assumption.
  - apply obind_Ok in Hrun as (s1 & H1 & Hrest). eauto.
Qed.

(** A loop whose body, when it returns, leaves what [g] computes. *)
Lemma forEachM_Ok_foldl {A S} (f : S -> A -> outcome S) (g : S -> A -> S) xs s s' :
  (forall s x s', f s x = Ok s' -> s' = g s x) ->
  forEachM f xs s = Ok s' -> s' = foldl g s xs.
Proof.
  intros Hstep. revert s. induction xs as [| x xs IH]; intros s Hrun; simpl in *.
  - injection Hrun as <-. reflexivity.
  - apply obind_Ok in Hrun as (s1 & H1 & Hrest).
    apply Hstep in H1 as ->. apply IH, Hrest.
Qed.

Lemma forEachM_returns {A S} (f : S -> A -> outcome S) (g : S -> A -> S)
    (P : A -> Prop) xs s :
  (forall s x, P x -> f s x = Ok (g s x)) ->
  Forall P xs -> forEachM f xs s = Ok (foldl g s xs).
Proof.
  intros Hstep Hall. revert s. induction Hall as [| x xs Hx _ IH]; intros s; simpl.
  - reflexivity.
  - rewrite (Hstep _ _ Hx). simpl. apply IH.
Qed.

(** ** The extension map *)

Section MergeFacts.
Variable seed : string -> list string.
Variable extra : list string.
Implicit Types (m : gmap string (list string)) (exts : list string).

(** A list already in the map only grows. *)
Lemma merge_exts_mono m ext k l :
  m !! k = Some l ->
  exists l', merge_exts seed extra m ext !! k = Some l' /\ l ⊆ l'.
Proof.
  intros Hk. unfold merge_exts. destruct (decide (ext = k)) as [-> | Hne].
  - rewrite lookup_insert_eq, Hk. simpl. eexists. split; [reflexivity |].
    intros x Hx. apply elem_of_spread, elem_of_app. auto.
  - rewrite lookup_insert_ne by assumption. eauto.
Qed.

Lemma foldl_merge_exts_mono exts m k l :
  m !! k = Some l ->
  exists l', foldl (merge_exts seed extra) m exts !! k = Some l' /\ l ⊆ l'.
Proof.
  revert m l. induction exts as [| e exts IH]; intros m l Hk; simpl.
  - eauto.
  - destruct (merge_exts_mono m e k l Hk) as (l1 & H1 & Hsub1).
    destruct (IH _ _ H1) as (l2 & H2 & Hsub2).
    exists l2. split; [assumption |]. etransitivity; eassumption.
Qed.

(** Every key of the loop receives the whole of [extra]. *)
Lemma foldl_merge_exts_covers exts m k :
  k ∈ exts ->
  exists l, foldl (merge_exts seed extra) m exts !! k = Some l /\ extra ⊆ l.
Proof.
  revert m. induction exts as [| e exts IH]; intros m Hin; simpl.
  - apply elem_of_nil in Hin. contradiction.
  - destruct (decide (k ∈ exts)) as [Hlater | Hnot].
    + apply IH, Hlater.
    + apply elem_of_cons in Hin as [-> | ?]; [| contradiction].
      assert (exists l, merge_exts seed extra m e !! e = Some l /\ extra ⊆ l)
        as (l1 & H1 & Hsub1).
      { unfold merge_exts. rewrite lookup_insert_eq. eexists.
        split; [reflexivity |]. intros x Hx.
        apply elem_of_spread, elem_of_app. auto. }
      destruct (foldl_merge_exts_mono exts _ _ _ H1) as (l2 & H2 & Hsub2).
      exists l2. split; [assumption |]. etransitivity; eassumption.
Qed.

Lemma foldl_merge_exts_NoDup exts m :
  map_Forall (fun _ l => NoDup l) m ->
  map_Forall (fun _ l => NoDup l) (foldl (merge_exts seed extra) m exts).
Proof.
  revert m. induction exts as [| e exts IH]; intros m Hm; simpl; [assumption |].
  apply IH. unfold merge_exts. apply map_Forall_insert_2; [| assumption].
  apply NoDup_spread.
Qed.

(** The keys of the map are the old ones and those of the loop. *)
Lemma foldl_merge_exts_keys exts m k :
  is_Some (foldl (merge_exts seed extra) m exts !! k)
  <-> is_Some (m !! k) \/ k ∈ exts.
Proof.
  revert m. induction exts as [| e exts IH]; intros m; simpl.
  - rewrite elem_of_nil. tauto.
  - rewrite IH, elem_of_cons. unfold merge_exts.
    destruct (decide (e = k)) as [-> | Hne].
    + rewrite lookup_insert_eq. split; [auto | intros _; left; eauto].
    + rewrite lookup_insert_ne by assumption. split; [tauto |].
      intros [? | [-> | ?]]; [tauto | contradiction | tauto].
Qed.
End MergeFacts.

Section LoopBodyFacts.
Implicit Types (m : gmap string (list string)) (exts : list string).

Lemma js_get_Own {V} (o : gmap string V) k v :
  js_get o k = Own v <-> o !! k = Some v.
Proof.
  unfold js_get. destruct (o !! k) as [v' |].
  - split; intros [= ->]; reflexivity.
  - destruct (inherited k); split; discriminate.
Qed.

Lemma js_get_Inherited {V} (o : gmap string V) k :
  js_get o k = Inherited <-> o !! k = None /\ inherited k = true.
Proof.
  unfold js_get. destruct (o !! k) as [v' |].
  - split; [discriminate | intros [? _]; discriminate].
  - destruct (inherited k); split; try discriminate; auto.
    intros [_ ?]. discriminate.
Qed.

Lemma js_get_Missing {V} (o : gmap string V) k :
  js_get o k = Missing <-> o !! k = None /\ inherited k = false.
Proof.
  unfold js_get. destruct (o !! k) as [v' |].
  - split; [discriminate | intros [? _]; discriminate].
  - destruct (inherited k); split; try discriminate; auto.
    intros [_ ?]. discriminate.
Qed.

Lemma add_input_Ok outputs m ext m' :
  add_input outputs m ext = Ok m' ->
  m' = merge_exts (fun _ => []) outputs m ext
  /\ (m !! ext = None -> inherited ext = false).
Proof.
  unfold add_input, js_get, merge_exts. destruct (m !! ext) as [l |]; simpl.
  - intros [= <-]. split; [reflexivity | discriminate].
  - destruct (inherited ext); [discriminate |]. intros [= <-]. auto.
Qed.

Lemma add_output_Ok inputs m ext m' :
  add_output inputs m ext = Ok m' ->
  m' = merge_exts (fun ext => [ext]) inputs m ext
  /\ (m !! ext = None -> inherited ext = false).
Proof.
  unfold add_output, js_get, merge_exts. destruct (m !! ext) as [l |]; simpl.
  - intros [= <-]. split; [reflexivity | discriminate].
  - destruct (inherited ext); [discriminate |]. intros [= <-]. auto.
Qed.

Lemma add_input_returns outputs m ext :
  inherited ext = false ->
  add_input outputs m ext = Ok (merge_exts (fun _ => []) outputs m ext).
Proof.
  intros Hext. unfold add_input, js_get, merge_exts.
  destruct (m !! ext) as [l |]; simpl; [reflexivity |].
  rewrite Hext. reflexivity.
Qed.

Lemma add_output_returns inputs m ext :
  inherited ext = false ->
  add_output inputs m ext = Ok (merge_exts (fun ext => [ext]) inputs m ext).
Proof.
  intros Hext. unfold add_output, js_get, merge_exts.
  destruct (m !! ext) as [l |]; simpl; [reflexivity |].
  rewrite Hext. reflexivity.
Qed.

(** Neither loop body ends the process or raises anything but a
    [TypeError]. *)
Lemma add_input_outcome outputs m ext :
  (exists m', add_input outputs m ext = Ok m')
  \/ add_input outputs m ext = Throw TypeError.
Proof. unfold add_input. destruct (js_get m ext); eauto. Qed.

Lemma add_output_outcome inputs m ext :
  (exists m', add_output inputs m ext = Ok m')
  \/ add_output inputs m ext = Throw TypeError.
Proof. unfold add_output. destruct (js_get m ext); eauto. Qed.

Lemma forEachM_outcome {A S} (f : S -> A -> outcome S) xs s :
  (forall s x, (exists s', f s x = Ok s') \/ f s x = Throw TypeError) ->
  (exists s', forEachM f xs s = Ok s') \/ forEachM f xs s = Throw TypeError.
Proof.
  intros Hstep. revert s. induction xs as [| x xs IH]; intros s; simpl.
  - eauto.
  - destruct (Hstep s x) as [[s1 ->] | ->]; simpl; auto.
Qed.

(** A loop over keys that returns met no inherited name: such a name
    is no key before, the body raises on it, and the body makes no key
    but the one it is given. *)
Lemma forEachM_plain {V} (f : gmap string V -> string -> outcome (gmap string V))
    exts (obj obj' : gmap string V) :
  (forall (o : gmap string V) ext (o' : gmap string V), f o ext = Ok o' ->
     (o !! ext = None -> inherited ext = false)
     /\ (forall k, k <> ext -> o !! k = None -> o' !! k = None)) ->
  (forall k, inherited k = true -> obj !! k = None) ->
  forEachM f exts obj = Ok obj' ->
  Forall (fun ext => inherited ext = false) exts
  /\ (forall k, inherited k = true -> obj' !! k = None).
Proof.
  intros Hstep. revert obj. induction exts as [| e exts IH]; intros m Hm Hrun;
    simpl in Hrun.
  - injection Hrun as <-. split; [constructor | assumption].
  - apply obind_Ok in Hrun as (m1 & H1 & Hrest).
    apply Hstep in H1 as [Hplain Hframe].
    assert (inherited e = false) as He.
    { destruct (inherited e) eqn:Hinh; [| reflexivity].
      apply Hplain, Hm, Hinh. }
    assert (forall k, inherited k = true -> m1 !! k = None) as Hm1.
    { intros k Hk. apply Hframe; [intros ->; congruence | apply Hm, Hk]. }
    destruct (IH _ Hm1 Hrest) as [Hall Hm'].
    split; [constructor; assumption | assumption].
Qed.

Lemma add_input_frame outputs m ext m' :
  add_input outputs m ext = Ok m' ->
  (m !! ext = None -> inherited ext = false)
  /\ (forall k, k <> ext -> m !! k = None -> m' !! k = None).
Proof.
  intros Hrun. apply add_input_Ok in Hrun as [-> Hplain].
  split; [assumption |]. intros k Hne Hk. unfold merge_exts.
  rewrite lookup_insert_ne by congruence. assumption.
Qed.

Lemma add_output_frame inputs m ext m' :
  add_output inputs m ext = Ok m' ->
  (m !! ext = None -> inherited ext = false)
  /\ (forall k, k <> ext -> m !! k = None -> m' !! k = None).
Proof.
  intros Hrun. apply add_output_Ok in Hrun as [-> Hplain].
  split; [assumption |]. intros k Hne Hk. unfold merge_exts.
  rewrite lookup_insert_ne by congruence. assumption.
Qed.
End LoopBodyFacts.

Lemma foldl_merge_self_first inputs exts m :
  self_first m -> self_first (foldl (merge_exts (fun ext => [ext]) inputs) m exts).
Proof.
  revert m. induction exts as [| e exts IH]; intros m Hm; simpl; [assumption |].
  apply IH. intros k l. unfold merge_exts.
  destruct (decide (e = k)) as [-> | Hne].
  - rewrite lookup_insert_eq. intros [= <-].
    destruct (m !! k) as [l0 |] eqn:Hk; simpl.
    + destruct (Hm _ _ Hk) as [t ->]. apply spread_cons_head.
    + apply spread_cons_head.
  - rewrite lookup_insert_ne by assumption. apply Hm.
Qed.

Section ExtensionMapFacts.
Implicit Types (em : ExtensionMap) (p : SnowpackPlugin).

Lemma extMap_step_Ok em p em' :
  extMap_step em p = Ok em' -> em' = extMap_merge em p.
Proof.
  unfold extMap_step. intros Hrun.
  apply obind_Ok in Hrun as (input' & Hin & Hrun).
  apply obind_Ok in Hrun as (output' & Hout & Hrun).
  injection Hrun as <-. unfold extMap_merge. f_equal.
  - eapply forEachM_Ok_foldl; [| exact Hin].
    intros m x m' Hm. apply add_input_Ok in Hm. tauto.
  - eapply forEachM_Ok_foldl; [| exact Hout].
    intros m x m' Hm. apply add_output_Ok in Hm. tauto.
Qed.

Lemma extMap_step_returns em p :
  plain_exts p -> extMap_step em p = Ok (extMap_merge em p).
Proof.
  intros [Hin Hout]. unfold extMap_step.
  rewrite (forEachM_returns _ (merge_exts (fun _ => []) (toArray (output p)))
             (fun ext => inherited ext = false));
    [| intros; apply add_input_returns; assumption | assumption ].
  simpl.
  rewrite (forEachM_returns _ (merge_exts (fun ext => [ext]) (toArray (input p)))
             (fun ext => inherited ext = false));
    [| intros; apply add_output_returns; assumption | assumption ].
  reflexivity.
Qed.

Lemma extMap_step_outcome em p :
  (exists em', extMap_step em p = Ok em') \/ extMap_step em p = Throw TypeError.
Proof.
  unfold extMap_step.
  destruct (forEachM_outcome (add_input (toArray (output p))) (toArray (input p))
              (extMap_input em) (add_input_outcome _)) as [[m1 ->] | ->];
    simpl; [| auto].
  destruct (forEachM_outcome (add_output (toArray (input p))) (toArray (output p))
              (extMap_output em) (add_output_outcome _)) as [[m2 ->] | ->];
    simpl; eauto.
Qed.

Lemma extMap_step_plain em p em' :
  no_inherited_key em -> extMap_step em p = Ok em' ->
  plain_exts p /\ no_inherited_key em'.
Proof.
  unfold extMap_step. intros Hem Hrun.
  apply obind_Ok in Hrun as (input' & Hin & Hrun).
  apply obind_Ok in Hrun as (output' & Hout & Hrun).
  injection Hrun as <-.
  eapply forEachM_plain in Hin as [Hin Hin'];
    [| apply add_input_frame | intros k Hk; apply Hem, Hk ].
  eapply forEachM_plain in Hout as [Hout Hout'];
    [| apply add_output_frame | intros k Hk; apply Hem, Hk ].
  split; [split; assumption |]. intros k Hk. simpl. auto.
Qed.

Lemma createPluginExtensionMap_Ok ps em :
  createPluginExtensionMap ps = Ok em -> em = merged ps.
Proof.
  apply forEachM_Ok_foldl. apply extMap_step_Ok.
Qed.

Lemma createPluginExtensionMap_returns ps :
  Forall plain_exts ps -> createPluginExtensionMap ps = Ok (merged ps).
Proof.
  apply forEachM_returns. intros em p. apply extMap_step_returns.
Qed.

Lemma createPluginExtensionMap_plain ps em :
  createPluginExtensionMap ps = Ok em -> Forall plain_exts ps.
Proof.
  unfold createPluginExtensionMap.
  assert (no_inherited_key extMap_empty) as Hinit.
  { intros k _. simpl. rewrite !lookup_empty. auto. }
  revert Hinit. generalize extMap_empty.
  induction ps as [| p ps IH]; intros em0 Hem0 Hrun; simpl in Hrun.
  - constructor.
  - apply obind_Ok in Hrun as (em1 & H1 & Hrest).
    destruct (extMap_step_plain _ _ _ Hem0 H1) as [Hp Hem1].
    constructor; [assumption |]. eapply IH; eassumption.
Qed.

Lemma createPluginExtensionMap_outcome ps :
  (exists em, createPluginExtensionMap ps = Ok em)
  \/ createPluginExtensionMap ps = Throw TypeError.
Proof. apply forEachM_outcome, extMap_step_outcome. Qed.

Lemma merged_snoc ps p : merged (ps ++ [p]) = extMap_merge (merged ps) p.
Proof. unfold merged. rewrite foldl_app. reflexivity. Qed.

Lemma extMap_merge_input_mono em p k l :
  extMap_input em !! k = Some l ->
  exists l', extMap_input (extMap_merge em p) !! k = Some l' /\ l ⊆ l'.
Proof. intros Hk. simpl. apply foldl_merge_exts_mono, Hk. Qed.

Lemma extMap_merge_output_mono em p k l :
  extMap_output em !! k = Some l ->
  exists l', extMap_output (extMap_merge em p) !! k = Some l' /\ l ⊆ l'.
Proof. intros Hk. simpl. apply foldl_merge_exts_mono, Hk. Qed.

Lemma extMap_merge_covers em p i o :
  i ∈ toArray (input p) -> o ∈ toArray (output p) ->
  (exists outs, extMap_input (extMap_merge em p) !! i = Some outs /\ o ∈ outs)
  /\ (exists ins, extMap_output (extMap_merge em p) !! o = Some ins /\ i ∈ ins).
Proof.
  intros Hi Ho. simpl. split.
  - destruct (foldl_merge_exts_covers (fun _ => []) (toArray (output p))
                (toArray (input p)) (extMap_input em) i Hi) as (l & Hl & Hsub).
    exists l. split; [assumption | apply Hsub, Ho].
  - destruct (foldl_merge_exts_covers (fun ext => [ext]) (toArray (input p))
                (toArray (output p)) (extMap_output em) o Ho) as (l & Hl & Hsub).
    exists l. split; [assumption | apply Hsub, Hi].
Qed.

Lemma merged_NoDup ps :
  map_Forall (fun _ l => NoDup l) (extMap_input (merged ps))
  /\ map_Forall (fun _ l => NoDup l) (extMap_output (merged ps)).
Proof.
  induction ps as [| p ps [IHi IHo]] using rev_ind.
  - split; apply map_Forall_empty.
  - rewrite merged_snoc. simpl. split.
    + apply foldl_merge_exts_NoDup, IHi.
    + apply foldl_merge_exts_NoDup, IHo.
Qed.

Lemma merged_self_first ps : self_first (extMap_output (merged ps)).
Proof.
  induction ps as [| p ps IH] using rev_ind.
  - intros k l Hk. simpl in Hk. rewrite lookup_empty in Hk. discriminate.
  - rewrite merged_snoc. simpl. apply foldl_merge_self_first, IH.
Qed.

Lemma merged_pairs ps p i o :
  p ∈ ps -> i ∈ toArray (input p) -> o ∈ toArray (output p) ->
  (exists outs, extMap_input (merged ps) !! i = Some outs /\ o ∈ outs)
  /\ (exists ins, extMap_output (merged ps) !! o = Some ins /\ i ∈ ins).
Proof.
  intros Hp Hi Ho. induction ps as [| q ps IH] using rev_ind.
  - apply elem_of_nil in Hp. contradiction.
  - rewrite merged_snoc.
    apply elem_of_app in Hp as [Hp | Hp].
    + destruct (IH Hp) as [(outs & Houts & Hin1) (ins & Hins & Hin2)].
      destruct (extMap_merge_input_mono _ q _ _ Houts) as (outs' & ? & Hsub1).
      destruct (extMap_merge_output_mono _ q _ _ Hins) as (ins' & ? & Hsub2).
      split; [exists outs' | exists ins']; auto.
    + apply list_elem_of_singleton in Hp as ->.
      apply extMap_merge_covers; assumption.
Qed.

(** The keys of either side are the extensions the plugins declare. *)
Lemma merged_keys ps k :
  (is_Some (extMap_input (merged ps) !! k)
   <-> exists p, p ∈ ps /\ k ∈ toArray (input p))
  /\ (is_Some (extMap_output (merged ps) !! k)
      <-> exists p, p ∈ ps /\ k ∈ toArray (output p)).
Proof.
  induction ps as [| q ps [IHi IHo]] using rev_ind.
  - simpl. rewrite lookup_empty. split; (split; [intros [? [=]] |]);
      intros (p & Hp & _); apply elem_of_nil in Hp; contradiction.
  - rewrite merged_snoc. simpl. rewrite !foldl_merge_exts_keys, IHi, IHo.
    split; (split; [intros [(p & Hp & Hk) | Hk] | intros (p & Hp & Hk)]).
    + exists p. split; [apply elem_of_app; auto | assumption].
    + exists q. split; [apply elem_of_app; right; apply list_elem_of_here | assumption].
    + apply elem_of_app in Hp as [Hp | Hp]; [left; eauto |].
      apply list_elem_of_singleton in Hp as ->. auto.
    + exists p. split; [apply elem_of_app; auto | assumption].
    + exists q. split; [apply elem_of_app; right; apply list_elem_of_here | assumption].
    + apply elem_of_app in Hp as [Hp | Hp]; [left; eauto |].
      apply list_elem_of_singleton in Hp as ->. auto.
Qed.
End ExtensionMapFacts.

(** C1, as amended. For every list of plugins none of whose extensions
    is the name of a member of [Object.prototype], [createPluginExtensionMap]
    returns a map; on any other list it raises a [TypeError]. The map it
    returns relates every input extension [i] of every plugin to every
    output extension [o] of the same plugin, in both directions ([o] is
    in [input[i]] and [i] is in [output[o]]), and no list of either side
    holds an extension twice. *)
Theorem createPluginExtensionMap_cross_product (ps : list SnowpackPlugin) :
  (Forall plain_exts ps -> exists extMap, createPluginExtensionMap ps = Ok extMap)
  /\ (~ Forall plain_exts ps -> createPluginExtensionMap ps = Throw TypeError)
  /\ (forall extMap,
        createPluginExtensionMap ps = Ok extMap ->
        (forall p i o,
            p ∈ ps -> i ∈ toArray (input p) -> o ∈ toArray (output p) ->
            (exists outs, extMap_input extMap !! i = Some outs /\ o ∈ outs)
            /\ (exists ins, extMap_output extMap !! o = Some ins /\ i ∈ ins))
        /\ (forall k l, extMap_input extMap !! k = Some l -> NoDup l)
        /\ (forall k l, extMap_output extMap !! k = Some l -> NoDup l)).
Proof.
  split; [| split].
  - intros Hplain. eexists. apply createPluginExtensionMap_returns, Hplain.
  - intros Hnot. destruct (createPluginExtensionMap_outcome ps) as [[em Hem] | ?];
      [| assumption].
    apply createPluginExtensionMap_plain in Hem. contradiction.
  - intros extMap Hrun. apply createPluginExtensionMap_Ok in Hrun as ->.
    split; [| split].
    + intros p i o. apply merged_pairs.
    + intros k l. apply (proj1 (merged_NoDup ps)).
    + intros k l. apply (proj2 (merged_NoDup ps)).
Qed.

Lemma createPluginExtensionMap_cross_product_witness :
  exists extMap,
    createPluginExtensionMap [Demo.svelte_plugin; Demo.sass_plugin] = Ok extMap
    /\ (exists outs, extMap_input extMap !! ".svelte" = Some outs /\ ".css" ∈ outs)
    /\ (exists ins, extMap_output extMap !! ".css" = Some ins /\ ".svelte" ∈ ins).
Proof.
  assert (Forall plain_exts [Demo.svelte_plugin; Demo.sass_plugin]) as Hplain.
  { repeat constructor. }
  destruct (proj1 (createPluginExtensionMap_cross_product
                     [Demo.svelte_plugin; Demo.sass_plugin]) Hplain)
    as [extMap Hrun].
  exists extMap. split; [exact Hrun |].
  apply (proj1 (proj2 (proj2 (createPluginExtensionMap_cross_product
                                [Demo.svelte_plugin; Demo.sass_plugin]))
                  extMap Hrun) Demo.svelte_plugin).
  - apply list_elem_of_here.
  - simpl. apply list_elem_of_here.
  - simpl. apply list_elem_of_further, list_elem_of_here.
Defined.

(** C1, as stated, fails: no map is returned for a plugin whose input
    is [constructor]. Line 172 finds [Object.prototype.constructor]
    under that name and line 173 spreads it. A build script
    [build:constructor] makes such a plugin. *)
Lemma createPluginExtensionMap_raises_on_inherited_name :
  createPluginExtensionMap
    [{| name := "tool"; input := OneExt "constructor"; output := OneExt ".js";
        defaultBuildScript := None |}] = Throw TypeError
  /\ (loaded <-- loadPlugins (Demo.host ["tool"] [])
                   (Demo.mk_config [("build:constructor", "tool")]) ;;
      createPluginExtensionMap (plugins loaded)) = Throw TypeError.
Proof. split; vm_compute; reflexivity. Qed.

(** ** [urlToFile] *)

Section UrlToFileFacts.
Variable H : Host.
Variables url cwd : string.

Lemma try_exts_lookups dir exts r :
  exists tried,
    lookups (try_exts H url cwd dir exts r) = lookups r ++ tried.
Proof.
  revert r. induction exts as [| e exts IH]; intros r; simpl.
  - exists []. rewrite app_nil_r. reflexivity.
  - destruct (existsSync H _); simpl.
    + eexists. reflexivity.
    + destruct (IH {| locOnDisk := locOnDisk r;
                      lookups := lookups r
                                 ++ [path_join H cwd dir (replaceExt H url e)] |})
        as [tried ->]. simpl.
      exists (path_join H cwd dir (replaceExt H url e) :: tried).
      rewrite <- app_assoc. reflexivity.
Qed.

(** The first extension of the list is the first path tried. *)
Lemma try_exts_first dir e exts r :
  exists rest,
    lookups (try_exts H url cwd (fst dir) (e :: exts) r)
    = lookups r ++ locationAttempt H url cwd dir e :: rest.
Proof.
  simpl. fold (locationAttempt H url cwd dir e).
  destruct (existsSync H _); simpl.
  - exists []. reflexivity.
  - destruct (try_exts_lookups (fst dir) exts
                {| locOnDisk := locOnDisk r;
                   lookups := lookups r ++ [locationAttempt H url cwd dir e] |})
      as [tried ->]. simpl.
    exists tried. rewrite <- app_assoc. reflexivity.
Qed.

Lemma try_exts_found_ok dir exts r :
  found_ok H r -> found_ok H (try_exts H url cwd dir exts r).
Proof.
  revert r. induction exts as [| e exts IH]; intros r Hr; simpl; [assumption |].
  destruct (existsSync H (path_join H cwd dir (replaceExt H url e))) eqn:Hex.
  - split; simpl.
    + intros p [= <-]. split; [| assumption].
      apply elem_of_app. right. apply list_elem_of_here.
    + discriminate.
  - apply IH. destruct Hr as [Hsome Hnone]. split; simpl.
    + intros p Hp. destruct (Hsome p Hp) as [Hin Hp']. split; [| assumption].
      apply elem_of_app. auto.
    + intros Hloc p Hin. apply elem_of_app in Hin as [Hin | Hin].
      * apply Hnone; assumption.
      * apply list_elem_of_singleton in Hin as ->. assumption.
Qed.

Lemma mount_lookup_step_found_ok extMap r dir r' :
  found_ok H r -> mount_lookup_step H extMap url cwd r dir = Ok r' ->
  found_ok H r'.
Proof.
  unfold mount_lookup_step. intros Hr.
  destruct (extMap_output extMap !! _) as [exts |]; [| discriminate].
  intros [= <-]. apply try_exts_found_ok, Hr.
Qed.

Lemma mount_lookups_same_named_first extMap dirs :
  self_first (extMap_output extMap) ->
  forall r r',
    forEachM (mount_lookup_step H extMap url cwd) dirs r = Ok r' ->
    exists attempts,
      lookups r' = lookups r ++ concat attempts
      /\ Forall2 (fun dir tried =>
                    exists rest,
                      tried = locationAttempt H url cwd dir
                                (lookupKey (getExt H url)) :: rest)
                 dirs attempts.
Proof.
  intros Hself. induction dirs as [| dir dirs IH]; intros r r' Hrun; simpl in Hrun.
  - injection Hrun as <-. exists []. split; [| constructor].
    simpl. rewrite app_nil_r. reflexivity.
  - apply obind_Ok in Hrun as (r1 & Hstep & Hrest).
    unfold mount_lookup_step in Hstep.
    destruct (extMap_output extMap !! lookupKey (getExt H url))
      as [exts |] eqn:Hkey; [| discriminate].
    injection Hstep as <-.
    destruct (Hself _ _ Hkey) as [t ->].
    destruct (IH _ _ Hrest) as (attempts & Hlook & Hall).
    destruct (try_exts_first dir (lookupKey (getExt H url)) t r) as [rest Hfirst].
    exists ((locationAttempt H url cwd dir (lookupKey (getExt H url)) :: rest)
            :: attempts).
    split.
    + rewrite Hlook, Hfirst. simpl. rewrite <- app_assoc. reflexivity.
    + constructor; eauto.
Qed.
End UrlToFileFacts.

Lemma urlToFile_Ok H url config cwd r :
  urlToFile H url config cwd = Ok r ->
  exists loaded mounted,
    loadPlugins H config = Ok loaded
    /\ getMountedDirs H config = Ok mounted
    /\ createPluginExtensionMap (plugins loaded) = Ok (merged (plugins loaded))
    /\ forEachM (mount_lookup_step H (merged (plugins loaded)) url cwd)
         (possibleDirs url mounted) {| locOnDisk := None; lookups := [] |} = Ok r.
Proof.
  unfold urlToFile. intros Hrun.
  apply obind_Ok in Hrun as (loaded & Hload & Hrun).
  apply obind_Ok in Hrun as (mounted & Hmount & Hrun).
  apply obind_Ok in Hrun as (extMap & Hmap & Hrun).
  pose proof (createPluginExtensionMap_Ok _ _ Hmap) as ->.
  exists loaded, mounted. auto.
Qed.

Lemma merged_output_key ps p o :
  p ∈ ps -> o ∈ toArray (output p) ->
  exists t, extMap_output (merged ps) !! o = Some (o :: t).
Proof.
  intros Hp Ho.
  assert (is_Some (extMap_output (merged ps) !! o)) as [l Hl].
  { apply merged_keys. eauto. }
  destruct (merged_self_first ps _ _ Hl) as [t ->]. eauto.
Qed.

(** With the configuration loaded, the map built and the lookup
    extension among the keys of its output side, [urlToFile] returns. *)
Lemma urlToFile_returns H url config cwd loaded mounted extMap exts :
  loadPlugins H config = Ok loaded ->
  getMountedDirs H config = Ok mounted ->
  createPluginExtensionMap (plugins loaded) = Ok extMap ->
  extMap_output extMap !! lookupKey (getExt H url) = Some exts ->
  exists r, urlToFile H url config cwd = Ok r.
Proof.
  intros Hload Hmount Hmap Hkey. unfold urlToFile. rewrite Hload, Hmount. simpl.
  change (forEachM extMap_step (plugins loaded) extMap_empty)
    with (createPluginExtensionMap (plugins loaded)).
  rewrite Hmap. simpl.
  generalize {| locOnDisk := None; lookups := [] |}.
  induction (possibleDirs url mounted) as [| dir dirs IH]; intros r; simpl.
  - eauto.
  - unfold mount_lookup_step at 1. rewrite Hkey. simpl. apply IH.
Qed.

(** C9, as amended. For every plugin list on which the extension map is
    built, as it is when no extension of a plugin is the name of a
    member of [Object.prototype], the list derived for an extension [o]
    that some plugin declares as an output starts with [o] itself; and
    so, when the configuration loads, no extension of a loaded plugin is
    such a name and the lookup extension of the URL is an output of a
    loaded plugin, [urlToFile] returns, and whenever it returns, the
    paths it tried are, mount entry by matching mount entry, a list
    whose first path is the same-named file (the URL with its own lookup
    extension). *)
Theorem output_self_first_same_named_first :
  (forall ps,
      Forall plain_exts ps ->
      exists extMap, createPluginExtensionMap ps = Ok extMap)
  /\ (forall ps extMap p o,
        createPluginExtensionMap ps = Ok extMap ->
        p ∈ ps -> o ∈ toArray (output p) ->
        exists t, extMap_output extMap !! o = Some (o :: t))
  /\ (forall H url config cwd loaded mounted p,
        loadPlugins H config = Ok loaded ->
        getMountedDirs H config = Ok mounted ->
        Forall plain_exts (plugins loaded) ->
        p ∈ plugins loaded ->
        lookupKey (getExt H url) ∈ toArray (output p) ->
        exists r, urlToFile H url config cwd = Ok r)
  /\ (forall H url config cwd r,
        urlToFile H url config cwd = Ok r ->
        exists mounted attempts,
          getMountedDirs H config = Ok mounted
          /\ lookups r = concat attempts
          /\ Forall2 (fun dir tried =>
                        exists rest,
                          tried = locationAttempt H url cwd dir
                                    (lookupKey (getExt H url)) :: rest)
                     (possibleDirs url mounted) attempts).
Proof.
  split; [| split; [| split]].
  - intros ps Hplain. eexists. apply createPluginExtensionMap_returns, Hplain.
  - intros ps extMap p o Hmap. apply createPluginExtensionMap_Ok in Hmap as ->.
    apply merged_output_key.
  - intros H url config cwd loaded mounted p Hload Hmount Hplain Hp Hout.
    destruct (merged_output_key _ _ _ Hp Hout) as [t Hkey].
    eapply urlToFile_returns; try eassumption.
    apply createPluginExtensionMap_returns, Hplain.
  - intros H url config cwd r Hrun.
    apply urlToFile_Ok in Hrun as (loaded & mounted & _ & Hmount & _ & Hrun).
    destruct (mount_lookups_same_named_first H url cwd _ _
                (merged_self_first (plugins loaded)) _ _ Hrun)
      as (attempts & Hlook & Hall).
    exists mounted, attempts. auto.
Qed.

(** C10. Whenever [urlToFile] returns a location, that path is one of
    the returned [lookups] and exists on disk; whenever it returns none,
    no path of [lookups] exists on disk. *)
Theorem urlToFile_found_ok H url config cwd r :
  urlToFile H url config cwd = Ok r ->
  (forall p, locOnDisk r = Some p -> p ∈ lookups r /\ existsSync H p = true)
  /\ (locOnDisk r = None -> forall p, p ∈ lookups r -> existsSync H p = false).
Proof.
  intros Hrun.
  apply urlToFile_Ok in Hrun as (loaded & mounted & _ & _ & _ & Hrun).
  apply (forEachM_invariant _ (found_ok H)
           (fun s d s' => mount_lookup_step_found_ok H url cwd _ s d s')
           _ _ _) in Hrun; [exact Hrun |].
  split; simpl; [discriminate |]. intros _ p Hp.
  apply elem_of_nil in Hp. contradiction.
Qed.

Lemma output_self_first_same_named_first_witness :
  (exists extMap,
      createPluginExtensionMap [Demo.svelte_plugin; Demo.sass_plugin] = Ok extMap)
  /\ (exists t,
         extMap_output (merged [Demo.svelte_plugin; Demo.sass_plugin])
           !! ".css" = Some (".css" :: t))
  /\ (exists r,
         urlToFile Demo.sass_host "/dist/app.css" Demo.sass_config "/proj" = Ok r)
  /\ (exists mounted attempts,
         getMountedDirs Demo.sass_host Demo.sass_config = Ok mounted
         /\ ["/proj/dist/dist/app.css"; "/proj/dist/dist/app.scss"] = concat attempts
         /\ Forall2 (fun dir tried =>
                       exists rest,
                         tried = locationAttempt Demo.sass_host "/dist/app.css" "/proj"
                                   dir ".css" :: rest)
                    (possibleDirs "/dist/app.css" mounted) attempts).
Proof.
  split; [| split; [| split]].
  - apply (proj1 output_self_first_same_named_first
             [Demo.svelte_plugin; Demo.sass_plugin]).
    repeat constructor.
  - apply (proj1 (proj2 output_self_first_same_named_first)
             [Demo.svelte_plugin; Demo.sass_plugin]
             (merged [Demo.svelte_plugin; Demo.sass_plugin])
             Demo.sass_plugin ".css").
    + vm_compute. reflexivity.
    + apply list_elem_of_further, list_elem_of_here.
    + simpl. apply list_elem_of_here.
  - apply (proj1 (proj2 (proj2 output_self_first_same_named_first))
             Demo.sass_host "/dist/app.css" Demo.sass_config "/proj"
             {| plugins := [set_exts [".css"; ".scss"]
                              (set_name "sass-plugin" Demo.bare_plugin)];
                bundler := None; runCommands := []; buildCommands := ∅;
                buildCommands_proto := None |}
             [("dist/", "/dist/")]
             (set_exts [".css"; ".scss"] (set_name "sass-plugin" Demo.bare_plugin))).
    + vm_compute. reflexivity.
    + vm_compute. reflexivity.
    + repeat constructor.
    + simpl. apply list_elem_of_here.
    + simpl. apply list_elem_of_here.
  - apply (proj2 (proj2 (proj2 output_self_first_same_named_first))
             Demo.sass_host "/dist/app.css" Demo.sass_config "/proj"
             {| locOnDisk := Some "/proj/dist/dist/app.scss";
                lookups := ["/proj/dist/dist/app.css"; "/proj/dist/dist/app.scss"] |}).
    vm_compute. reflexivity.
Defined.

(** C9, as stated, fails. A build script [build:constructor,.css]
    registers a plugin whose outputs are [constructor] and [.css]. With
    [dist] mounted at [/dist/] and [/dist/app.css] requested, [.css] is
    an output of the loaded plugin and one mount entry matches; building
    the map raises at [constructor], and [urlToFile] tries no path. *)
Lemma urlToFile_inherited_name_no_attempt :
  (loaded <-- loadPlugins Demo.sass_host Demo.odd_config ;;
   Ok (map output (plugins loaded))) = Ok [ManyExts ["constructor"; ".css"]]
  /\ (mounted <-- getMountedDirs Demo.sass_host Demo.odd_config ;;
      Ok (possibleDirs "/dist/app.css" mounted)) = Ok [("dist/", "/dist/")]
  /\ lookupKey (Demo.fileExt "/dist/app.css") = ".css"
  /\ (loaded <-- loadPlugins Demo.sass_host Demo.odd_config ;;
      createPluginExtensionMap (plugins loaded)) = Throw TypeError
  /\ urlToFile Demo.sass_host "/dist/app.css" Demo.odd_config "/proj"
     = Throw TypeError.
Proof. repeat split; vm_compute; reflexivity. Qed.

Lemma urlToFile_found_ok_witness :
  urlToFile Demo.sass_host "/dist/app.css" Demo.sass_config "/proj"
  = Ok {| locOnDisk := Some "/proj/dist/dist/app.scss";
          lookups := ["/proj/dist/dist/app.css"; "/proj/dist/dist/app.scss"] |}
  /\ "/proj/dist/dist/app.scss"
       ∈ ["/proj/dist/dist/app.css"; "/proj/dist/dist/app.scss"]
  /\ existsSync Demo.sass_host "/proj/dist/dist/app.scss" = true.
Proof.
  assert (Hrun : urlToFile Demo.sass_host "/dist/app.css" Demo.sass_config "/proj"
                 = Ok {| locOnDisk := Some "/proj/dist/dist/app.scss";
                         lookups := ["/proj/dist/dist/app.css";
                                     "/proj/dist/dist/app.scss"] |})
    by (vm_compute; reflexivity).
  split; [exact Hrun |].
  apply (proj1 (urlToFile_found_ok _ _ _ _ _ Hrun) "/proj/dist/dist/app.scss").
  reflexivity.
Defined.

(** X3. What the two loops leave in [locOnDisk]: the last tried path that
    exists, since [break] leaves only the inner loop and a later mount
    entry overwrites an earlier hit. *)
Lemma urlToFile_locOnDisk_last H url config cwd r :
  urlToFile H url config cwd = Ok r ->
  locOnDisk r = last (List.filter (existsSync H) (lookups r)).
Proof.
  intros Hrun.
  apply urlToFile_Ok in Hrun as (loaded & mounted & _ & _ & _ & Hrun).
  revert Hrun.
  apply (forEachM_invariant _
           (fun r => locOnDisk r = last (List.filter (existsSync H) (lookups r))));
    [| reflexivity].
  intros s dir s' Hs. unfold mount_lookup_step.
  destruct (extMap_output _ !! _) as [exts |]; [| discriminate].
  intros [= <-]. revert s Hs.
  induction exts as [| e exts IH]; intros s Hs; simpl; [assumption |].
  destruct (existsSync H (path_join H cwd dir.1 (replaceExt H url e))) eqn:Hex.
  - simpl. rewrite List.filter_app. simpl. rewrite Hex.
    rewrite last_snoc. reflexivity.
  - apply IH. simpl. rewrite List.filter_app. simpl. rewrite Hex.
    rewrite app_nil_r. assumption.
Qed.

(** With a matching mount entry and a lookup extension that no plugin
    outputs, the loop iterates [undefined]. *)
Lemma urlToFile_unmapped H url config cwd loaded mounted extMap :
  loadPlugins H config = Ok loaded ->
  getMountedDirs H config = Ok mounted ->
  createPluginExtensionMap (plugins loaded) = Ok extMap ->
  possibleDirs url mounted <> [] ->
  extMap_output extMap !! lookupKey (getExt H url) = None ->
  urlToFile H url config cwd = Throw TypeError.
Proof.
  intros Hload Hmount Hmap Hdirs Hkey. unfold urlToFile.
  rewrite Hload, Hmount. simpl.
  change (forEachM extMap_step (plugins loaded) extMap_empty)
    with (createPluginExtensionMap (plugins loaded)).
  rewrite Hmap. simpl.
  destruct (possibleDirs url mounted) as [| dir dirs]; [contradiction |].
  simpl. unfold mount_lookup_step. rewrite Hkey. reflexivity.
Qed.

(** C2. The specification expects the lookup to fall back to the
    extension itself when no plugin outputs it. Here [dist] is mounted at [/dist/],
    no plugin is registered and [/dist/logo.png] is requested: [.png] is
    not a key of the output side, one mount entry matches, and
    [urlToFile] raises a [TypeError] without trying any path. *)
Theorem urlToFile_unmapped_extension_raises :
  (extMap <-- createPluginExtensionMap [] ;;
   Ok (extMap_output extMap !! ".png")) = Ok None
  /\ lookupKey (Demo.fileExt "/dist/logo.png") = ".png"
  /\ (mounted <-- getMountedDirs Demo.logo_host Demo.mount_only_config ;;
      Ok (possibleDirs "/dist/logo.png" mounted)) = Ok [("dist/", "/dist/")]
  /\ urlToFile Demo.logo_host "/dist/logo.png" Demo.mount_only_config "/proj"
     = Throw TypeError.
Proof. repeat split; vm_compute; reflexivity. Qed.

(** C4. The specification expects the first tried path that exists.
    Here [public] is mounted at [/] and [src] at [/dist/], [app.css] exists
    under both, and [/dist/app.css] is requested: both paths are tried
    and recorded, the first one that exists is the one under [public],
    and [urlToFile] returns the one under [src]. *)
Theorem urlToFile_later_mount_overrides :
  urlToFile Demo.two_mounts_host "/dist/app.css" Demo.two_mounts_config "/proj"
  = Ok {| locOnDisk := Some "/proj/src/dist/app.css";
          lookups := ["/proj/public/dist/app.css"; "/proj/src/dist/app.css"] |}
  /\ List.find (existsSync Demo.two_mounts_host)
       ["/proj/public/dist/app.css"; "/proj/src/dist/app.css"]
     = Some "/proj/public/dist/app.css".
Proof. split; vm_compute; reflexivity. Qed.

(** The example of the specification does hold: with [dist] mounted at
    [/dist/], [output[".css"] = [".css", ".scss"]] and only [app.scss] on disk,
    the [.scss] file is returned and both attempts are recorded. *)
Lemma urlToFile_scss_example :
  (loaded <-- loadPlugins Demo.sass_host Demo.sass_config ;;
   extMap <-- createPluginExtensionMap (plugins loaded) ;;
   Ok (extMap_output extMap !! ".css"))
  = Ok (Some [".css"; ".scss"])
  /\ urlToFile Demo.sass_host "/dist/app.css" Demo.sass_config "/proj"
     = Ok {| locOnDisk := Some "/proj/dist/dist/app.scss";
             lookups := ["/proj/dist/dist/app.css"; "/proj/dist/dist/app.scss"] |}.
Proof. split; vm_compute; reflexivity. Qed.

(** ** [parseScript] *)

(** The dot the template puts in front is the dot [replace] removes. *)
Lemma normalizeExt_trim ext : normalizeExt ext = JsString.trim ext.
Proof. reflexivity. Qed.

Lemma parseScript_NoDup script scriptType extensions :
  parseScript script = Ok (scriptType, extensions) -> NoDup extensions.
Proof.
  unfold parseScript.
  destruct (JsString.split ":" (JsString.toLowerCase script)) as [| t [| e rest]];
    try discriminate.
  intros [= _ <-]. apply NoDup_spread.
Qed.

(** C7. The specification expects every extension of a [build:<extensions>]
    script id to be recorded with its dot, as the comment on
    [parseScript] promises. For the id [build:js,jsx,js] the duplicate is
    removed, and the extensions recorded are [js] and [jsx], without a
    dot; they are also the keys of [buildCommands] when the command is
    not a plugin. *)
Theorem parseScript_drops_the_dot :
  parseScript "build:js,jsx,js" = Ok ("build", ["js"; "jsx"])
  /\ Forall (fun ext => JsString.startsWith ext "." = false) ["js"; "jsx"]
  /\ (loaded <-- loadPlugins Demo.plain_host
                   (Demo.mk_config [("build:js,jsx,js", "babel --quiet")]) ;;
      Ok (buildCommands loaded !! "js", buildCommands loaded !! ".js"))
     = Ok (Some {| RunCmd_id := "build:js,jsx,js"; RunCmd_cmd := "babel --quiet" |},
           None).
Proof.
  split; [reflexivity | split; [repeat constructor | vm_compute; reflexivity]].
Qed.

(** ** [loadPlugins] *)

Section ScriptPluginFacts.
Variable H : Host.

Lemma obj_get_snoc {V} (o : list (string * V)) k v k' :
  is_Some (obj_get o k') -> is_Some (obj_get (o ++ [(k, v)]) k').
Proof.
  induction o as [| [k0 v0] o IH]; simpl.
  - intros [? ?]. discriminate.
  - destruct (String.eqb k0 k'); [eauto | exact IH].
Qed.

Lemma obj_get_snoc_same {V} (o : list (string * V)) k v :
  is_Some (obj_get (o ++ [(k, v)]) k).
Proof.
  induction o as [| [k0 v0] o IH]; simpl.
  - rewrite String.eqb_refl. eauto.
  - destruct (String.eqb k0 k); [eauto | exact IH].
Qed.

(** A registered script plugin stays registered. *)
Lemma script_step_keeps st entry st' n :
  script_step H st entry = Ok st' ->
  is_Some (obj_get (st_scriptPlugins st) n) ->
  is_Some (obj_get (st_scriptPlugins st') n).
Proof.
  destruct entry as [target cmd]. unfold script_step.
  destruct (parseScript target) as [[t exts] | |]; simpl; try discriminate.
  destruct (String.eqb t "run"); [intros [= <-]; auto |].
  destruct (String.eqb t "build").
  { destruct (requireScript H cmd).
    - destruct (obj_has (st_scriptPlugins st) cmd); [discriminate |].
      intros [= <-]. simpl. apply obj_get_snoc.
    - intros [= <-]. auto. }
  destruct (String.eqb t "bundle").
  - destruct (requireScript H cmd); [| discriminate]. intros [= <-]. auto.
  - intros [= <-]. auto.
Qed.

Lemma obj_has_own {V} (o : list (string * V)) k :
  is_Some (obj_get o k) -> obj_has o k = true.
Proof. unfold obj_has. intros [v ->]. reflexivity. Qed.

Lemma scripts_loop_keeps scripts st st' n :
  forEachM (script_step H) scripts st = Ok st' ->
  is_Some (obj_get (st_scriptPlugins st) n) ->
  is_Some (obj_get (st_scriptPlugins st') n).
Proof.
  revert st. induction scripts as [| e scripts IH]; intros st Hrun Hn; simpl in Hrun.
  - injection Hrun as <-. assumption.
  - apply obind_Ok in Hrun as (st1 & Hstep & Hrest).
    eapply IH; [eassumption |]. eapply script_step_keeps; eassumption.
Qed.

(** A build script whose command loads as a plugin registers it, or
    raises when it is registered already. *)
Lemma build_step_registers st target cmd p :
  is_build_script target = true ->
  requireScript H cmd = Some p ->
  match script_step H st (target, cmd) with
  | Ok st' =>
      obj_has (st_scriptPlugins st) cmd = false
      /\ is_Some (obj_get (st_scriptPlugins st') cmd)
  | Exit _ => False
  | Throw e => e = TypeError /\ obj_has (st_scriptPlugins st) cmd = true
  end.
Proof.
  unfold is_build_script, script_step. intros Hbuild Hload.
  destruct (parseScript target) as [[t exts] | |]; try discriminate.
  apply String.eqb_eq in Hbuild as ->. simpl. rewrite Hload.
  destruct (obj_has (st_scriptPlugins st) cmd) eqn:Hget; simpl.
  - eauto.
  - split; [reflexivity | apply obj_get_snoc_same].
Qed.

(** Two build scripts that load the same plugin: [loadPlugins] never
    returns. *)
Lemma loadPlugins_same_plugin_twice config before target1 between target2 after cmd p :
  config_scripts config
  = before ++ (target1, cmd) :: between ++ (target2, cmd) :: after ->
  is_build_script target1 = true ->
  is_build_script target2 = true ->
  requireScript H cmd = Some p ->
  forall r, loadPlugins H config <> Ok r.
Proof.
  intros Hscripts Hb1 Hb2 Hload r Hrun. unfold loadPlugins in Hrun.
  apply obind_Ok in Hrun as (st & Hloop & _).
  rewrite Hscripts, forEachM_app in Hloop.
  apply obind_Ok in Hloop as (st0 & _ & Hloop). cbn [forEachM] in Hloop.
  apply obind_Ok in Hloop as (st1 & Hstep1 & Hloop).
  rewrite forEachM_app in Hloop.
  apply obind_Ok in Hloop as (st2 & Hbetween & Hloop). cbn [forEachM] in Hloop.
  apply obind_Ok in Hloop as (st3 & Hstep2 & _).
  pose proof (build_step_registers st0 target1 cmd p Hb1 Hload) as H1.
  rewrite Hstep1 in H1. destruct H1 as [_ Hreg].
  pose proof (scripts_loop_keeps _ _ _ _ Hbetween Hreg) as Hreg2.
  pose proof (build_step_registers st2 target2 cmd p Hb2 Hload) as H2.
  rewrite Hstep2 in H2. destruct H2 as [Hnone _].
  rewrite (obj_has_own _ _ Hreg2) in Hnone. discriminate.
Qed.
End ScriptPluginFacts.

(** C5. The specification expects one descriptor with the union of the
    extensions when two build scripts name the same plugin. For
    [build:js,jsx] and [build:ts], both loading [babel-plugin], the second
    script reaches line 65, which reads the descriptor from the function
    [loadPlugins] instead of [scriptPlugins], and [loadPlugins] raises a
    [TypeError]; the first script alone loads. *)
Theorem loadPlugins_same_plugin_twice_raises :
  loadPlugins (Demo.host ["babel-plugin"] []) Demo.twice_config
  = Throw TypeError
  /\ (loaded <-- loadPlugins (Demo.host ["babel-plugin"] [])
                   (Demo.mk_config [("build:js,jsx", "babel-plugin")]) ;;
      Ok (plugins loaded))
     = Ok [{| name := "babel-plugin"; input := ManyExts ["js"; "jsx"];
              output := ManyExts ["js"; "jsx"]; defaultBuildScript := None |}].
Proof. split; vm_compute; reflexivity. Qed.

Section BundlerFacts.
Variable H : Host.

Lemma is_bundle_script_parse target :
  is_bundle_script target = true ->
  exists extensions, parseScript target = Ok ("bundle", extensions).
Proof.
  unfold is_bundle_script.
  destruct (parseScript target) as [[t exts] | |]; try discriminate.
  intros Heq. apply String.eqb_eq in Heq as ->. eauto.
Qed.

(** One script: a bundle script sets the bundler, any other leaves it. *)
Lemma script_step_bundler st target cmd st' :
  script_step H st (target, cmd) = Ok st' ->
  if is_bundle_script target
  then exists b,
      requireScript H cmd = Some b
      /\ st_bundler st'
         = Some (if JsString.truthy (name b) then b else set_name cmd b)
  else st_bundler st' = st_bundler st.
Proof.
  unfold script_step, is_bundle_script.
  destruct (parseScript target) as [[t exts] | |]; simpl; try discriminate.
  destruct (String.eqb_spec t "run") as [-> | _].
  { simpl. intros [= <-]. reflexivity. }
  destruct (String.eqb_spec t "build") as [-> | _].
  { simpl. destruct (requireScript H cmd).
    - destruct (obj_has _ _); [discriminate |]. intros [= <-]. reflexivity.
    - intros [= <-]. reflexivity. }
  destruct (String.eqb t "bundle").
  - destruct (requireScript H cmd) as [b |]; [| discriminate].
    intros [= <-]. eauto.
  - intros [= <-]. reflexivity.
Qed.

(** A bundle script whose plugin loads replaces the bundler, whatever
    the loop has seen before. *)
Lemma script_step_bundle_loads st target cmd b :
  is_bundle_script target = true ->
  requireScript H cmd = Some b ->
  script_step H st (target, cmd)
  = Ok {| st_runCommands := st_runCommands st;
          st_scriptPlugins := st_scriptPlugins st;
          st_buildCommands := st_buildCommands st;
          st_buildCommands_proto := st_buildCommands_proto st;
          st_bundler := Some (if JsString.truthy (name b) then b
                              else set_name cmd b) |}.
Proof.
  intros Hbundle Hload.
  destruct (is_bundle_script_parse _ Hbundle) as [exts Hparse].
  unfold script_step. rewrite Hparse. simpl. rewrite Hload. reflexivity.
Qed.

Lemma bundle_names_snoc scripts target cmd :
  bundle_names (scripts ++ [(target, cmd)])
  = bundle_names scripts ++ (if is_bundle_script target then [cmd] else []).
Proof.
  unfold bundle_names. rewrite List.filter_app, map_app. simpl.
  destruct (is_bundle_script target); reflexivity.
Qed.

Lemma scripts_loop_bundler scripts :
  forall done st st',
    st_bundler st = last_bundler H done ->
    forEachM (script_step H) scripts st = Ok st' ->
    st_bundler st' = last_bundler H (done ++ scripts).
Proof.
  induction scripts as [| [target cmd] scripts IH]; intros done st st' Hst Hrun;
    simpl in Hrun.
  - injection Hrun as <-. rewrite app_nil_r. assumption.
  - apply obind_Ok in Hrun as (st1 & Hstep & Hrest).
    rewrite (cons_middle _ done scripts), app_assoc.
    apply (IH _ st1); [| assumption].
    apply script_step_bundler in Hstep.
    unfold last_bundler. rewrite bundle_names_snoc.
    destruct (is_bundle_script target).
    + destruct Hstep as (b & Hb & ->). rewrite last_snoc, Hb. reflexivity.
    + rewrite app_nil_r, Hstep. assumption.
Qed.
End BundlerFacts.

(** C6, as amended. [loadPlugins] returns at most one bundler and never
    refuses a second one. A [bundle:<name>] script whose plugin fails to
    load ends the process with a configuration error as soon as the loop
    reaches it. A [bundle:<name>] script whose plugin loads is accepted
    whether or not a bundler is set already, and replaces it: a
    configuration that loads still loads with one more such script after
    its scripts, and only the bundler changes. When [loadPlugins]
    returns, its bundler is the plugin of the last [bundle:<name>]
    script (none when there is no such script). *)
Theorem loadPlugins_bundler H config :
  (forall done target cmd rest st,
      config_scripts config = done ++ (target, cmd) :: rest ->
      forEachM (script_step H) done ScriptState_init = Ok st ->
      is_bundle_script target = true ->
      requireScript H cmd = None ->
      loadPlugins H config = Exit (BundlerLoadFailed cmd))
  /\ (forall r,
        loadPlugins H config = Ok r ->
        bundler r = last_bundler H (config_scripts config))
  /\ (forall st target cmd b,
        is_bundle_script target = true ->
        requireScript H cmd = Some b ->
        script_step H st (target, cmd)
        = Ok {| st_runCommands := st_runCommands st;
                st_scriptPlugins := st_scriptPlugins st;
                st_buildCommands := st_buildCommands st;
                st_buildCommands_proto := st_buildCommands_proto st;
                st_bundler := Some (if JsString.truthy (name b) then b
                                    else set_name cmd b) |})
  /\ (forall r target cmd b,
        loadPlugins H config = Ok r ->
        is_bundle_script target = true ->
        requireScript H cmd = Some b ->
        loadPlugins H {| config_scripts := config_scripts config ++ [(target, cmd)];
                         config_plugins := config_plugins config;
                         config_baseUrl := config_baseUrl config |}
        = Ok {| plugins := plugins r;
                bundler := Some (if JsString.truthy (name b) then b
                                 else set_name cmd b);
                runCommands := runCommands r;
                buildCommands := buildCommands r;
                buildCommands_proto := buildCommands_proto r |}).
Proof.
  split; [| split; [| split]].
  - intros done target cmd rest st Hscripts Hdone Hbundle Hload.
    unfold loadPlugins. rewrite Hscripts, forEachM_app, Hdone. simpl.
    destruct (is_bundle_script_parse _ Hbundle) as [exts ->]. simpl.
    rewrite Hload. reflexivity.
  - intros r Hrun. unfold loadPlugins in Hrun.
    apply obind_Ok in Hrun as (st & Hscripts & Hrun).
    apply obind_Ok in Hrun as (declared & _ & Hrun).
    injection Hrun as <-. simpl.
    apply (scripts_loop_bundler H _ [] ScriptState_init st); [reflexivity | assumption].
  - apply script_step_bundle_loads.
  - intros r target cmd b Hrun Hbundle Hload. unfold loadPlugins in *.
    apply obind_Ok in Hrun as (st & Hscripts & Hrun).
    apply obind_Ok in Hrun as (declared & Hdeclared & Hrun).
    injection Hrun as <-. cbn [config_scripts config_plugins].
    rewrite forEachM_app, Hscripts. cbn [obind forEachM].
    rewrite (script_step_bundle_loads H st _ _ _ Hbundle Hload).
    cbn [obind st_scriptPlugins]. rewrite Hdeclared. reflexivity.
Qed.

Lemma loadPlugins_bundler_witness :
  loadPlugins (Demo.host ["webpack-plugin"] []) Demo.two_bundlers_config
  = Exit (BundlerLoadFailed "parcel-plugin")
  /\ bundler {| plugins := [];
                bundler := Some (set_name "parcel-plugin" Demo.bare_plugin);
                runCommands := []; buildCommands := ∅;
                buildCommands_proto := None |}
     = last_bundler (Demo.host ["webpack-plugin"; "parcel-plugin"] [])
         (config_scripts Demo.two_bundlers_config)
  /\ script_step (Demo.host ["webpack-plugin"; "parcel-plugin"] [])
       {| st_runCommands := []; st_scriptPlugins := [];
          st_buildCommands := ∅; st_buildCommands_proto := None;
          st_bundler := Some (set_name "webpack-plugin" Demo.bare_plugin) |}
       ("bundle:all", "parcel-plugin")
     = Ok {| st_runCommands := []; st_scriptPlugins := [];
             st_buildCommands := ∅; st_buildCommands_proto := None;
             st_bundler := Some (set_name "parcel-plugin" Demo.bare_plugin) |}
  /\ loadPlugins (Demo.host ["webpack-plugin"; "parcel-plugin"] [])
       {| config_scripts := [("bundle:*", "webpack-plugin")]
                            ++ [("bundle:all", "parcel-plugin")];
          config_plugins := []; config_baseUrl := "/" |}
     = Ok {| plugins := [];
             bundler := Some (set_name "parcel-plugin" Demo.bare_plugin);
             runCommands := []; buildCommands := ∅;
             buildCommands_proto := None |}.
Proof.
  split; [| split; [| split]].
  - apply (proj1 (loadPlugins_bundler (Demo.host ["webpack-plugin"] [])
                    Demo.two_bundlers_config)
             [("bundle:*", "webpack-plugin")] "bundle:all" "parcel-plugin" []
             {| st_runCommands := []; st_scriptPlugins := [];
                st_buildCommands := ∅; st_buildCommands_proto := None;
                st_bundler := Some (set_name "webpack-plugin" Demo.bare_plugin) |});
      vm_compute; reflexivity.
  - apply (proj1 (proj2 (loadPlugins_bundler
                           (Demo.host ["webpack-plugin"; "parcel-plugin"] [])
                           Demo.two_bundlers_config))).
    vm_compute. reflexivity.
  - apply (proj1 (proj2 (proj2 (loadPlugins_bundler
                                  (Demo.host ["webpack-plugin"; "parcel-plugin"] [])
                                  Demo.two_bundlers_config)))
             {| st_runCommands := []; st_scriptPlugins := [];
                st_buildCommands := ∅; st_buildCommands_proto := None;
                st_bundler := Some (set_name "webpack-plugin" Demo.bare_plugin) |}
             "bundle:all" "parcel-plugin" Demo.bare_plugin);
      vm_compute; reflexivity.
  - apply (proj2 (proj2 (proj2 (loadPlugins_bundler
                                  (Demo.host ["webpack-plugin"; "parcel-plugin"] [])
                                  (Demo.mk_config [("bundle:*", "webpack-plugin")]))))
             {| plugins := [];
                bundler := Some (set_name "webpack-plugin" Demo.bare_plugin);
                runCommands := []; buildCommands := ∅;
                buildCommands_proto := None |}
             "bundle:all" "parcel-plugin" Demo.bare_plugin);
      vm_compute; reflexivity.
Defined.

(** C6, as stated, fails: two bundle scripts whose plugins both load are
    no error; [loadPlugins] returns, with the second one as the bundler. *)
Lemma loadPlugins_accepts_two_bundlers :
  bundle_names (config_scripts Demo.two_bundlers_config)
  = ["webpack-plugin"; "parcel-plugin"]
  /\ loadPlugins (Demo.host ["webpack-plugin"; "parcel-plugin"] [])
       Demo.two_bundlers_config
     = Ok {| plugins := [];
             bundler := Some (set_name "parcel-plugin" Demo.bare_plugin);
             runCommands := []; buildCommands := ∅;
             buildCommands_proto := None |}.
Proof. split; vm_compute; reflexivity. Qed.

(** ** [importResolver] *)

Lemma truthy_spec s : reflect (s <> "") (JsString.truthy s).
Proof. destruct s; constructor; [intros Hne; apply Hne; reflexivity | discriminate]. Qed.

Section ImportResolverFacts.
Variable H : Host.
Variable o : ImportResolverOptions.

(** X1. A specifier with a protocol is returned as it is, whatever the
    options and the import map hold. *)
Lemma importResolver_passthrough spec :
  URL_HAS_PROTOCOL spec = true -> importResolver H o spec = Ok (Resolved spec).
Proof. intros Hp. unfold importResolver. rewrite Hp. reflexivity. Qed.

(** X2. A specifier without a protocol never gets past line 76, which
    reads [matchedDir]: the resolver raises a [ReferenceError], whatever
    the specifier, the import map and the other options are; so the
    resolver returns for the specifiers with a protocol only. *)
Lemma importResolver_needs_protocol spec :
  (URL_HAS_PROTOCOL spec = false -> importResolver H o spec = Throw ReferenceError)
  /\ (forall res, importResolver H o spec = Ok res ->
        URL_HAS_PROTOCOL spec = true /\ res = Resolved spec).
Proof.
  unfold importResolver. destruct (URL_HAS_PROTOCOL spec); simpl.
  - split; [discriminate |]. intros res [= <-]. auto.
  - split; [reflexivity | discriminate].
Qed.
End ImportResolverFacts.

Lemma importResolver_passthrough_witness :
  importResolver Demo.plain_host (Demo.resolver_options false)
    "https://cdn.example.com/a.js"
  = Ok (Resolved "https://cdn.example.com/a.js").
Proof.
  apply (importResolver_passthrough Demo.plain_host (Demo.resolver_options false)
           "https://cdn.example.com/a.js").
  reflexivity.
Defined.

Lemma importResolver_needs_protocol_witness :
  importResolver Demo.plain_host (Demo.resolver_options false) "lodash"
  = Throw ReferenceError.
Proof.
  apply (proj1 (importResolver_needs_protocol Demo.plain_host
                  (Demo.resolver_options false) "lodash")).
  reflexivity.
Defined.

Lemma urlToFile_locOnDisk_last_witness :
  Some "/proj/src/dist/app.css"
  = last (List.filter (existsSync Demo.two_mounts_host)
            ["/proj/public/dist/app.css"; "/proj/src/dist/app.css"]).
Proof.
  apply (urlToFile_locOnDisk_last Demo.two_mounts_host "/dist/app.css"
           Demo.two_mounts_config "/proj"
           {| locOnDisk := Some "/proj/src/dist/app.css";
              lookups := ["/proj/public/dist/app.css"; "/proj/src/dist/app.css"] |}).
  vm_compute. reflexivity.
Defined.

(** C3. The specification expects [false] for a bare specifier that
    nothing maps, and that resolving never raises. The specifier [react]
    has no protocol, is not path-like and has no entry in the import
    map; it reaches line 76, which reads [matchedDir], an identifier
    that nothing declares, and the resolver raises a [ReferenceError].
    So does [./util.js], and every specifier without a protocol. *)
Theorem importResolver_raises_for_unmapped :
  URL_HAS_PROTOCOL "react" = false
  /\ is_path_like "react" = false
  /\ (imports ← dependencyImportMap (Demo.resolver_options false);
      imports !! "react") = None
  /\ importResolver Demo.plain_host (Demo.resolver_options false) "react"
     = Throw ReferenceError
  /\ importResolver Demo.plain_host (Demo.resolver_options false) "./util.js"
     = Throw ReferenceError.
Proof. repeat split; vm_compute; reflexivity. Qed.

(** C8. The specification expects the resolved path followed by
    [.proxy.js] for a bare specifier that the import map sends to a
    file that is not JavaScript. Here [theme] is sent to
    [theme/main.css] and the output is not bundled: lines 88-103 would
    make [/web_modules/theme/main.css.proxy.js] of it, but they are never
    reached, since line 76 raises a [ReferenceError] first. *)
Theorem importResolver_mapped_specifier_raises :
  URL_HAS_PROTOCOL "theme" = false
  /\ is_path_like "theme" = false
  /\ (imports ← dependencyImportMap (Demo.resolver_options false);
      imports !! "theme") = Some "theme/main.css"
  /\ isBundled (Demo.resolver_options false) = false
  /\ path_extname Demo.plain_host
       (resolvedImport Demo.plain_host (Demo.resolver_options false)
          "theme/main.css") = ".css"
  /\ resolveFromImportMap Demo.plain_host (Demo.resolver_options false)
       "theme/main.css" = "/web_modules/theme/main.css.proxy.js"
  /\ importResolver Demo.plain_host (Demo.resolver_options false) "theme"
     = Throw ReferenceError
  /\ importResolver Demo.plain_host (Demo.resolver_options false) "lodash"
     = Throw ReferenceError.
Proof. repeat split; vm_compute; reflexivity. Qed.

(** * Further properties *)

(** ** [createBuildPipeline] *)

Section BuildPipelineFacts.
Implicit Types (p : SnowpackPlugin) (m : gmap string (list SnowpackPlugin)).

Lemma queue_after_app {A} (entry : option (list A)) l1 l2 :
  queue_after (queue_after entry l1) l2 = queue_after entry (l1 ++ l2).
Proof.
  destruct l1 as [| a l1]; [reflexivity |].
  destruct l2 as [| b l2]; simpl.
  - rewrite app_nil_r. reflexivity.
  - rewrite <- app_assoc. reflexivity.
Qed.

Lemma pipeline_add_lookup p m ext k :
  pipeline_add p m ext !! k
  = queue_after (m !! k) (if String.eqb k ext then [p] else []).
Proof.
  unfold pipeline_add. destruct (String.eqb_spec k ext) as [-> | Hne].
  - destruct (m !! ext) eqn:Hm; rewrite lookup_insert_eq; reflexivity.
  - destruct (m !! ext); rewrite lookup_insert_ne by congruence; reflexivity.
Qed.

Lemma foldl_pipeline_add_lookup p exts m k :
  foldl (pipeline_add p) m exts !! k
  = queue_after (m !! k) (map (fun _ => p) (List.filter (String.eqb k) exts)).
Proof.
  revert m. induction exts as [| e exts IH]; intros m; simpl; [reflexivity |].
  rewrite IH, pipeline_add_lookup, queue_after_app.
  destruct (String.eqb k e); reflexivity.
Qed.

(** The closed form of an entry of the pipeline. *)
Lemma piped_lookup ps k :
  piped ps !! k = queue_after None (flat_map (pushes k) ps).
Proof.
  unfold piped.
  induction ps as [| p ps IH] using rev_ind; [reflexivity |].
  rewrite foldl_app. simpl. rewrite foldl_pipeline_add_lookup, IH.
  rewrite queue_after_app, flat_map_app. simpl. rewrite app_nil_r. reflexivity.
Qed.

Lemma pipeline_push_Ok p m ext m' :
  pipeline_push p m ext = Ok m' -> m' = pipeline_add p m ext.
Proof.
  unfold pipeline_push, pipeline_add, js_get. destruct (m !! ext) as [queued |].
  - intros [= <-]. reflexivity.
  - destruct (inherited ext); [discriminate |]. intros [= <-]. reflexivity.
Qed.

Lemma pipeline_push_frame p m ext m' :
  pipeline_push p m ext = Ok m' ->
  (m !! ext = None -> inherited ext = false)
  /\ (forall k, k <> ext -> m !! k = None -> m' !! k = None).
Proof.
  intros Hrun. split.
  - revert Hrun. unfold pipeline_push, js_get. intros Hrun Hm. rewrite Hm in Hrun.
    destruct (inherited ext); [discriminate | reflexivity].
  - apply pipeline_push_Ok in Hrun as ->. intros k Hne Hk.
    rewrite pipeline_add_lookup, Hk.
    destruct (String.eqb_spec k ext); [contradiction | reflexivity].
Qed.

Lemma pipeline_push_returns p m ext :
  inherited ext = false -> pipeline_push p m ext = Ok (pipeline_add p m ext).
Proof.
  intros Hext. unfold pipeline_push, pipeline_add, js_get.
  destruct (m !! ext) as [queued |]; [reflexivity |]. rewrite Hext. reflexivity.
Qed.

Lemma pipeline_push_outcome p m ext :
  (exists m', pipeline_push p m ext = Ok m')
  \/ pipeline_push p m ext = Throw TypeError.
Proof. unfold pipeline_push. destruct (js_get m ext); eauto. Qed.

Lemma createBuildPipeline_Ok ps pipeline :
  createBuildPipeline ps = Ok pipeline -> pipeline = piped ps.
Proof.
  apply forEachM_Ok_foldl. intros m p m'.
  apply forEachM_Ok_foldl. apply pipeline_push_Ok.
Qed.

Lemma createBuildPipeline_returns ps :
  Forall plain_inputs ps -> createBuildPipeline ps = Ok (piped ps).
Proof.
  apply (forEachM_returns _ (fun pipeline plugin =>
           foldl (pipeline_add plugin) pipeline (toArray (input plugin)))).
  intros m p. apply forEachM_returns. intros m' ext. apply pipeline_push_returns.
Qed.

Lemma createBuildPipeline_outcome ps :
  (exists pipeline, createBuildPipeline ps = Ok pipeline)
  \/ createBuildPipeline ps = Throw TypeError.
Proof.
  apply forEachM_outcome. intros m p.
  apply forEachM_outcome, pipeline_push_outcome.
Qed.

(** A pipeline that was built took no inherited name as a key. *)
Lemma createBuildPipeline_plain ps pipeline :
  createBuildPipeline ps = Ok pipeline ->
  Forall plain_inputs ps /\ (forall k, inherited k = true -> pipeline !! k = None).
Proof.
  unfold createBuildPipeline.
  assert (forall k, inherited k = true ->
                    (∅ : gmap string (list SnowpackPlugin)) !! k = None) as Hinit.
  { intros k _. apply lookup_empty. }
  revert Hinit. generalize (∅ : gmap string (list SnowpackPlugin)).
  induction ps as [| p ps IH]; intros m Hm Hrun; simpl in Hrun.
  - injection Hrun as <-. split; [constructor | assumption].
  - apply obind_Ok in Hrun as (m1 & H1 & Hrest).
    eapply forEachM_plain in H1 as [Hp Hm1];
      [| apply pipeline_push_frame | assumption].
    destruct (IH _ Hm1 Hrest) as [Hps Hfinal].
    split; [constructor; assumption | assumption].
Qed.

Lemma elem_of_pushes k p q : q ∈ pushes k p <-> q = p /\ k ∈ toArray (input p).
Proof.
  unfold pushes. rewrite list_elem_of_fmap. split.
  - intros (e & -> & He). split; [reflexivity |].
    apply list_elem_of_In, List.filter_In in He as [He Heq].
    apply String.eqb_eq in Heq as ->. apply list_elem_of_In, He.
  - intros [-> Hk]. exists k. split; [reflexivity |].
    apply list_elem_of_In, List.filter_In. split.
    + apply list_elem_of_In, Hk.
    + apply String.eqb_refl.
Qed.

Lemma elem_of_flat_map_pushes k ps q :
  q ∈ flat_map (pushes k) ps <-> q ∈ ps /\ k ∈ toArray (input q).
Proof.
  rewrite list_elem_of_In, in_flat_map. split.
  - intros (p & Hp & Hq). apply list_elem_of_In, elem_of_pushes in Hq as [-> Hk].
    split; [apply list_elem_of_In, Hp | assumption].
  - intros [Hq Hk]. exists q. split; [apply list_elem_of_In, Hq |].
    apply list_elem_of_In, elem_of_pushes. auto.
Qed.

Lemma filter_eqb_NoDup k (l : list string) :
  NoDup l -> List.filter (String.eqb k) l = if bool_decide (k ∈ l) then [k] else [].
Proof.
  induction 1 as [| x l Hx Hl IH]; simpl; [reflexivity |].
  destruct (String.eqb_spec k x) as [-> | Hne].
  - rewrite IH. rewrite (bool_decide_eq_false_2 _ Hx).
    rewrite bool_decide_eq_true_2 by apply list_elem_of_here. reflexivity.
  - rewrite IH. apply (f_equal (fun b : bool => if b then [k] else [])).
    apply bool_decide_ext. rewrite elem_of_cons. tauto.
Qed.

Lemma flat_map_pushes_NoDup k ps :
  (forall p, p ∈ ps -> NoDup (toArray (input p))) ->
  flat_map (pushes k) ps
  = List.filter (fun p => bool_decide (k ∈ toArray (input p))) ps.
Proof.
  induction ps as [| p ps IH]; intros Hnd; simpl; [reflexivity |].
  rewrite IH by (intros q Hq; apply Hnd, list_elem_of_further, Hq).
  unfold pushes at 1. rewrite filter_eqb_NoDup by apply Hnd, list_elem_of_here.
  destruct (bool_decide (k ∈ toArray (input p))); reflexivity.
Qed.

Lemma piped_groups ps ext :
  (piped ps !! ext = None <-> forall p, p ∈ ps -> ext ∉ toArray (input p))
  /\ (forall queued,
        piped ps !! ext = Some queued ->
        forall p, p ∈ queued <-> p ∈ ps /\ ext ∈ toArray (input p))
  /\ ((forall p, p ∈ ps -> NoDup (toArray (input p))) ->
      forall queued,
        piped ps !! ext = Some queued ->
        queued = List.filter (fun p => bool_decide (ext ∈ toArray (input p))) ps).
Proof.
  rewrite piped_lookup.
  split; [| split].
  - destruct (flat_map (pushes ext) ps) as [| q l] eqn:Hl; simpl.
    + split; [| reflexivity]. intros _ p Hp Hext.
      assert (p ∈ flat_map (pushes ext) ps) as Hin
        by (apply elem_of_flat_map_pushes; auto).
      rewrite Hl in Hin. apply elem_of_nil in Hin. contradiction.
    + split; [discriminate |]. intros Hno.
      assert (q ∈ flat_map (pushes ext) ps) as Hin
        by (rewrite Hl; apply list_elem_of_here).
      apply elem_of_flat_map_pushes in Hin as [Hq Hext].
      exfalso. exact (Hno q Hq Hext).
  - intros queued Hq p.
    destruct (flat_map (pushes ext) ps) as [| q l] eqn:Hl; simpl in Hq;
      [discriminate |].
    injection Hq as <-. rewrite <- Hl. apply elem_of_flat_map_pushes.
  - intros Hnd queued Hq. rewrite (flat_map_pushes_NoDup _ _ Hnd) in Hq.
    destruct (List.filter _ ps); simpl in Hq; [discriminate |].
    injection Hq as <-. reflexivity.
Qed.
End BuildPipelineFacts.

(** X4. [createBuildPipeline] returns when no input extension of a
    plugin is the name of a member of [Object.prototype], and raises a
    [TypeError] otherwise. The pipeline it returns has no property for
    an extension exactly when no plugin takes it as input; a read
    [pipeline[ext]] that finds a queue finds exactly the plugins that
    take the extension, in registration order and each once when no
    plugin names an input twice; and it finds an inherited member
    instead exactly for the names [Object.prototype] has. *)
Theorem createBuildPipeline_groups (ps : list SnowpackPlugin) (ext : string) :
  (Forall plain_inputs ps -> exists pipeline, createBuildPipeline ps = Ok pipeline)
  /\ (~ Forall plain_inputs ps -> createBuildPipeline ps = Throw TypeError)
  /\ (forall pipeline,
        createBuildPipeline ps = Ok pipeline ->
        (pipeline !! ext = None
         <-> forall p, p ∈ ps -> ext ∉ toArray (input p))
        /\ (forall queued,
              js_get pipeline ext = Own queued ->
              forall p, p ∈ queued <-> p ∈ ps /\ ext ∈ toArray (input p))
        /\ ((forall p, p ∈ ps -> NoDup (toArray (input p))) ->
            forall queued,
              js_get pipeline ext = Own queued ->
              queued
              = List.filter (fun p => bool_decide (ext ∈ toArray (input p))) ps)
        /\ (js_get pipeline ext = Inherited <-> inherited ext = true)).
Proof.
  split; [| split].
  - intros Hplain. eexists. apply createBuildPipeline_returns, Hplain.
  - intros Hnot. destruct (createBuildPipeline_outcome ps) as [[m Hm] | ?];
      [| assumption].
    apply createBuildPipeline_plain in Hm as [Hplain _]. contradiction.
  - intros pipeline Hrun.
    destruct (createBuildPipeline_plain _ _ Hrun) as [_ Hkeys].
    apply createBuildPipeline_Ok in Hrun as ->.
    destruct (piped_groups ps ext) as (Hnone & Hsome & Hfilter).
    split; [exact Hnone |].
    split; [intros queued Hq; apply Hsome, js_get_Own, Hq |].
    split; [intros Hnd queued Hq; apply Hfilter, js_get_Own, Hq; assumption |].
    rewrite js_get_Inherited. split; [tauto |]. auto.
Qed.

Lemma createBuildPipeline_groups_witness :
  (exists pipeline,
      createBuildPipeline [Samples.babel; Samples.typescript] = Ok pipeline)
  /\ [Samples.babel; Samples.typescript]
     = List.filter (fun p => bool_decide (".js" ∈ toArray (input p)))
         [Samples.babel; Samples.typescript].
Proof.
  split.
  - apply (proj1 (createBuildPipeline_groups
                    [Samples.babel; Samples.typescript] ".js")).
    repeat constructor.
  - assert (createBuildPipeline [Samples.babel; Samples.typescript]
            = Ok (piped [Samples.babel; Samples.typescript])) as Hrun
      by (vm_compute; reflexivity).
    destruct (proj2 (proj2 (createBuildPipeline_groups
                              [Samples.babel; Samples.typescript] ".js"))
                _ Hrun) as (_ & _ & Hfilter & _).
    apply Hfilter.
    + intros p Hp.
      apply elem_of_cons in Hp as [-> | Hp];
        [| apply list_elem_of_singleton in Hp as ->];
        apply (bool_decide_unpack _); vm_compute; exact I.
    + vm_compute. reflexivity.
Defined.

(** ** The extension map holds nothing else *)

Lemma foldl_merge_exts_lookup_inv seed extra exts
    (m : gmap string (list string)) k l :
  foldl (merge_exts seed extra) m exts !! k = Some l ->
  ((k ∉ exts) /\ m !! k = Some l)
  \/ (k ∈ exts /\ forall x, x ∈ l -> x ∈ extra \/ x ∈ default (seed k) (m !! k)).
Proof.
  revert m. induction exts as [| e exts IH]; intros m Hl; simpl in Hl.
  - left. split; [apply not_elem_of_nil | assumption].
  - assert (forall x,
               x ∈ default (seed k) (merge_exts seed extra m e !! k) ->
               e = k \/ x ∈ default (seed k) (m !! k)) as Hold.
    { intros x. unfold merge_exts. destruct (decide (e = k)) as [-> | Hne]; [auto |].
      rewrite lookup_insert_ne by assumption. auto. }
    destruct (IH _ Hl) as [[Hnot Hm] | [Hin Hall]].
    + unfold merge_exts in Hm. destruct (decide (e = k)) as [-> | Hne].
      * rewrite lookup_insert_eq in Hm. injection Hm as <-. right.
        split; [apply list_elem_of_here |]. intros x Hx.
        apply elem_of_spread, elem_of_app in Hx. tauto.
      * rewrite lookup_insert_ne in Hm by assumption. left.
        split; [| assumption]. rewrite elem_of_cons. intros [-> | ?]; tauto.
    + right. split; [apply list_elem_of_further, Hin |]. intros x Hx.
      destruct (Hall x Hx) as [? | Hx']; [auto |].
      unfold merge_exts in Hx'. destruct (decide (e = k)) as [-> | Hne].
      * rewrite lookup_insert_eq in Hx'. simpl in Hx'.
        apply elem_of_spread, elem_of_app in Hx'. tauto.
      * rewrite lookup_insert_ne in Hx' by assumption. auto.
Qed.

Lemma merged_input_sound ps i outs :
  extMap_input (merged ps) !! i = Some outs ->
  (exists p, p ∈ ps /\ i ∈ toArray (input p))
  /\ forall o, o ∈ outs ->
       exists p, p ∈ ps /\ i ∈ toArray (input p) /\ o ∈ toArray (output p).
Proof.
  revert outs. induction ps as [| q ps IH] using rev_ind; intros outs Hl.
  - simpl in Hl. rewrite lookup_empty in Hl. discriminate.
  - rewrite merged_snoc in Hl. simpl in Hl.
    apply foldl_merge_exts_lookup_inv in Hl as [[_ Hold] | [Hin Hall]].
    + destruct (IH _ Hold) as [(p & Hp & Hi) Hout]. split.
      * exists p. rewrite elem_of_app. auto.
      * intros o Ho. destruct (Hout o Ho) as (p' & ? & ? & ?).
        exists p'. rewrite elem_of_app. auto.
    + assert (q ∈ ps ++ [q]) as Hq
        by (apply elem_of_app; right; apply list_elem_of_here).
      split; [eauto |]. intros o Ho.
      destruct (Hall o Ho) as [Hnew | Hold]; [eauto |].
      destruct (extMap_input (merged ps) !! i) as [l0 |] eqn:Hl0;
        simpl in Hold; [| apply elem_of_nil in Hold; contradiction].
      destruct (IH _ eq_refl) as [_ Hout].
      destruct (Hout o Hold) as (p' & ? & ? & ?).
      exists p'. rewrite elem_of_app. auto.
Qed.

Lemma merged_output_sound ps o ins :
  extMap_output (merged ps) !! o = Some ins ->
  (exists p, p ∈ ps /\ o ∈ toArray (output p))
  /\ forall i, i ∈ ins ->
       i = o \/ exists p, p ∈ ps /\ i ∈ toArray (input p) /\ o ∈ toArray (output p).
Proof.
  revert ins. induction ps as [| q ps IH] using rev_ind; intros ins Hl.
  - simpl in Hl. rewrite lookup_empty in Hl. discriminate.
  - rewrite merged_snoc in Hl. simpl in Hl.
    apply foldl_merge_exts_lookup_inv in Hl as [[_ Hold] | [Hin Hall]].
    + destruct (IH _ Hold) as [(p & Hp & Ho) Hins]. split.
      * exists p. rewrite elem_of_app. auto.
      * intros i Hi. destruct (Hins i Hi) as [? | (p' & ? & ? & ?)]; [auto |].
        right. exists p'. rewrite elem_of_app. auto.
    + assert (q ∈ ps ++ [q]) as Hq
        by (apply elem_of_app; right; apply list_elem_of_here).
      split; [eauto |]. intros i Hi.
      destruct (Hall i Hi) as [Hnew | Hold]; [eauto 6 |].
      destruct (extMap_output (merged ps) !! o) as [l0 |] eqn:Hl0;
        simpl in Hold.
      * destruct (IH _ eq_refl) as [_ Hins].
        destruct (Hins i Hold) as [? | (p' & ? & ? & ?)]; [auto |].
        right. exists p'. rewrite elem_of_app. auto.
      * apply list_elem_of_singleton in Hold. auto.
Qed.

(** A map that was built has no inherited name among its keys. *)
Lemma createPluginExtensionMap_no_inherited_key ps extMap :
  createPluginExtensionMap ps = Ok extMap -> no_inherited_key extMap.
Proof.
  intros Hrun k Hk.
  pose proof (createPluginExtensionMap_plain _ _ Hrun) as Hplain.
  apply createPluginExtensionMap_Ok in Hrun as ->.
  rewrite Forall_forall in Hplain.
  destruct (merged_keys ps k) as [Hin Hout].
  split; apply eq_None_not_Some; intros Hsome.
  - apply Hin in Hsome as (p & Hp & Hext).
    destruct (Hplain p Hp) as [Hall _]. rewrite Forall_forall in Hall.
    rewrite (Hall k Hext) in Hk. discriminate.
  - apply Hout in Hsome as (p & Hp & Hext).
    destruct (Hplain p Hp) as [_ Hall]. rewrite Forall_forall in Hall.
    rewrite (Hall k Hext) in Hk. discriminate.
Qed.

(** X5. When the extension map is built, it holds nothing but what the
    plugins declare: a read [input[i]] finds a list only for an input
    extension of some plugin, and the list holds only outputs of plugins
    that take [i]; a read [output[o]] finds a list only for an output
    extension of some plugin, and the list holds, besides [o] itself,
    only inputs of plugins that output [o]. Under a name that
    [Object.prototype] has, and under no other, either read finds the
    inherited member: no plugin declares such a name. *)
Theorem createPluginExtensionMap_sound (ps : list SnowpackPlugin)
    (extMap : ExtensionMap) :
  createPluginExtensionMap ps = Ok extMap ->
  (forall i outs,
      js_get (extMap_input extMap) i = Own outs ->
      (exists p, p ∈ ps /\ i ∈ toArray (input p))
      /\ forall o, o ∈ outs ->
           exists p, p ∈ ps /\ i ∈ toArray (input p) /\ o ∈ toArray (output p))
  /\ (forall o ins,
        js_get (extMap_output extMap) o = Own ins ->
        (exists p, p ∈ ps /\ o ∈ toArray (output p))
        /\ forall i, i ∈ ins ->
             i = o
             \/ exists p, p ∈ ps /\ i ∈ toArray (input p) /\ o ∈ toArray (output p))
  /\ (forall k,
        (js_get (extMap_input extMap) k = Inherited <-> inherited k = true)
        /\ (js_get (extMap_output extMap) k = Inherited <-> inherited k = true))
  /\ (forall k p,
        inherited k = true -> p ∈ ps ->
        (k ∉ toArray (input p)) /\ (k ∉ toArray (output p))).
Proof.
  intros Hrun.
  pose proof (createPluginExtensionMap_no_inherited_key _ _ Hrun) as Hkeys.
  pose proof (createPluginExtensionMap_plain _ _ Hrun) as Hplain.
  apply createPluginExtensionMap_Ok in Hrun as ->.
  split; [| split; [| split]].
  - intros i outs Hi. apply merged_input_sound, js_get_Own, Hi.
  - intros o ins Ho. apply merged_output_sound, js_get_Own, Ho.
  - intros k. rewrite !js_get_Inherited.
    split; (split; [tauto |]); intros Hk; (split; [apply Hkeys, Hk | exact Hk]).
  - intros k p Hk Hp. rewrite Forall_forall in Hplain.
    destruct (Hplain p Hp) as [Hin Hout]. rewrite Forall_forall in Hin, Hout.
    split; intros Hext; [apply Hin in Hext | apply Hout in Hext]; congruence.
Qed.

Lemma createPluginExtensionMap_sound_witness :
  (exists p, p ∈ [Demo.svelte_plugin; Demo.sass_plugin]
             /\ ".css" ∈ toArray (output p))
  /\ forall i, i ∈ [".css"; ".svelte"; ".scss"; ".sass"] ->
       i = ".css"
       \/ exists p, p ∈ [Demo.svelte_plugin; Demo.sass_plugin]
                    /\ i ∈ toArray (input p) /\ ".css" ∈ toArray (output p).
Proof.
  apply (proj1 (proj2 (createPluginExtensionMap_sound
                         [Demo.svelte_plugin; Demo.sass_plugin]
                         (merged [Demo.svelte_plugin; Demo.sass_plugin])
                         ltac:(vm_compute; reflexivity))) ".css").
  vm_compute. reflexivity.
Defined.

(** ** [parseScript] *)

Section ParseScriptFacts.
Lemma append_snoc cur c r :
  (cur +:+ String c EmptyString) +:+ r = cur +:+ String c r.
Proof.
  induction cur as [| a cur IH]; [reflexivity |].
  change (String a ((cur +:+ String c EmptyString) +:+ r)
          = String a (cur +:+ String c r)).
  rewrite IH. reflexivity.
Qed.

Lemma append_empty cur : cur +:+ EmptyString = cur.
Proof.
  induction cur as [| a cur IH]; [reflexivity |].
  change (String a (cur +:+ EmptyString) = String a cur). rewrite IH. reflexivity.
Qed.

Lemma split_go_cons sep cur s : exists a l, JsString.split_go sep cur s = a :: l.
Proof.
  revert cur. induction s as [| c r IH]; intros cur; simpl; [eauto |].
  destruct (Ascii.eqb c sep); [eauto | apply IH].
Qed.

(** Without the separator there is one field: the whole string. *)
Lemma split_go_no_sep sep cur s :
  has_char sep s = false -> JsString.split_go sep cur s = [cur +:+ s].
Proof.
  revert cur. induction s as [| c r IH]; intros cur Hs; simpl in *.
  - rewrite append_empty. reflexivity.
  - apply orb_false_iff in Hs as [Hc Hr]. rewrite Hc, IH by assumption.
    rewrite append_snoc. reflexivity.
Qed.

(** With the separator there are at least two fields. *)
Lemma split_go_sep sep cur s :
  has_char sep s = true -> exists a b l, JsString.split_go sep cur s = a :: b :: l.
Proof.
  revert cur. induction s as [| c r IH]; intros cur Hs; simpl in *; [discriminate |].
  destruct (Ascii.eqb c sep); simpl in Hs.
  - destruct (split_go_cons sep EmptyString r) as (b & l & ->). eauto.
  - apply IH, Hs.
Qed.

Lemma lower_char_idem c : JsString.lower_char (JsString.lower_char c) = JsString.lower_char c.
Proof. destruct c as [[] [] [] [] [] [] [] []]; reflexivity. Qed.

Lemma lower_char_colon c : Ascii.eqb (JsString.lower_char c) ":" = Ascii.eqb c ":".
Proof. destruct c as [[] [] [] [] [] [] [] []]; reflexivity. Qed.

Lemma toLowerCase_idem s :
  JsString.toLowerCase (JsString.toLowerCase s) = JsString.toLowerCase s.
Proof.
  induction s as [| c r IH]; simpl; [reflexivity |].
  rewrite lower_char_idem, IH. reflexivity.
Qed.

Lemma has_colon_toLowerCase s :
  has_char ":" (JsString.toLowerCase s) = has_char ":" s.
Proof.
  induction s as [| c r IH]; simpl; [reflexivity |].
  rewrite lower_char_colon, IH. reflexivity.
Qed.

Lemma spread_not_nil x xs : JsSet.spread (x :: xs) <> [].
Proof. destruct (spread_cons_head x xs) as [t ->]. discriminate. Qed.

Lemma parseScript_Ok_extensions script scriptType extensions :
  parseScript script = Ok (scriptType, extensions) ->
  extensions <> [] /\ NoDup extensions.
Proof.
  intros Hp. split; [| eapply parseScript_NoDup, Hp].
  unfold parseScript in Hp.
  destruct (JsString.split ":" (JsString.toLowerCase script))
    as [| t [| e rest]]; try discriminate.
  injection Hp as _ <-. unfold JsString.split.
  destruct (split_go_cons "," EmptyString e) as (a & l & ->). simpl.
  apply spread_not_nil.
Qed.
End ParseScriptFacts.

(** X6. [parseScript] raises a [TypeError] exactly on a script id
    without a colon (there is no [extMatch] to split); on every id with a
    colon it returns. *)
Theorem parseScript_needs_colon (script : string) :
  (has_char ":" script = false -> parseScript script = Throw TypeError)
  /\ (has_char ":" script = true ->
      exists scriptType extensions, parseScript script = Ok (scriptType, extensions)).
Proof.
  unfold parseScript, JsString.split. split; intros Hc.
  - rewrite split_go_no_sep by (rewrite has_colon_toLowerCase; assumption).
    reflexivity.
  - destruct (split_go_sep ":" EmptyString (JsString.toLowerCase script))
      as (a & b & l & ->); [rewrite has_colon_toLowerCase; assumption |].
    eauto.
Qed.

Lemma parseScript_needs_colon_witness :
  parseScript "lintall" = Throw TypeError
  /\ exists scriptType extensions,
      parseScript "mount:src" = Ok (scriptType, extensions).
Proof.
  split.
  - apply (proj1 (parseScript_needs_colon "lintall")). reflexivity.
  - apply (proj2 (parseScript_needs_colon "mount:src")). reflexivity.
Defined.

(** X7. Script ids are read without regard to case, and an id that
    parses names at least one extension and names none twice. *)
Theorem parseScript_extensions (script : string) :
  parseScript (JsString.toLowerCase script) = parseScript script
  /\ forall scriptType extensions,
      parseScript script = Ok (scriptType, extensions) ->
      extensions <> [] /\ NoDup extensions.
Proof.
  split.
  - unfold parseScript. rewrite toLowerCase_idem. reflexivity.
  - apply parseScript_Ok_extensions.
Qed.

Lemma parseScript_extensions_witness :
  ["js"; "jsx"] <> [] /\ NoDup ["js"; "jsx"].
Proof.
  apply (proj2 (parseScript_extensions "Build:JS,jsx,js") "build" ["js"; "jsx"]).
  reflexivity.
Defined.

(** ** [loadPlugins]: what the loops leave *)

Section LoadPluginsFacts.
Variable H : Host.

Lemma forEachM_invariant_in {A S} (f : S -> A -> outcome S) (P : S -> Prop) xs :
  (forall s x s', x ∈ xs -> P s -> f s x = Ok s' -> P s') ->
  forall s s', P s -> forEachM f xs s = Ok s' -> P s'.
Proof.
  induction xs as [| x xs IH]; intros Hstep s s' Hs Hrun; simpl in Hrun.
  - injection Hrun as <-. assumption.
  - apply obind_Ok in Hrun as (s1 & H1 & Hrest).
    apply (IH (fun s0 y s0' Hy => Hstep s0 y s0' (list_elem_of_further _ _ _ Hy)) s1);
      [| assumption].
    apply (Hstep s x s1); [apply list_elem_of_here | assumption | assumption].
Qed.

(** Every element of a loop that returned was processed normally. *)
Lemma forEachM_Ok_each {A S} (f : S -> A -> outcome S) xs s s' x :
  forEachM f xs s = Ok s' -> x ∈ xs -> exists s1 s2, f s1 x = Ok s2.
Proof.
  revert s. induction xs as [| y xs IH]; intros s Hrun Hx; simpl in Hrun.
  - apply elem_of_nil in Hx. contradiction.
  - apply obind_Ok in Hrun as (s1 & H1 & Hrest).
    apply elem_of_cons in Hx as [-> | Hx]; [eauto | eapply IH; eassumption].
Qed.


(** The five ways in which one script is processed normally. *)
Lemma script_step_Ok st target cmd st' :
  script_step H st (target, cmd) = Ok st' ->
  exists scriptType extensions,
    parseScript target = Ok (scriptType, extensions)
    /\ ((scriptType = "run"
         /\ st' = {| st_runCommands :=
                       st_runCommands st
                       ++ [{| RunCmd_id := target; RunCmd_cmd := cmd |}];
                     st_scriptPlugins := st_scriptPlugins st;
                     st_buildCommands := st_buildCommands st;
                     st_buildCommands_proto := st_buildCommands_proto st;
                     st_bundler := st_bundler st |})
        \/ (scriptType = "build"
            /\ exists plugin,
                requireScript H cmd = Some plugin
                /\ obj_has (st_scriptPlugins st) cmd = false
                /\ st' = {| st_runCommands := st_runCommands st;
                            st_scriptPlugins :=
                              st_scriptPlugins st
                              ++ [(cmd, set_exts extensions (set_name cmd plugin))];
                            st_buildCommands := st_buildCommands st;
                            st_buildCommands_proto := st_buildCommands_proto st;
                            st_bundler := st_bundler st |})
        \/ (scriptType = "build"
            /\ requireScript H cmd = None
            /\ st' = {| st_runCommands := st_runCommands st;
                        st_scriptPlugins := st_scriptPlugins st;
                        st_buildCommands :=
                          (foldl (set_buildCommand
                                    {| RunCmd_id := target; RunCmd_cmd := cmd |})
                                 (st_buildCommands st, st_buildCommands_proto st)
                                 extensions).1;
                        st_buildCommands_proto :=
                          (foldl (set_buildCommand
                                    {| RunCmd_id := target; RunCmd_cmd := cmd |})
                                 (st_buildCommands st, st_buildCommands_proto st)
                                 extensions).2;
                        st_bundler := st_bundler st |})
        \/ (scriptType <> "run" /\ scriptType <> "build"
            /\ st_runCommands st' = st_runCommands st
            /\ st_scriptPlugins st' = st_scriptPlugins st
            /\ st_buildCommands st' = st_buildCommands st
            /\ st_buildCommands_proto st' = st_buildCommands_proto st)).
Proof.
  unfold script_step.
  destruct (parseScript target) as [[t exts] | |]; simpl; try discriminate.
  intros Hstep. exists t, exts. split; [reflexivity |].
  destruct (String.eqb_spec t "run") as [-> | Hrun].
  { injection Hstep as <-. auto. }
  destruct (String.eqb_spec t "build") as [-> | Hbuild].
  { destruct (requireScript H cmd) as [plugin |].
    - destruct (obj_has (st_scriptPlugins st) cmd) eqn:Hget; [discriminate |].
      injection Hstep as <-. right. left. eauto 6.
    - injection Hstep as <-. auto 6. }
  do 3 right. split; [assumption |]. split; [assumption |].
  destruct (String.eqb t "bundle").
  - destruct (requireScript H cmd); [| discriminate]. injection Hstep as <-. auto.
  - injection Hstep as <-. auto.
Qed.

Lemma is_run_script_parse target scriptType extensions :
  parseScript target = Ok (scriptType, extensions) ->
  is_run_script target = String.eqb scriptType "run".
Proof. unfold is_run_script. intros ->. reflexivity. Qed.

Lemma run_commands_of_snoc scripts target cmd :
  run_commands_of (scripts ++ [(target, cmd)])
  = run_commands_of scripts
    ++ (if is_run_script target
        then [{| RunCmd_id := target; RunCmd_cmd := cmd |}] else []).
Proof.
  unfold run_commands_of. rewrite List.filter_app, map_app. simpl.
  destruct (is_run_script target); reflexivity.
Qed.

Lemma scripts_loop_runCommands scripts :
  forall done st st',
    st_runCommands st = run_commands_of done ->
    forEachM (script_step H) scripts st = Ok st' ->
    st_runCommands st' = run_commands_of (done ++ scripts).
Proof.
  induction scripts as [| [target cmd] scripts IH]; intros done st st' Hst Hrun;
    simpl in Hrun.
  - injection Hrun as <-. rewrite app_nil_r. assumption.
  - apply obind_Ok in Hrun as (st1 & Hstep & Hrest).
    rewrite (cons_middle _ done scripts), app_assoc.
    apply (IH _ st1); [| assumption].
    rewrite run_commands_of_snoc.
    apply script_step_Ok in Hstep as (t & exts & Hparse & Hcases).
    rewrite (is_run_script_parse _ _ _ Hparse).
    destruct Hcases as [[-> ->] | [[-> (p & _ & _ & ->)] | [[-> [_ ->]] | Hother]]];
      simpl; rewrite <- ?Hst, ?app_nil_r; try reflexivity.
    destruct Hother as (Hne & _ & Hsame & _).
    destruct (String.eqb_spec t "run"); [contradiction |].
    rewrite app_nil_r. exact Hsame.
Qed.
End LoadPluginsFacts.

(** X8. When [loadPlugins] returns, [runCommands] holds the [run:*]
    scripts, each with its id and its command, in script order, and
    nothing else. *)
Theorem loadPlugins_runCommands H config r :
  loadPlugins H config = Ok r ->
  runCommands r = run_commands_of (config_scripts config).
Proof.
  intros Hrun. unfold loadPlugins in Hrun.
  apply obind_Ok in Hrun as (st & Hscripts & Hrun).
  apply obind_Ok in Hrun as (declared & _ & Hrun).
  injection Hrun as <-. simpl.
  apply (scripts_loop_runCommands H _ [] ScriptState_init st);
    [reflexivity | assumption].
Qed.

Lemma loadPlugins_runCommands_witness :
  [{| RunCmd_id := "run:test"; RunCmd_cmd := "jest" |};
   {| RunCmd_id := "run:lint"; RunCmd_cmd := "eslint src" |}]
  = run_commands_of (config_scripts Samples.mixed_config).
Proof.
  apply (loadPlugins_runCommands (Demo.host ["babel-plugin"] [])
           Samples.mixed_config
           {| plugins := [set_exts ["js"; "jsx"]
                            (set_name "babel-plugin" Demo.bare_plugin)];
              bundler := None;
              runCommands :=
                [{| RunCmd_id := "run:test"; RunCmd_cmd := "jest" |};
                 {| RunCmd_id := "run:lint"; RunCmd_cmd := "eslint src" |}];
              buildCommands :=
                <["css" := {| RunCmd_id := "build:css"; RunCmd_cmd := "postcss" |}]> ∅;
              buildCommands_proto := None |}).
  vm_compute. reflexivity.
Defined.

Section RegistryFacts.
Variable H : Host.


Lemma scripts_loop_registers scripts st target cmd p :
  forEachM (script_step H) scripts ScriptState_init = Ok st ->
  (target, cmd) ∈ scripts ->
  is_build_script target = true ->
  requireScript H cmd = Some p ->
  is_Some (obj_get (st_scriptPlugins st) cmd).
Proof.
  intros Hrun Hin Hbuild Hload.
  apply list_elem_of_split in Hin as (before & after & ->).
  rewrite forEachM_app in Hrun.
  apply obind_Ok in Hrun as (st0 & _ & Hrun). cbn [forEachM] in Hrun.
  apply obind_Ok in Hrun as (st1 & Hstep & Hrest).
  pose proof (build_step_registers H st0 target cmd p Hbuild Hload) as Hreg.
  rewrite Hstep in Hreg. destruct Hreg as [_ Hreg].
  eapply scripts_loop_keeps; eassumption.
Qed.




(** What the callback does with a plugin that a build script
    registered. *)
Lemma plugin_ref_step_registered scriptPlugins acc ref :
  is_Some (obj_get scriptPlugins (PluginRef_name ref)) ->
  plugin_ref_step H scriptPlugins acc ref
  = Exit (LoadedInScriptsAndPlugins (PluginRef_name ref)).
Proof.
  intros Hreg. unfold plugin_ref_step.
  change (match ref with PluginName n | PluginWithOptions n _ => n end)
    with (PluginRef_name ref).
  rewrite (obj_has_own _ _ Hreg). reflexivity.
Qed.
End RegistryFacts.

(** X9. A plugin that a [build:*] script loads and that [config.plugins]
    lists as well is never accepted: [loadPlugins] does not return. *)
Theorem loadPlugins_scripts_and_plugins H config target cmd p ref :
  (target, cmd) ∈ config_scripts config ->
  is_build_script target = true ->
  requireScript H cmd = Some p ->
  ref ∈ config_plugins config ->
  PluginRef_name ref = cmd ->
  forall r, loadPlugins H config <> Ok r.
Proof.
  intros Hin Hbuild Hload Href Hname r Hrun. unfold loadPlugins in Hrun.
  apply obind_Ok in Hrun as (st & Hscripts & Hrun).
  apply obind_Ok in Hrun as (declared & Hplugins & _).
  pose proof (scripts_loop_registers H _ _ _ _ _ Hscripts Hin Hbuild Hload) as Hreg.
  destruct (forEachM_Ok_each _ _ _ _ _ Hplugins Href) as (acc1 & acc2 & Hstep).
  rewrite <- Hname in Hreg.
  rewrite (plugin_ref_step_registered H _ acc1 _ Hreg) in Hstep. discriminate.
Qed.

Lemma loadPlugins_scripts_and_plugins_witness :
  loadPlugins (Demo.host ["babel-plugin"] []) Samples.both_config
  <> Ok {| plugins := []; bundler := None; runCommands := [];
           buildCommands := ∅; buildCommands_proto := None |}
  /\ loadPlugins (Demo.host ["babel-plugin"] []) Samples.both_config
     = Exit (LoadedInScriptsAndPlugins "babel-plugin").
Proof.
  split.
  - apply (loadPlugins_scripts_and_plugins (Demo.host ["babel-plugin"] [])
             Samples.both_config "build:js,jsx" "babel-plugin" Demo.bare_plugin
             (PluginName "babel-plugin")).
    + apply list_elem_of_here.
    + reflexivity.
    + reflexivity.
    + apply list_elem_of_here.
    + reflexivity.
  - vm_compute. reflexivity.
Defined.



Section BuildCommandFacts.
Variable H : Host.

(** What the assignments of one build script leave: an own property for
    every extension but [__proto__], and a new prototype when
    [__proto__] is among them. *)
Lemma foldl_set_buildCommand (rc : RunCmd) exts (m : gmap string RunCmd)
    (proto : option RunCmd) k :
  (foldl (set_buildCommand rc) (m, proto) exts).1 !! k
  = (if bool_decide (k ∈ exts /\ k <> "__proto__") then Some rc else m !! k)
  /\ (foldl (set_buildCommand rc) (m, proto) exts).2
     = (if bool_decide ("__proto__" ∈ exts) then Some rc else proto).
Proof.
  revert m proto. induction exts as [| e exts IH]; intros m proto; cbn [foldl].
  - split.
    + rewrite bool_decide_eq_false_2; [reflexivity |].
      intros [Hin _]. apply elem_of_nil in Hin. contradiction.
    + rewrite bool_decide_eq_false_2; [reflexivity | apply not_elem_of_nil].
  - unfold set_buildCommand at 2 4. cbn [fst snd].
    destruct (String.eqb_spec e "__proto__") as [-> | Hne].
    + destruct (IH m (Some rc)) as [-> ->]. split.
      * apply (f_equal (fun b : bool => if b then Some rc else m !! k)).
        apply bool_decide_ext. rewrite elem_of_cons. split; [tauto |].
        intros [[-> | Hin] Hk]; [contradiction | tauto].
      * rewrite (bool_decide_eq_true_2 ("__proto__" ∈ "__proto__" :: exts))
          by apply list_elem_of_here.
        destruct (bool_decide ("__proto__" ∈ exts)); reflexivity.
    + destruct (IH (<[e := rc]> m) proto) as [-> ->]. split.
      * destruct (decide (k ∈ exts /\ k <> "__proto__")) as [Hin | Hnot].
        -- rewrite !bool_decide_eq_true_2; [reflexivity | | assumption].
           rewrite elem_of_cons. tauto.
        -- rewrite (bool_decide_eq_false_2 _ Hnot).
           destruct (decide (e = k)) as [-> | Hek].
           ++ rewrite lookup_insert_eq, bool_decide_eq_true_2; [reflexivity |].
              split; [apply list_elem_of_here | assumption].
           ++ rewrite lookup_insert_ne by assumption.
              rewrite bool_decide_eq_false_2; [reflexivity |].
              rewrite elem_of_cons. intros [[-> | ?] ?]; tauto.
      * apply (f_equal (fun b : bool => if b then Some rc else proto)).
        apply bool_decide_ext. rewrite elem_of_cons. split; [tauto |].
        intros [Heq | Hin]; [congruence | assumption].
Qed.

Lemma scripts_loop_buildCommands_sound scripts st :
  forEachM (script_step H) scripts ScriptState_init = Ok st ->
  (forall ext rc,
      st_buildCommands st !! ext = Some rc ->
      ext <> "__proto__" /\ recorded H scripts ext rc)
  /\ (forall rc,
        st_buildCommands_proto st = Some rc -> recorded H scripts "__proto__" rc).
Proof.
  apply (forEachM_invariant_in (script_step H)
           (fun st =>
              (forall ext rc,
                  st_buildCommands st !! ext = Some rc ->
                  ext <> "__proto__" /\ recorded H scripts ext rc)
              /\ (forall rc,
                    st_buildCommands_proto st = Some rc ->
                    recorded H scripts "__proto__" rc))
           scripts).
  - intros s [target cmd] s' Hin [Hown Hproto] Hstep.
    apply script_step_Ok in Hstep as (t & exts & Hparse & Hcases).
    destruct Hcases as [[_ ->] | [[-> (p & _ & _ & ->)] | [[-> [Hnone ->]] | Hother]]];
      simpl; auto.
    + split.
      * intros ext rc.
        rewrite (proj1 (foldl_set_buildCommand _ exts _ _ ext)).
        destruct (decide (ext ∈ exts /\ ext <> "__proto__")) as [[Hext Hne] | Hnot].
        -- rewrite bool_decide_eq_true_2 by auto. intros [= <-].
           split; [assumption |]. unfold recorded. simpl. eauto.
        -- rewrite bool_decide_eq_false_2 by assumption. apply Hown.
      * intros rc. rewrite (proj2 (foldl_set_buildCommand _ exts _ _ "")).
        destruct (decide ("__proto__" ∈ exts)) as [Hext | Hnot].
        -- rewrite bool_decide_eq_true_2 by assumption. intros [= <-].
           unfold recorded. simpl. eauto.
        -- rewrite bool_decide_eq_false_2 by assumption. apply Hproto.
    + destruct Hother as (_ & _ & _ & _ & -> & ->). auto.
  - split.
    + intros ext rc Hl. simpl in Hl. rewrite lookup_empty in Hl. discriminate.
    + intros rc Hl. simpl in Hl. discriminate.
Qed.

Lemma script_step_buildCommands_mono st entry st' ext :
  script_step H st entry = Ok st' ->
  (is_Some (st_buildCommands st !! ext) -> is_Some (st_buildCommands st' !! ext))
  /\ (is_Some (st_buildCommands_proto st) -> is_Some (st_buildCommands_proto st')).
Proof.
  destruct entry as [target cmd]. intros Hstep.
  apply script_step_Ok in Hstep as (t & exts & Hparse & Hcases).
  destruct Hcases as [[_ ->] | [[-> (p & _ & _ & ->)] | [[-> [Hnone ->]] | Hother]]];
    simpl; auto.
  - destruct (foldl_set_buildCommand
                {| RunCmd_id := target; RunCmd_cmd := cmd |} exts
                (st_buildCommands st) (st_buildCommands_proto st) ext)
      as [-> ->].
    split; intros Hsome.
    + destruct (bool_decide (ext ∈ exts /\ ext <> "__proto__")); eauto.
    + destruct (bool_decide ("__proto__" ∈ exts)); eauto.
  - destruct Hother as (_ & _ & _ & _ & -> & ->). auto.
Qed.

Lemma scripts_loop_buildCommands_mono scripts st st' ext :
  forEachM (script_step H) scripts st = Ok st' ->
  (is_Some (st_buildCommands st !! ext) -> is_Some (st_buildCommands st' !! ext))
  /\ (is_Some (st_buildCommands_proto st) -> is_Some (st_buildCommands_proto st')).
Proof.
  revert st. induction scripts as [| e scripts IH]; intros st Hrun;
    simpl in Hrun.
  - injection Hrun as <-. auto.
  - apply obind_Ok in Hrun as (st1 & Hstep & Hrest).
    destruct (IH _ Hrest) as [IH1 IH2].
    destruct (script_step_buildCommands_mono _ _ _ ext Hstep) as [H1 H2].
    auto.
Qed.

Lemma scripts_loop_buildCommands_complete scripts st target cmd extensions ext :
  forEachM (script_step H) scripts ScriptState_init = Ok st ->
  (target, cmd) ∈ scripts ->
  parseScript target = Ok ("build", extensions) ->
  requireScript H cmd = None ->
  ext ∈ extensions ->
  if String.eqb ext "__proto__"
  then is_Some (st_buildCommands_proto st)
  else is_Some (st_buildCommands st !! ext).
Proof.
  intros Hrun Hin Hparse Hnone Hext.
  apply list_elem_of_split in Hin as (before & after & ->).
  rewrite forEachM_app in Hrun.
  apply obind_Ok in Hrun as (st0 & _ & Hrun). cbn [forEachM] in Hrun.
  apply obind_Ok in Hrun as (st1 & Hstep & Hrest).
  destruct (scripts_loop_buildCommands_mono _ _ _ ext Hrest) as [Hown Hproto].
  unfold script_step in Hstep. rewrite Hparse in Hstep. simpl in Hstep.
  rewrite Hnone in Hstep. injection Hstep as <-. simpl in Hown, Hproto.
  destruct (foldl_set_buildCommand
              {| RunCmd_id := target; RunCmd_cmd := cmd |} extensions
              (st_buildCommands st0) (st_buildCommands_proto st0) ext)
    as [Hl Hp].
  destruct (String.eqb_spec ext "__proto__") as [-> | Hne].
  - apply Hproto. rewrite Hp, bool_decide_eq_true_2 by assumption. eauto.
  - apply Hown. rewrite Hl, bool_decide_eq_true_2 by auto. eauto.
Qed.
End BuildCommandFacts.

(** X11. When [loadPlugins] returns, [buildCommands] has an own property
    for an extension exactly when the extension is not [__proto__] and
    some [build:*] script whose command did not load as a plugin names
    it, and the property is the id and the command of such a script. A
    script of that kind that names [__proto__] makes no property: it
    replaces the prototype of [buildCommands], which is other than
    [Object.prototype] exactly when there is such a script, and is then
    the id and the command of one. *)
Theorem loadPlugins_buildCommands H config r :
  loadPlugins H config = Ok r ->
  (forall ext rc,
      buildCommands r !! ext = Some rc ->
      ext <> "__proto__"
      /\ (RunCmd_id rc, RunCmd_cmd rc) ∈ config_scripts config
      /\ requireScript H (RunCmd_cmd rc) = None
      /\ exists extensions,
          parseScript (RunCmd_id rc) = Ok ("build", extensions) /\ ext ∈ extensions)
  /\ (forall rc,
        buildCommands_proto r = Some rc ->
        (RunCmd_id rc, RunCmd_cmd rc) ∈ config_scripts config
        /\ requireScript H (RunCmd_cmd rc) = None
        /\ exists extensions,
            parseScript (RunCmd_id rc) = Ok ("build", extensions)
            /\ "__proto__" ∈ extensions)
  /\ (forall target cmd extensions ext,
        (target, cmd) ∈ config_scripts config ->
        parseScript target = Ok ("build", extensions) ->
        requireScript H cmd = None ->
        ext ∈ extensions ->
        if String.eqb ext "__proto__"
        then is_Some (buildCommands_proto r)
        else is_Some (buildCommands r !! ext)).
Proof.
  intros Hrun. unfold loadPlugins in Hrun.
  apply obind_Ok in Hrun as (st & Hscripts & Hrun).
  apply obind_Ok in Hrun as (declared & _ & Hrun).
  injection Hrun as <-. simpl.
  destruct (scripts_loop_buildCommands_sound H _ _ Hscripts) as [Hown Hproto].
  split; [| split].
  - intros ext rc Hl. apply Hown, Hl.
  - intros rc Hl. apply Hproto, Hl.
  - intros target cmd extensions ext.
    apply scripts_loop_buildCommands_complete, Hscripts.
Qed.

Lemma loadPlugins_buildCommands_witness :
  ("css" <> "__proto__"
   /\ ("build:css", "postcss") ∈ config_scripts Samples.mixed_config
   /\ requireScript (Demo.host ["babel-plugin"] []) "postcss" = None
   /\ exists extensions,
       parseScript "build:css" = Ok ("build", extensions) /\ "css" ∈ extensions)
  /\ is_Some ((<["css" := {| RunCmd_id := "build:css"; RunCmd_cmd := "postcss" |}]>
                 (∅ : gmap string RunCmd)) !! "css")
  /\ loadPlugins Demo.plain_host (Demo.mk_config [("build:__proto__,css", "postcss")])
     = Ok {| plugins := []; bundler := None; runCommands := [];
             buildCommands :=
               <["css" := {| RunCmd_id := "build:__proto__,css";
                             RunCmd_cmd := "postcss" |}]> ∅;
             buildCommands_proto :=
               Some {| RunCmd_id := "build:__proto__,css"; RunCmd_cmd := "postcss" |} |}.
Proof.
  assert (Hrun : loadPlugins (Demo.host ["babel-plugin"] []) Samples.mixed_config
                 = Ok {| plugins := [set_exts ["js"; "jsx"]
                                       (set_name "babel-plugin" Demo.bare_plugin)];
                         bundler := None;
                         runCommands :=
                           [{| RunCmd_id := "run:test"; RunCmd_cmd := "jest" |};
                            {| RunCmd_id := "run:lint"; RunCmd_cmd := "eslint src" |}];
                         buildCommands :=
                           <["css" := {| RunCmd_id := "build:css";
                                         RunCmd_cmd := "postcss" |}]> ∅;
                         buildCommands_proto := None |})
    by (vm_compute; reflexivity).
  split; [| split].
  - apply (proj1 (loadPlugins_buildCommands _ _ _ Hrun) "css"
             {| RunCmd_id := "build:css"; RunCmd_cmd := "postcss" |}).
    reflexivity.
  - apply (proj2 (proj2 (loadPlugins_buildCommands _ _ _ Hrun)) "build:css" "postcss"
             ["css"] "css").
    + do 3 apply list_elem_of_further. apply list_elem_of_here.
    + reflexivity.
    + reflexivity.
    + apply list_elem_of_here.
  - vm_compute. reflexivity.
Defined.

(** ** [getMountedDirs] *)

Section ObjFacts.
Context {V : Type}.
Implicit Types (o : list (string * V)) (k : string) (v : V).

Lemma obj_set_keys_NoDup o k v :
  NoDup (map fst o) -> NoDup (map fst (obj_set o k v)).
Proof.
  induction o as [| [k0 v0] o IH]; simpl; intros Hnd.
  - apply NoDup_singleton.
  - apply NoDup_cons in Hnd as [Hk0 Hnd].
    destruct (String.eqb_spec k0 k) as [-> | Hne]; simpl.
    + apply NoDup_cons. auto.
    + apply NoDup_cons. split; [| auto].
      intros Hin. apply Hk0. clear IH Hk0 Hnd.
      induction o as [| [k1 v1] o IHo]; simpl in *.
      * apply list_elem_of_singleton in Hin. congruence.
      * destruct (String.eqb_spec k1 k) as [-> | Hne1]; simpl in Hin;
          [assumption |].
        apply elem_of_cons in Hin as [-> | Hin];
          [apply list_elem_of_here | apply list_elem_of_further, IHo, Hin].
Qed.

Lemma elem_of_obj_set o k v e :
  e ∈ obj_set o k v -> e = (k, v) \/ e ∈ o.
Proof.
  induction o as [| [k0 v0] o IH]; simpl.
  - intros He. apply list_elem_of_singleton in He. auto.
  - destruct (String.eqb_spec k0 k) as [-> | Hne]; rewrite !elem_of_cons.
    + intros [-> | He]; auto.
    + intros [-> | He]; [auto |]. destruct (IH He); auto.
Qed.

Lemma obj_get_set_eq o k v : obj_get (obj_set o k v) k = Some v.
Proof.
  induction o as [| [k0 v0] o IH]; simpl.
  - rewrite String.eqb_refl. reflexivity.
  - destruct (String.eqb_spec k0 k) as [-> | Hne]; simpl.
    + rewrite String.eqb_refl. reflexivity.
    + destruct (String.eqb_spec k0 k); [contradiction | exact IH].
Qed.

Lemma obj_get_set_ne o k v k' :
  k <> k' -> obj_get (obj_set o k v) k' = obj_get o k'.
Proof.
  intros Hne. induction o as [| [k0 v0] o IH]; simpl.
  - destruct (String.eqb_spec k k'); [contradiction | reflexivity].
  - destruct (String.eqb_spec k0 k) as [-> | Hne0]; simpl.
    + destruct (String.eqb_spec k k'); [contradiction | reflexivity].
    + rewrite IH. reflexivity.
Qed.

Lemma obj_get_set_is_Some o k v k' :
  is_Some (obj_get o k') -> is_Some (obj_get (obj_set o k v) k').
Proof.
  destruct (String.eqb_spec k k') as [-> | Hne].
  - rewrite obj_get_set_eq. eauto.
  - rewrite obj_get_set_ne by assumption. auto.
Qed.
End ObjFacts.

Lemma startsWith_app s p t :
  JsString.startsWith s p = true -> JsString.startsWith (s +:+ t) p = true.
Proof.
  unfold JsString.startsWith. revert s.
  induction p as [| a p IH]; intros s;
    [intros _; destruct (s +:+ t); reflexivity |].
  destruct s as [| b s]; [discriminate |].
  change (String b s +:+ t) with (String b (s +:+ t)). cbn [String.prefix].
  destruct (Ascii.ascii_dec a b); [apply IH | discriminate].
Qed.

Lemma startsWith_slash s : JsString.startsWith ("/" +:+ s) "/" = true.
Proof.
  unfold JsString.startsWith. change ("/" +:+ s) with (String "/" s).
  cbn [String.prefix]. destruct (Ascii.ascii_dec "/" "/"); [| congruence].
  destruct s; reflexivity.
Qed.

Section MountFacts.
Variable H : Host.

(** The two ways in which one script is passed normally. *)
Lemma mount_step_Ok mounted id cmd mounted' :
  mount_step H mounted (id, cmd) = Ok mounted' ->
  (is_mount_script id = false /\ mounted' = mounted)
  \/ (is_mount_script id = true
      /\ mount_command_ok H cmd
      /\ mounted' = obj_set mounted (fst (mount_entry H cmd)) (snd (mount_entry H cmd))).
Proof.
  unfold mount_step, is_mount_script, mount_command_ok, mount_entry, mount_argv.
  destruct (JsString.startsWith id "mount:"); simpl; [| intros [= <-]; auto].
  destruct (String.eqb_spec (hd "" (JsString.split_ws cmd)) "mount") as [Hcmd | _];
    simpl; [| discriminate].
  destruct (Nat.eqb_spec (length (argv_positional (yargs H (tl (JsString.split_ws cmd))))) 1)
    as [Hlen | _]; simpl; [| discriminate].
  destruct (argv_to (yargs H (tl (JsString.split_ws cmd)))) as [to |] eqn:Hto; simpl.
  - destruct (truthy_spec to) as [Hne | Hempty]; simpl.
    + destruct (JsString.startsWith to "/") eqn:Hslash; simpl; [| discriminate].
      intros [= <-]. right. repeat split; auto.
      intros to' [= <-] _. assumption.
    + intros [= <-]. right. repeat split; auto.
      intros to' [= <-] Hne. contradiction.
  - intros [= <-]. right. repeat split; auto. discriminate.
Qed.

Lemma mount_loop_ignores scripts mounted :
  forEachM (mount_step H) scripts mounted
  = forEachM (mount_step H)
      (List.filter (fun e => is_mount_script (fst e)) scripts) mounted.
Proof.
  revert mounted. induction scripts as [| [id cmd] scripts IH]; intros mounted;
    [reflexivity |].
  cbn [forEachM List.filter fst]. destruct (is_mount_script id) eqn:Hid.
  - cbn [forEachM].
    destruct (mount_step H mounted (id, cmd)); cbn [obind];
      [apply IH | reflexivity | reflexivity].
  - unfold mount_step at 1. unfold is_mount_script in Hid. rewrite Hid.
    cbn [negb obind]. apply IH.
Qed.

Lemma mount_loop_table scripts mounted :
  forEachM (mount_step H) scripts [] = Ok mounted ->
  NoDup (map fst mounted)
  /\ (forall entry, entry ∈ mounted ->
        exists id cmd,
          (id, cmd) ∈ scripts /\ is_mount_script id = true
          /\ mount_command_ok H cmd /\ entry = mount_entry H cmd).
Proof.
  apply (forEachM_invariant_in (mount_step H)
           (fun mounted =>
              NoDup (map fst mounted)
              /\ (forall entry, entry ∈ mounted ->
                    exists id cmd,
                      (id, cmd) ∈ scripts /\ is_mount_script id = true
                      /\ mount_command_ok H cmd /\ entry = mount_entry H cmd))).
  - intros m [id cmd] m' Hin [Hnd Hall] Hstep.
    apply mount_step_Ok in Hstep as [[_ ->] | (Hid & Hok & ->)]; [auto |].
    split; [apply obj_set_keys_NoDup, Hnd |].
    intros entry He. apply elem_of_obj_set in He as [-> | He]; [| auto].
    exists id, cmd. rewrite <- surjective_pairing. auto.
  - split; [apply NoDup_nil_2 |]. intros entry He.
    apply elem_of_nil in He. contradiction.
Qed.

Lemma mount_loop_keeps scripts mounted mounted' k :
  forEachM (mount_step H) scripts mounted = Ok mounted' ->
  is_Some (obj_get mounted k) -> is_Some (obj_get mounted' k).
Proof.
  revert mounted. induction scripts as [| [id cmd] scripts IH]; intros mounted Hrun Hk;
    simpl in Hrun.
  - injection Hrun as <-. assumption.
  - apply obind_Ok in Hrun as (m1 & Hstep & Hrest).
    apply (IH m1); [assumption |].
    apply mount_step_Ok in Hstep as [[_ ->] | (_ & _ & ->)]; [assumption |].
    apply obj_get_set_is_Some, Hk.
Qed.

(** Every mount script that the loop passed is well-formed and its
    directory is a key of the table. *)
Lemma mount_loop_each scripts mounted id cmd :
  forEachM (mount_step H) scripts [] = Ok mounted ->
  (id, cmd) ∈ scripts -> is_mount_script id = true ->
  mount_command_ok H cmd /\ is_Some (obj_get mounted (fst (mount_entry H cmd))).
Proof.
  intros Hrun Hin Hid.
  apply list_elem_of_split in Hin as (before & after & ->).
  rewrite forEachM_app in Hrun.
  apply obind_Ok in Hrun as (m0 & _ & Hrun). cbn [forEachM] in Hrun.
  apply obind_Ok in Hrun as (m1 & Hstep & Hrest).
  apply mount_step_Ok in Hstep as [[Hno _] | (_ & Hok & ->)]; [congruence |].
  split; [assumption |].
  eapply mount_loop_keeps; [eassumption |]. rewrite obj_get_set_eq. eauto.
Qed.
End MountFacts.

(** X12. When [getMountedDirs] returns, the table has one entry for
    each disk prefix (mounting a directory twice keeps one entry), every
    entry is the pair of prefixes that some [mount:*] script yields, and
    the directory of every [mount:*] script is a key of the table. *)
Theorem getMountedDirs_table H config mounted :
  getMountedDirs H config = Ok mounted ->
  NoDup (map fst mounted)
  /\ (forall entry, entry ∈ mounted ->
        exists id cmd,
          (id, cmd) ∈ config_scripts config /\ is_mount_script id = true
          /\ entry = mount_entry H cmd)
  /\ (forall id cmd,
        (id, cmd) ∈ config_scripts config -> is_mount_script id = true ->
        is_Some (obj_get mounted (fst (mount_entry H cmd)))).
Proof.
  unfold getMountedDirs. intros Hrun.
  destruct (mount_loop_table H _ _ Hrun) as [Hnd Hall].
  split; [assumption |]. split.
  - intros entry He. destruct (Hall entry He) as (id & cmd & ? & ? & _ & ?). eauto.
  - intros id cmd Hin Hid. eapply mount_loop_each; eassumption.
Qed.

Lemma getMountedDirs_table_witness :
  NoDup (map fst [("public/", "/"); ("src/", "/dist/")])
  /\ (forall entry, entry ∈ [("public/", "/"); ("src/", "/dist/")] ->
        exists id cmd,
          (id, cmd) ∈ config_scripts Demo.two_mounts_config
          /\ is_mount_script id = true
          /\ entry = mount_entry Demo.plain_host cmd)
  /\ (forall id cmd,
        (id, cmd) ∈ config_scripts Demo.two_mounts_config ->
        is_mount_script id = true ->
        is_Some (obj_get [("public/", "/"); ("src/", "/dist/")]
                   (fst (mount_entry Demo.plain_host cmd)))).
Proof.
  apply (getMountedDirs_table Demo.plain_host Demo.two_mounts_config).
  vm_compute. reflexivity.
Defined.

(** X13. When the path normaliser keeps a leading [/], every URL
    prefix of the mount table starts with [/]. *)
Theorem getMountedDirs_url_prefix H config mounted :
  (forall p, JsString.startsWith p "/" = true ->
             JsString.startsWith (posix_normalize H p) "/" = true) ->
  getMountedDirs H config = Ok mounted ->
  forall fromDisk toUrl,
    (fromDisk, toUrl) ∈ mounted -> JsString.startsWith toUrl "/" = true.
Proof.
  intros Hnorm Hrun fromDisk toUrl Hin.
  destruct (mount_loop_table H _ _ Hrun) as [_ Hall].
  destruct (Hall _ Hin) as (id & cmd & _ & _ & (_ & _ & Hto) & Heq).
  injection Heq as _ ->. apply Hnorm.
  destruct (argv_to (mount_argv H cmd)) as [to |] eqn:Hargv; simpl.
  - destruct (truthy_spec to) as [Hne | Hempty].
    + specialize (Hto to eq_refl Hne). destruct to as [| c to]; [discriminate |].
      apply startsWith_app, Hto.
    + apply startsWith_app, startsWith_slash.
  - apply startsWith_app, startsWith_slash.
Qed.

Lemma getMountedDirs_url_prefix_witness :
  JsString.startsWith "/dist/" "/" = true.
Proof.
  apply (getMountedDirs_url_prefix Demo.plain_host Demo.two_mounts_config
           [("public/", "/"); ("src/", "/dist/")]) with (fromDisk := "src/").
  - intros [| c p] Hp; [discriminate |].
    unfold JsString.startsWith in Hp. cbn [String.prefix] in Hp.
    destruct (Ascii.ascii_dec "/" c) as [<- |]; [| discriminate].
    exact (startsWith_slash (Demo.collapse_slashes true p)).
  - vm_compute. reflexivity.
  - apply list_elem_of_further, list_elem_of_here.
Defined.

(** X14. [getMountedDirs] reads the [mount:*] scripts only, and returns
    only when each of them is well-formed: its command is [mount], with
    one positional argument and, if [--to] is given, a value that starts
    with [/]. *)
Theorem getMountedDirs_validates H config :
  getMountedDirs H config
  = forEachM (mount_step H)
      (List.filter (fun e => is_mount_script (fst e)) (config_scripts config)) []
  /\ forall mounted id cmd,
      getMountedDirs H config = Ok mounted ->
      (id, cmd) ∈ config_scripts config -> is_mount_script id = true ->
      mount_command_ok H cmd.
Proof.
  split; [apply mount_loop_ignores |].
  intros mounted id cmd Hrun Hin Hid.
  eapply mount_loop_each; eassumption.
Qed.

Lemma getMountedDirs_validates_witness :
  mount_command_ok Demo.plain_host "mount src --to /dist".
Proof.
  apply (proj2 (getMountedDirs_validates Demo.plain_host Demo.two_mounts_config)
           [("public/", "/"); ("src/", "/dist/")] "mount:src").
  - vm_compute. reflexivity.
  - apply list_elem_of_further, list_elem_of_here.
  - reflexivity.
Defined.

(** ** The protocol of the base URL *)

Section ProtocolFacts.

Lemma substring_all s : String.substring 0 (String.length s) s = s.
Proof. induction s as [| c s IH]; simpl; [reflexivity | rewrite IH; reflexivity]. Qed.

Lemma drop_chars_0 s : drop_chars 0 s = s.
Proof. unfold drop_chars. rewrite Nat.sub_0_r. apply substring_all. Qed.

Lemma drop_chars_S n c s : drop_chars (S n) (String c s) = drop_chars n s.
Proof. reflexivity. Qed.

(** A prefix and what [drop_chars] leaves make up the string. *)
Lemma prefix_drop p s :
  String.prefix p s = true -> s = p +:+ drop_chars (String.length p) s.
Proof.
  revert s. induction p as [| a p IH]; intros s Hp.
  - change (String.length EmptyString) with 0. rewrite drop_chars_0. reflexivity.
  - destruct s as [| b s]; [discriminate |]. cbn [String.prefix] in Hp.
    destruct (Ascii.ascii_dec a b) as [<- |]; [| discriminate].
    change (String.length (String a p)) with (S (String.length p)).
    rewrite drop_chars_S.
    change (String a s = String a (p +:+ drop_chars (String.length p) s)).
    rewrite <- (IH s Hp). reflexivity.
Qed.


End ProtocolFacts.



(** ** [urlToFile]: the paths tried *)

Section LookupFacts.
Variable H : Host.
Variables url cwd : string.

Lemma try_exts_until_first dir exts r :
  try_exts H url cwd (fst dir) exts r
  = {| locOnDisk :=
         match List.find (existsSync H) (candidates H url cwd dir exts) with
         | Some found => Some found
         | None => locOnDisk r
         end;
       lookups :=
         lookups r ++ until_first (existsSync H) (candidates H url cwd dir exts) |}.
Proof.
  revert r. induction exts as [| e exts IH]; intros r; simpl.
  - rewrite app_nil_r. destruct r; reflexivity.
  - fold (locationAttempt H url cwd dir e).
    destruct (existsSync H (locationAttempt H url cwd dir e)); [reflexivity |].
    rewrite IH. simpl. rewrite <- app_assoc. reflexivity.
Qed.

Lemma mount_loop_lookups extMap exts dirs :
  extMap_output extMap !! lookupKey (getExt H url) = Some exts ->
  forall r r',
    forEachM (mount_lookup_step H extMap url cwd) dirs r = Ok r' ->
    lookups r'
    = lookups r
      ++ flat_map (fun dir =>
                     until_first (existsSync H) (candidates H url cwd dir exts))
           dirs.
Proof.
  intros Hkey. induction dirs as [| dir dirs IH]; intros r r' Hrun; simpl in Hrun.
  - injection Hrun as <-. simpl. rewrite app_nil_r. reflexivity.
  - apply obind_Ok in Hrun as (r1 & Hstep & Hrest).
    unfold mount_lookup_step in Hstep. rewrite Hkey in Hstep.
    injection Hstep as <-. rewrite (IH _ _ Hrest), try_exts_until_first.
    simpl. rewrite <- app_assoc. reflexivity.
Qed.
End LookupFacts.

(** X16. When [urlToFile] returns, [lookups] is, for the mount entries
    whose URL prefix starts the URL, taken in the order of the mount
    table, the candidate paths of the entry up to and including the first
    one that exists; with no such entry nothing is tried and nothing is
    found. No other path is ever tried. *)
Theorem urlToFile_lookups H url config cwd r :
  urlToFile H url config cwd = Ok r ->
  exists loaded mounted extMap,
    loadPlugins H config = Ok loaded
    /\ getMountedDirs H config = Ok mounted
    /\ createPluginExtensionMap (plugins loaded) = Ok extMap
    /\ (possibleDirs url mounted = [] -> r = {| locOnDisk := None; lookups := [] |})
    /\ (forall exts,
          extMap_output extMap !! lookupKey (getExt H url) = Some exts ->
          lookups r
          = flat_map (fun dir =>
                        until_first (existsSync H) (candidates H url cwd dir exts))
              (possibleDirs url mounted)).
Proof.
  intros Hrun.
  apply urlToFile_Ok in Hrun as (loaded & mounted & Hload & Hmount & Hmap & Hrun).
  exists loaded, mounted, (merged (plugins loaded)).
  split; [assumption |]. split; [assumption |]. split; [assumption |]. split.
  - intros Hnone. rewrite Hnone in Hrun. injection Hrun as <-. reflexivity.
  - intros exts Hkey.
    apply (mount_loop_lookups H url cwd _ _ _ Hkey) in Hrun. exact Hrun.
Qed.

Lemma urlToFile_lookups_witness :
  exists loaded mounted extMap,
    loadPlugins Demo.two_mounts_host Demo.two_mounts_config = Ok loaded
    /\ getMountedDirs Demo.two_mounts_host Demo.two_mounts_config = Ok mounted
    /\ createPluginExtensionMap (plugins loaded) = Ok extMap
    /\ (possibleDirs "/dist/app.css" mounted = [] ->
        {| locOnDisk := Some "/proj/src/dist/app.css";
           lookups := ["/proj/public/dist/app.css"; "/proj/src/dist/app.css"] |}
        = {| locOnDisk := None; lookups := [] |})
    /\ (forall exts,
          extMap_output extMap
            !! lookupKey (getExt Demo.two_mounts_host "/dist/app.css") = Some exts ->
          ["/proj/public/dist/app.css"; "/proj/src/dist/app.css"]
          = flat_map (fun dir =>
                        until_first (existsSync Demo.two_mounts_host)
                          (candidates Demo.two_mounts_host "/dist/app.css" "/proj"
                             dir exts))
              (possibleDirs "/dist/app.css" mounted)).
Proof.
  apply (urlToFile_lookups Demo.two_mounts_host "/dist/app.css"
           Demo.two_mounts_config "/proj"
           {| locOnDisk := Some "/proj/src/dist/app.css";
              lookups := ["/proj/public/dist/app.css"; "/proj/src/dist/app.css"] |}).
  vm_compute. reflexivity.
Defined.

(** X17. When exactly one mount entry matches the URL and [urlToFile]
    returns, the location it returns is the first candidate path of that
    entry that exists on disk (none when no candidate exists). *)
Theorem urlToFile_single_mount_first H url config cwd r mounted dir exts loaded
    extMap :
  urlToFile H url config cwd = Ok r ->
  loadPlugins H config = Ok loaded ->
  getMountedDirs H config = Ok mounted ->
  createPluginExtensionMap (plugins loaded) = Ok extMap ->
  possibleDirs url mounted = [dir] ->
  extMap_output extMap !! lookupKey (getExt H url) = Some exts ->
  locOnDisk r = List.find (existsSync H) (candidates H url cwd dir exts).
Proof.
  intros Hrun Hload Hmount Hmap Hdirs Hkey.
  apply urlToFile_Ok in Hrun
      as (loaded' & mounted' & Hload' & Hmount' & Hmap' & Hrun).
  rewrite Hload in Hload'. injection Hload' as <-.
  rewrite Hmount in Hmount'. injection Hmount' as <-.
  rewrite Hmap in Hmap'. injection Hmap' as Hmerged. rewrite <- Hmerged in Hrun.
  rewrite Hdirs in Hrun. simpl in Hrun. unfold mount_lookup_step in Hrun.
  rewrite Hkey in Hrun. simpl in Hrun. injection Hrun as <-.
  rewrite try_exts_until_first. simpl.
  destruct (List.find _ _); reflexivity.
Qed.

Lemma urlToFile_single_mount_first_witness :
  Some "/proj/dist/dist/app.scss"
  = List.find (existsSync Demo.sass_host)
      (candidates Demo.sass_host "/dist/app.css" "/proj" ("dist/", "/dist/")
         [".css"; ".scss"]).
Proof.
  apply (urlToFile_single_mount_first Demo.sass_host "/dist/app.css"
           Demo.sass_config "/proj"
           {| locOnDisk := Some "/proj/dist/dist/app.scss";
              lookups := ["/proj/dist/dist/app.css"; "/proj/dist/dist/app.scss"] |}
           [("dist/", "/dist/")] ("dist/", "/dist/") [".css"; ".scss"]
           {| plugins := [set_exts [".css"; ".scss"]
                            (set_name "sass-plugin" Demo.bare_plugin)];
              bundler := None; runCommands := []; buildCommands := ∅;
              buildCommands_proto := None |}
           (merged [set_exts [".css"; ".scss"]
                      (set_name "sass-plugin" Demo.bare_plugin)]));
    vm_compute; reflexivity.
Defined.

(** ** [rewriteImport] *)

Section RewriteImportFacts.
Lemma prefix_cons_eq a p c s :
  String.prefix (String a p) (String c s) = true -> a = c.
Proof.
  cbn [String.prefix]. destruct (Ascii.ascii_dec a c); [auto | discriminate].
Qed.

(** An [http://] or [https://] import is not a source import. *)
Lemma is_http_not_source imp : is_http imp = true -> isSourceImport imp = false.
Proof.
  unfold is_http, isSourceImport, JsString.startsWith.
  destruct imp as [| c imp]; [discriminate |].
  intros Hh.
  assert (c = "h"%char) as ->.
  { apply orb_true_iff in Hh as [Hh | Hh]; symmetry; exact (prefix_cons_eq _ _ _ _ Hh). }
  cbn [String.prefix].
  destruct (Ascii.ascii_dec "/" "h"); [discriminate |].
  destruct (Ascii.ascii_dec "." "h"); [discriminate |].
  destruct (Ascii.ascii_dec "\" "h"); [discriminate |]. reflexivity.
Qed.
End RewriteImportFacts.

(** X18. [rewriteImport] on an import for which the import map has no
    property of its own, or an empty one, and whose name
    [Object.prototype] does not have: the import comes back unchanged,
    except that [.js] is added to a source import ([/...], [....],
    [\...]) without extension when missing extensions are to be added;
    the warning is logged exactly for an import that is neither remote
    nor a source import. On a mapped import the result is the mapped URL
    itself when it is [http(s)://], else the mapped path joined under
    [/] and the directory, whatever the import looks like, and nothing
    is logged. On an import that is no property of the import map but
    the name of a member of [Object.prototype], [rewriteImport] raises a
    [TypeError]. *)
Theorem rewriteImport_cases H imports imp dir addExt :
  (js_get imports imp = Missing \/ js_get imports imp = Own "" ->
   rewriteImport H imports imp dir addExt
   = Ok {| rewritten :=
             if isSourceImport imp && addExt
                && negb (JsString.truthy (path_extname H imp))
             then imp +:+ ".js" else imp;
           warned := negb (is_http imp) && negb (isSourceImport imp) |})
  /\ (forall mapped,
        js_get imports imp = Own mapped -> mapped <> "" ->
        rewriteImport H imports imp dir addExt
        = Ok {| rewritten := if is_http mapped then mapped
                             else posix_join H "/" dir mapped;
                warned := false |})
  /\ (js_get imports imp = Inherited ->
      rewriteImport H imports imp dir addExt = Throw TypeError).
Proof.
  unfold rewriteImport. split; [| split].
  - intros [-> | ->]; cbn [obind JsString.truthy]; f_equal;
      (destruct (is_http imp) eqn:Hhttp;
       [ rewrite (is_http_not_source _ Hhttp); reflexivity
       | destruct (isSourceImport imp); cbn [negb andb]; [| reflexivity];
         destruct (addExt && negb (JsString.truthy (path_extname H imp)));
         reflexivity ]).
  - intros mapped -> Hne. cbn [obind]. f_equal.
    destruct (truthy_spec mapped) as [_ | Hempty]; [| contradiction].
    destruct (is_http mapped); reflexivity.
  - intros ->. reflexivity.
Qed.

Lemma rewriteImport_cases_witness :
  rewriteImport Demo.plain_host Samples.import_map "./components/App"
    "web_modules" true
  = Ok {| rewritten := "./components/App.js"; warned := false |}
  /\ rewriteImport Demo.plain_host Samples.import_map "lodash" "web_modules" true
     = Ok {| rewritten := "/web_modules/lodash.js"; warned := false |}
  /\ rewriteImport Demo.plain_host Samples.import_map "constructor" "web_modules"
       true
     = Throw TypeError.
Proof.
  split; [| split].
  - apply (proj1 (rewriteImport_cases Demo.plain_host Samples.import_map
                    "./components/App" "web_modules" true)).
    left. vm_compute. reflexivity.
  - apply (proj1 (proj2 (rewriteImport_cases Demo.plain_host Samples.import_map
                           "lodash" "web_modules" true)) "lodash.js").
    + vm_compute. reflexivity.
    + discriminate.
  - apply (proj2 (proj2 (rewriteImport_cases Demo.plain_host Samples.import_map
                           "constructor" "web_modules" true))).
    vm_compute. reflexivity.
Defined.

(** ** [--env] flags ([expandCliFlags]) *)

Section EnvFacts.
Lemma indexOf_split c s n :
  indexOf c s = Some n ->
  s = String.substring 0 n s +:+ String c (drop_chars (S n) s)
  /\ has_char c (String.substring 0 n s) = false.
Proof.
  revert n. induction s as [| c' r IH]; intros n; [discriminate |].
  cbn [indexOf]. destruct (Ascii.eqb_spec c' c) as [-> | Hne].
  - intros [= <-]. rewrite drop_chars_S, drop_chars_0. split; reflexivity.
  - destruct (indexOf c r) as [i |]; [| discriminate]. intros [= <-].
    destruct (IH i eq_refl) as [Hr Hno]. rewrite drop_chars_S.
    change (String.substring 0 (S i) (String c' r))
      with (String c' (String.substring 0 i r)).
    split.
    + change (String c' r
              = String c' (String.substring 0 i r +:+ String c (drop_chars (S i) r))).
      rewrite <- Hr. reflexivity.
    + cbn [has_char]. rewrite Hno.
      destruct (Ascii.eqb_spec c' c); [contradiction | reflexivity].
Qed.

Lemma indexOf_None c s : indexOf c s = None -> has_char c s = false.
Proof.
  induction s as [| c' r IH]; [reflexivity |]. cbn [indexOf has_char].
  destruct (Ascii.eqb c' c); [discriminate |].
  destruct (indexOf c r); [discriminate |]. intros _. apply IH. reflexivity.
Qed.

Lemma indexOf_0 c s : indexOf c s = Some 0 -> exists r, s = String c r.
Proof.
  destruct s as [| c' r]; [discriminate |]. cbn [indexOf].
  destruct (Ascii.eqb_spec c' c) as [-> | _]; [eauto |].
  destruct (indexOf c r); discriminate.
Qed.

Lemma expandEnv_snoc env id :
  expandEnv (env ++ [id])
  = env_assign (expandEnv env) (fst (env_entry id)) (snd (env_entry id)).
Proof. unfold expandEnv. rewrite foldl_app. reflexivity. Qed.

Lemma expandEnv_lookup env k :
  obj_get (expandEnv env) k
  = if String.eqb k "__proto__" then None
    else last (map snd (List.filter (fun e => String.eqb (fst e) k)
                          (map env_entry env))).
Proof.
  induction env as [| id env IH] using rev_ind.
  - destruct (String.eqb k "__proto__"); reflexivity.
  - rewrite expandEnv_snoc, map_app, List.filter_app, map_app. simpl.
    unfold env_assign.
    destruct (String.eqb_spec (fst (env_entry id)) "__proto__") as [Hp | Hnp].
    + rewrite IH. destruct (String.eqb_spec k "__proto__") as [Hk | Hk];
        [reflexivity |].
      destruct (String.eqb_spec (fst (env_entry id)) k) as [Heq | _];
        [congruence |].
      simpl. rewrite app_nil_r. reflexivity.
    + destruct (String.eqb_spec (fst (env_entry id)) k) as [<- | Hne]; simpl.
      * rewrite obj_get_set_eq, last_snoc.
        destruct (String.eqb_spec (fst (env_entry id)) "__proto__");
          [contradiction | reflexivity].
      * rewrite obj_get_set_ne by assumption. rewrite app_nil_r. exact IH.
Qed.

Lemma expandEnv_keys env : NoDup (map fst (expandEnv env)).
Proof.
  induction env as [| id env IH] using rev_ind; [apply NoDup_nil_2 |].
  rewrite expandEnv_snoc. unfold env_assign.
  destruct (String.eqb _ "__proto__"); [exact IH |].
  apply obj_set_keys_NoDup, IH.
Qed.
End EnvFacts.

(** X19. How [--env] flags are read. A flag with an [=] that is not its
    first character is split at its first [=] into a non-empty key
    without [=] and a string value, and key, [=] and value make up the
    flag again; any other flag is a key of its own with the value [true].
    In the resulting object every property stands once, and its value is
    the one of the last flag with that key; a flag whose key is
    [__proto__] leaves no property. *)
Theorem expandEnv_reads :
  (forall id key val,
      env_entry id = (key, EnvString val) ->
      id = key +:+ "=" +:+ val /\ key <> "" /\ has_char "=" key = false)
  /\ (forall id key,
        env_entry id = (key, EnvTrue) ->
        key = id /\ (has_char "=" id = false \/ exists r, id = "=" +:+ r))
  /\ (forall env,
        NoDup (map fst (expandEnv env))
        /\ obj_get (expandEnv env) "__proto__" = None
        /\ forall key,
            key <> "__proto__" ->
            obj_get (expandEnv env) key
            = last (map snd (List.filter (fun e => String.eqb (fst e) key)
                               (map env_entry env)))).
Proof.
  split; [| split].
  - intros id key val. unfold env_entry.
    destruct (indexOf "=" id) as [[| i] |] eqn:Hidx; try discriminate.
    intros [= <- <-]. destruct (indexOf_split _ _ _ Hidx) as [Hid Hno].
    split; [exact Hid |]. split; [| exact Hno].
    destruct id as [| c id]; [discriminate |]. discriminate.
  - intros id key. unfold env_entry.
    destruct (indexOf "=" id) as [[| i] |] eqn:Hidx; try discriminate;
      intros [= <-]; (split; [reflexivity |]).
    + right. apply indexOf_0, Hidx.
    + left. apply indexOf_None, Hidx.
  - intros env. split; [apply expandEnv_keys |]. split.
    + rewrite expandEnv_lookup. reflexivity.
    + intros key Hkey. rewrite expandEnv_lookup.
      destruct (String.eqb_spec key "__proto__"); [contradiction | reflexivity].
Qed.

Lemma expandEnv_reads_witness :
  ("NODE_ENV=a=b" = "NODE_ENV" +:+ "=" +:+ "a=b"
   /\ "NODE_ENV" <> "" /\ has_char "=" "NODE_ENV" = false)
  /\ obj_get (expandEnv ["A=1"; "__proto__=x"; "A=2"]) "A"
     = last (map snd (List.filter (fun e => String.eqb (fst e) "A")
                        (map env_entry ["A=1"; "__proto__=x"; "A=2"]))).
Proof.
  split.
  - apply (proj1 expandEnv_reads "NODE_ENV=a=b" "NODE_ENV" "a=b").
    reflexivity.
  - apply (proj2 (proj2 (proj2 (proj2 expandEnv_reads)
                                 ["A=1"; "__proto__=x"; "A=2"])) "A").
    discriminate.
Defined.

(** ** The [proxyReq] handler of [normalizeProxies] *)

Section FindSubFacts.
Lemma string_prefix_empty s : String.prefix EmptyString s = true.
Proof. destruct s; reflexivity. Qed.

Lemma string_prefix_app n r : String.prefix n (n +:+ r) = true.
Proof.
  induction n as [| a n IH]; [apply string_prefix_empty |].
  change (String a n +:+ r) with (String a (n +:+ r)). cbn [String.prefix].
  destruct (Ascii.ascii_dec a a); [exact IH | congruence].
Qed.

Lemma drop_chars_app n r : drop_chars (String.length n) (n +:+ r) = r.
Proof.
  induction n as [| a n IH]; [apply drop_chars_0 |].
  change (drop_chars (S (String.length n)) (String a (n +:+ r)) = r).
  rewrite drop_chars_S. exact IH.
Qed.

Lemma find_sub_unfold needle hay :
  find_sub needle hay
  = if String.prefix needle hay
    then Some (EmptyString, drop_chars (String.length needle) hay)
    else match hay with
         | EmptyString => None
         | String c r =>
             match find_sub needle r with
             | Some (before, after) => Some (String c before, after)
             | None => None
             end
         end.
Proof. destruct hay; reflexivity. Qed.

(** A string is found at the start of what it starts. *)
Lemma find_sub_prefix needle r :
  find_sub needle (needle +:+ r) = Some (EmptyString, r).
Proof. rewrite find_sub_unfold, string_prefix_app, drop_chars_app. reflexivity. Qed.

(** What [find_sub] returns stands around the needle. *)
Lemma find_sub_sound needle hay before after :
  find_sub needle hay = Some (before, after) ->
  hay = before +:+ needle +:+ after.
Proof.
  revert before. induction hay as [| c r IH]; intros before;
    rewrite find_sub_unfold.
  - destruct (String.prefix needle EmptyString) eqn:Hp; [| discriminate].
    intros [= <- <-]. apply (prefix_drop _ _ Hp).
  - destruct (String.prefix needle (String c r)) eqn:Hp.
    + intros [= <- <-]. apply (prefix_drop _ _ Hp).
    + destruct (find_sub needle r) as [[b0 a0] |]; [| discriminate].
      intros [= <- <-]. rewrite (IH b0 eq_refl) at 1. reflexivity.
Qed.

Lemma remove_first_prefix pattern rest :
  remove_first (pattern +:+ rest) pattern = rest.
Proof. unfold remove_first. rewrite find_sub_prefix. reflexivity. Qed.
End FindSubFacts.

(** X20. The [proxyReq] handler that [normalizeProxies] installs for a
    proxy given as a target string. For a request URL that is not empty
    and starts with the path prefix of the proxy: when the request URL
    occurs in the outgoing path, the new path is what stood before its
    first occurrence followed by the request URL without the prefix; when
    it does not occur, the whole outgoing path is kept instead. In
    particular an outgoing path equal to the request URL becomes the
    request URL without the prefix. *)
Theorem proxyReq_path_strips pathPrefix path url rest :
  url <> "" ->
  url = pathPrefix +:+ rest ->
  (forall before after,
      find_sub url path = Some (before, after) ->
      path = before +:+ url +:+ after
      /\ proxyReq_path pathPrefix path url = before +:+ rest)
  /\ (find_sub url path = None ->
      proxyReq_path pathPrefix path url = path +:+ rest)
  /\ proxyReq_path pathPrefix url url = rest.
Proof.
  intros Hne Hurl.
  assert (forall p, split_first p url
                    = Some match find_sub url p with
                           | Some (before, _) => before
                           | None => p
                           end) as Hsplit.
  { intros p. unfold split_first. destruct url as [| c0 u0]; [contradiction |].
    destruct (find_sub _ p) as [[b0 a0] |]; reflexivity. }
  assert (remove_first url pathPrefix = rest) as Hrest
    by (rewrite Hurl; apply remove_first_prefix).
  unfold proxyReq_path. rewrite Hrest. split; [| split].
  - intros before after Hfind. split; [apply find_sub_sound, Hfind |].
    rewrite Hsplit, Hfind. reflexivity.
  - intros Hfind. rewrite Hsplit, Hfind. reflexivity.
  - rewrite Hsplit. rewrite <- (append_empty url) at 2.
    rewrite find_sub_prefix. reflexivity.
Qed.

Lemma proxyReq_path_strips_witness :
  (forall before after,
      find_sub "/api/users?id=1" "/v2/api/users?id=1" = Some (before, after) ->
      "/v2/api/users?id=1" = before +:+ "/api/users?id=1" +:+ after
      /\ proxyReq_path "/api" "/v2/api/users?id=1" "/api/users?id=1"
         = before +:+ "/users?id=1")
  /\ (find_sub "/api/users?id=1" "/v2/api/users?id=1" = None ->
      proxyReq_path "/api" "/v2/api/users?id=1" "/api/users?id=1"
      = "/v2/api/users?id=1" +:+ "/users?id=1")
  /\ proxyReq_path "/api" "/api/users?id=1" "/api/users?id=1" = "/users?id=1".
Proof.
  apply (proxyReq_path_strips "/api" "/v2/api/users?id=1" "/api/users?id=1"
           "/users?id=1").
  - discriminate.
  - reflexivity.
Defined.

(** ** [handleLegacyProxyScripts] and [normalizeConfig] *)

Lemma cbind_Done {A B} (m : checked A) (k : A -> checked B) b :
  cbind m k = Done b -> exists a, m = Done a /\ k a = Done b.
Proof. destruct m; simpl; [eauto | discriminate]. Qed.

Section ObjAppFacts.
Context {V : Type}.
Implicit Types (o : list (string * V)) (k : string) (v : V).

Lemma obj_get_middle o1 k v o2 :
  k ∉ map fst o1 -> obj_get (o1 ++ (k, v) :: o2) k = Some v.
Proof.
  induction o1 as [| [k0 v0] o1 IH]; simpl; intros Hk.
  - rewrite String.eqb_refl. reflexivity.
  - apply not_elem_of_cons in Hk as [Hne Hk].
    destruct (String.eqb_spec k0 k); [congruence | auto].
Qed.

Lemma obj_delete_middle o1 k v o2 :
  k ∉ map fst o1 -> obj_delete (o1 ++ (k, v) :: o2) k = o1 ++ o2.
Proof.
  induction o1 as [| [k0 v0] o1 IH]; simpl; intros Hk.
  - rewrite String.eqb_refl. reflexivity.
  - apply not_elem_of_cons in Hk as [Hne Hk].
    destruct (String.eqb_spec k0 k); [congruence |]. rewrite IH by assumption.
    reflexivity.
Qed.
End ObjAppFacts.

Section LegacyProxyFacts.
Context {Options : Type}.
Variable H : Host.
Implicit Types (proxy : list (string * RawProxy Options)).

(** The two ways in which one script id is passed. *)
Lemma legacy_proxy_step_Done scripts proxy scriptId scripts' proxy' :
  legacy_proxy_step H (scripts, proxy) scriptId = Done (scripts', proxy') ->
  (is_proxy_script scriptId = false /\ scripts' = scripts /\ proxy' = proxy)
  \/ (is_proxy_script scriptId = true
      /\ proxy_truthy
           (obj_get proxy (proxy_toUrl H (default "" (obj_get scripts scriptId))))
         = false
      /\ scripts' = obj_delete scripts scriptId
      /\ proxy' = obj_set proxy
                    (proxy_toUrl H (default "" (obj_get scripts scriptId)))
                    (ProxyTarget
                       (proxy_fromUrl H (default "" (obj_get scripts scriptId))))).
Proof.
  unfold legacy_proxy_step, is_proxy_script, proxy_toUrl, proxy_fromUrl, proxy_argv.
  destruct (JsString.startsWith scriptId "proxy:"); cbn [negb];
    [| intros [= <- <-]; auto].
  destruct (negb (String.eqb _ "proxy")); [discriminate |].
  destruct (negb (length _ =? 1)%nat); [discriminate |].
  destruct (JsString.truthy _ && negb _); [discriminate |].
  destruct (proxy_truthy _) eqn:Hfree; [discriminate |].
  intros [= <- <-]. right. auto.
Qed.

(** A truthy entry of [config.proxy] is never replaced. *)
Lemma legacy_loop_keeps_proxy ids :
  forall (st st' : LegacyState Options) k,
    forEachC (legacy_proxy_step H) ids st = Done st' ->
    proxy_truthy (obj_get (snd st) k) = true ->
    obj_get (snd st') k = obj_get (snd st) k.
Proof.
  induction ids as [| id ids IH]; intros [scripts proxy] st' k Hrun Hk;
    simpl in Hrun.
  - injection Hrun as <-. reflexivity.
  - apply cbind_Done in Hrun as ([scripts1 proxy1] & Hstep & Hrest).
    apply legacy_proxy_step_Done in Hstep
      as [(_ & -> & ->) | (_ & Hfree & -> & ->)]; [eauto |].
    assert (proxy_toUrl H (default "" (obj_get scripts id)) <> k) as Hne
      by (intros Heq; rewrite Heq in Hfree; simpl in Hk; congruence).
    rewrite (IH _ _ k Hrest); simpl; rewrite obj_get_set_ne by assumption;
      [reflexivity | assumption].
Qed.

Lemma kept_scripts_keys (done : list (string * string)) k :
  k ∉ map fst done -> k ∉ map fst (kept_scripts done).
Proof.
  intros Hk Hin. apply Hk. apply list_elem_of_fmap in Hin as (e & -> & He).
  apply list_elem_of_fmap. exists e. split; [reflexivity |].
  apply list_elem_of_In. apply list_elem_of_In, List.filter_In in He as [He _].
  exact He.
Qed.

(** The loop, from a point where [done] is behind and [todo] ahead. *)
Lemma legacy_loop todo :
  forall done proxy (st' : LegacyState Options),
    NoDup (map fst (done ++ todo)) ->
    forEachC (legacy_proxy_step H) (map fst todo) (kept_scripts done ++ todo, proxy)
    = Done st' ->
    fst st' = kept_scripts (done ++ todo)
    /\ forall id cmd,
        (id, cmd) ∈ todo -> is_proxy_script id = true ->
        proxy_fromUrl H cmd <> "" ->
        obj_get (snd st') (proxy_toUrl H cmd)
        = Some (ProxyTarget (proxy_fromUrl H cmd)).
Proof.
  induction todo as [| [id cmd] todo IH]; intros done proxy st' Hnd Hrun;
    simpl in Hrun.
  - injection Hrun as <-. simpl. rewrite !app_nil_r. split; [reflexivity |].
    intros id cmd Hin. apply elem_of_nil in Hin. contradiction.
  - apply cbind_Done in Hrun as ([scripts1 proxy1] & Hstep & Hrest).
    assert (id ∉ map fst (kept_scripts done)) as Hfresh.
    { apply kept_scripts_keys. rewrite map_app in Hnd.
      apply NoDup_app in Hnd as (_ & Hdisj & _). intros Hin.
      apply (Hdisj id Hin). simpl. apply list_elem_of_here. }
    assert (NoDup (map fst ((done ++ [(id, cmd)]) ++ todo))) as Hnd'
      by (rewrite <- app_assoc; exact Hnd).
    apply legacy_proxy_step_Done in Hstep
      as [(Hno & -> & ->) | (Hyes & Hfree & -> & ->)].
    + assert (kept_scripts (done ++ [(id, cmd)]) = kept_scripts done ++ [(id, cmd)])
        as Hkept.
      { unfold kept_scripts. rewrite List.filter_app. simpl. rewrite Hno.
        reflexivity. }
      rewrite (cons_middle (id, cmd) (kept_scripts done) todo), app_assoc,
        <- Hkept in Hrest.
      destruct (IH _ _ _ Hnd' Hrest) as [Hscripts Hproxy].
      rewrite <- app_assoc in Hscripts. split; [exact Hscripts |].
      intros id' cmd' Hin Hid'. apply elem_of_cons in Hin as [[= -> ->] | Hin];
        [congruence | exact (Hproxy id' cmd' Hin Hid')].
    + rewrite obj_get_middle in Hrest by assumption.
      rewrite obj_delete_middle in Hrest by assumption. simpl in Hrest.
      assert (kept_scripts (done ++ [(id, cmd)]) = kept_scripts done) as Hkept.
      { unfold kept_scripts. rewrite List.filter_app. simpl. rewrite Hyes.
        simpl. apply app_nil_r. }
      rewrite <- Hkept in Hrest.
      destruct (IH _ _ _ Hnd' Hrest) as [Hscripts Hproxy].
      rewrite <- app_assoc in Hscripts. split; [exact Hscripts |].
      intros id' cmd' Hin Hid' Hfrom.
      apply elem_of_cons in Hin as [[= -> ->] | Hin];
        [| exact (Hproxy id' cmd' Hin Hid' Hfrom)].
      rewrite (legacy_loop_keeps_proxy _ _ _ _ Hrest); simpl;
        rewrite obj_get_set_eq; [reflexivity |].
      simpl. destruct (truthy_spec (proxy_fromUrl H cmd)); [reflexivity | contradiction].
Qed.
End LegacyProxyFacts.

(** X21. [handleLegacyProxyScripts], for scripts with distinct ids, when
    it returns: the [proxy:*] scripts are gone from [config.scripts] and
    the other scripts stay as they are, in order; an entry of
    [config.proxy] that was there (and truthy) is unchanged; and every
    [proxy:*] script with a non-empty source URL is an entry of
    [config.proxy] under its [--to] path. *)
Theorem handleLegacyProxyScripts_moves {Options : Type} H scripts
    (proxy : list (string * RawProxy Options)) scripts' proxy' :
  NoDup (map fst scripts) ->
  handleLegacyProxyScripts H (scripts, proxy) = Done (scripts', proxy') ->
  scripts' = kept_scripts scripts
  /\ (forall toUrl,
        proxy_truthy (obj_get proxy toUrl) = true ->
        obj_get proxy' toUrl = obj_get proxy toUrl)
  /\ (forall id cmd,
        (id, cmd) ∈ scripts -> is_proxy_script id = true ->
        proxy_fromUrl H cmd <> "" ->
        obj_get proxy' (proxy_toUrl H cmd)
        = Some (ProxyTarget (proxy_fromUrl H cmd))).
Proof.
  unfold handleLegacyProxyScripts. cbn [fst]. intros Hnd Hrun.
  destruct (legacy_loop H scripts [] proxy (scripts', proxy') Hnd Hrun)
    as [Hscripts Hproxy].
  split; [exact Hscripts |]. split; [| exact Hproxy].
  intros toUrl Hk. apply (legacy_loop_keeps_proxy H _ _ _ toUrl Hrun Hk).
Qed.

Lemma handleLegacyProxyScripts_moves_witness :
  [("mount:src", "mount src"); ("bundle:*", "webpack-plugin")]
  = kept_scripts (m_scripts Samples.legacy_config)
  /\ (forall toUrl,
        proxy_truthy (obj_get [("/old", ProxyObject tt)] toUrl) = true ->
        obj_get [("/old", ProxyObject tt); ("/api", ProxyTarget "http://localhost:3000")]
          toUrl
        = obj_get [("/old", ProxyObject tt)] toUrl)
  /\ (forall id cmd,
        (id, cmd) ∈ m_scripts Samples.legacy_config ->
        is_proxy_script id = true ->
        proxy_fromUrl Demo.plain_host cmd <> "" ->
        obj_get [("/old", ProxyObject tt); ("/api", ProxyTarget "http://localhost:3000")]
          (proxy_toUrl Demo.plain_host cmd)
        = Some (ProxyTarget (proxy_fromUrl Demo.plain_host cmd))).
Proof.
  apply (handleLegacyProxyScripts_moves Demo.plain_host
           (m_scripts Samples.legacy_config) [("/old", ProxyObject tt)]).
  - apply (bool_decide_unpack _). vm_compute. exact I.
  - vm_compute. reflexivity.
Defined.

Section NormalizeFacts.
Context {Options : Type}.

Lemma foldl_add_prefix xs s : exists t, foldl JsSet.add s xs = s ++ t.
Proof.
  revert s. induction xs as [| x xs IH]; intros s; simpl.
  - exists []. rewrite app_nil_r. reflexivity.
  - unfold JsSet.add at 2. case_bool_decide; [apply IH |].
    destruct (IH (s ++ [x])) as [t ->]. exists (x :: t).
    rewrite <- app_assoc. reflexivity.
Qed.

Lemma spread_ALWAYS_EXCLUDE exclude :
  exists rest, JsSet.spread (ALWAYS_EXCLUDE ++ exclude) = ALWAYS_EXCLUDE ++ rest.
Proof. unfold JsSet.spread. simpl. apply (foldl_add_prefix exclude ALWAYS_EXCLUDE). Qed.

Lemma strip_trailing_slash_app s : strip_trailing_slash (s +:+ "/") = s.
Proof.
  induction s as [| c s IH]; [reflexivity |].
  change (String c s +:+ "/") with (String c (s +:+ "/")).
  destruct s as [| d s]; [reflexivity |].
  change (String d s +:+ "/") with (String d (s +:+ "/")) in *.
  cbn [strip_trailing_slash]. cbn [strip_trailing_slash] in IH.
  rewrite IH. reflexivity.
Qed.

(** A leading and a trailing slash around a name are both removed. *)
Lemma strip_slashes_around s :
  strip_trailing_slash (strip_leading_slash ("/" +:+ s +:+ "/")) = s.
Proof. apply strip_trailing_slash_app. Qed.

Lemma obj_get_normalizeProxies (proxies : list (string * RawProxy Options)) k :
  obj_get (normalizeProxies proxies) k
  = match obj_get proxies k with
    | Some (ProxyObject options) => Some (WithDefaultOn options)
    | Some (ProxyTarget target) => Some (Forward k target)
    | None => None
    end.
Proof.
  induction proxies as [| [k0 v0] proxies IH]; [reflexivity |].
  cbn [normalizeProxies map fst snd obj_get].
  destruct v0 as [target | options]; cbn [obj_get];
    destruct (String.eqb_spec k0 k) as [-> | Hne]; try reflexivity; exact IH.
Qed.

Lemma normalizeProxies_prefix (proxies : list (string * RawProxy Options)) :
  Forall (fun e => forall pathPrefix target,
              snd e = Forward pathPrefix target -> pathPrefix = fst e)
         (normalizeProxies proxies).
Proof.
  unfold normalizeProxies. apply Forall_fmap, Forall_forall.
  intros [k v] _. destruct v; simpl; [| discriminate].
  intros pathPrefix target' [= <- _]. reflexivity.
Qed.
End NormalizeFacts.

(** X22. When [normalizeConfig] returns: bundling was not asked for
    unless a [bundle:*] script with a command is there; [exclude] starts
    with the two patterns that are always excluded, names no pattern
    twice and holds exactly those two and the configured ones; and a meta
    directory written with a slash in front and one behind comes out
    without them. *)
Theorem normalizeConfig_fields {Options : Type} H resolve
    (config : MergedConfig Options) n :
  normalizeConfig H resolve config = Done n ->
  (m_bundle config = Some true ->
   exists cmd, obj_get (m_scripts config) "bundle:*" = Some cmd /\ cmd <> "")
  /\ (exists rest, n_exclude n = ALWAYS_EXCLUDE ++ rest)
  /\ NoDup (n_exclude n)
  /\ (forall pattern,
        pattern ∈ n_exclude n <->
        pattern ∈ ALWAYS_EXCLUDE \/ pattern ∈ m_exclude config)
  /\ (forall dir, m_metaDir config = "/" +:+ dir +:+ "/" -> n_metaDir n = dir).
Proof.
  unfold normalizeConfig. intros Hrun.
  destruct (bool_decide (m_bundle config = Some true)
            && negb (JsString.truthy
                       (default "" (obj_get (m_scripts config) "bundle:*"))))
    eqn:Hbundle; [discriminate |].
  apply cbind_Done in Hrun as (st & _ & Hrun). injection Hrun as <-.
  cbn [n_exclude n_metaDir]. split; [| split; [| split; [| split]]].
  - intros Hb. rewrite (bool_decide_eq_true_2 _ Hb) in Hbundle. simpl in Hbundle.
    apply negb_false_iff in Hbundle.
    destruct (obj_get (m_scripts config) "bundle:*") as [cmd |]; [| discriminate].
    exists cmd. split; [reflexivity |]. intros ->. discriminate.
  - apply spread_ALWAYS_EXCLUDE.
  - apply NoDup_spread.
  - intros pattern. rewrite elem_of_spread.
    apply (elem_of_app ALWAYS_EXCLUDE (m_exclude config) pattern).
  - intros dir ->. apply strip_slashes_around.
Qed.

Lemma normalizeConfig_fields_witness :
  (m_bundle Samples.legacy_config = Some true ->
   exists cmd, obj_get (m_scripts Samples.legacy_config) "bundle:*" = Some cmd
               /\ cmd <> "")
  /\ (exists rest,
         ["**/node_modules/**/*"; "**/.types/**/*"; "__tests__/**/*"]
         = ALWAYS_EXCLUDE ++ rest)
  /\ NoDup ["**/node_modules/**/*"; "**/.types/**/*"; "__tests__/**/*"]
  /\ (forall pattern,
        pattern ∈ ["**/node_modules/**/*"; "**/.types/**/*"; "__tests__/**/*"] <->
        pattern ∈ ALWAYS_EXCLUDE \/ pattern ∈ m_exclude Samples.legacy_config)
  /\ (forall dir,
        m_metaDir Samples.legacy_config = "/" +:+ dir +:+ "/" ->
        "__snowpack__" = dir).
Proof.
  apply (normalizeConfig_fields Demo.plain_host Samples.resolve_in_proj
           Samples.legacy_config
           {| n_knownEntrypoints := [];
              n_dest := "/proj/web_modules";
              n_out := "/proj/build";
              n_exclude := ["**/node_modules/**/*"; "**/.types/**/*"; "__tests__/**/*"];
              n_metaDir := "__snowpack__";
              n_scripts := [("mount:src", "mount src"); ("bundle:*", "webpack-plugin")];
              n_proxy := [("/api", Forward "/api" "http://localhost:3000")] |}).
  vm_compute. reflexivity.
Defined.

(** X23. When [normalizeConfig] returns, for scripts with distinct ids:
    the scripts it keeps are the ones that are not [proxy:*], in order;
    every [proxy:*] script with a non-empty source URL is a proxy under
    its [--to] path that forwards to that URL, with the handler that
    strips that same path; an entry of [config.proxy] given as an object
    keeps its options; and every forwarding proxy strips the prefix it
    is registered under. *)
Theorem normalizeConfig_proxies {Options : Type} H resolve
    (config : MergedConfig Options) n :
  NoDup (map fst (m_scripts config)) ->
  normalizeConfig H resolve config = Done n ->
  n_scripts n = kept_scripts (m_scripts config)
  /\ (forall id cmd,
        (id, cmd) ∈ m_scripts config -> is_proxy_script id = true ->
        proxy_fromUrl H cmd <> "" ->
        obj_get (n_proxy n) (proxy_toUrl H cmd)
        = Some (Forward (proxy_toUrl H cmd) (proxy_fromUrl H cmd)))
  /\ (forall pathPrefix options,
        obj_get (default [] (m_proxy config)) pathPrefix = Some (ProxyObject options) ->
        obj_get (n_proxy n) pathPrefix = Some (WithDefaultOn options))
  /\ Forall (fun e => forall pathPrefix target,
                snd e = Forward pathPrefix target -> pathPrefix = fst e)
            (n_proxy n).
Proof.
  unfold normalizeConfig. intros Hnd Hrun.
  destruct (bool_decide _ && negb _); [discriminate |].
  apply cbind_Done in Hrun as ([scripts' proxy'] & Hlegacy & Hrun).
  injection Hrun as <-. cbn [n_scripts n_proxy fst snd].
  unfold handleLegacyProxyScripts in Hlegacy. cbn [fst] in Hlegacy.
  destruct (legacy_loop H (m_scripts config) [] _ (scripts', proxy') Hnd Hlegacy)
    as [Hscripts Hproxy].
  split; [exact Hscripts |]. split; [| split].
  - intros id cmd Hin Hid Hfrom. rewrite obj_get_normalizeProxies.
    cbn [snd] in Hproxy. rewrite (Hproxy id cmd Hin Hid Hfrom). reflexivity.
  - intros pathPrefix options Hold. rewrite obj_get_normalizeProxies.
    pose proof (legacy_loop_keeps_proxy H _ _ _ pathPrefix Hlegacy) as Hkeep.
    cbn [snd] in Hkeep. rewrite Hkeep; rewrite Hold; reflexivity.
  - apply normalizeProxies_prefix.
Qed.

Lemma normalizeConfig_proxies_witness :
  [("mount:src", "mount src"); ("bundle:*", "webpack-plugin")]
  = kept_scripts (m_scripts Samples.legacy_config)
  /\ (forall id cmd,
        (id, cmd) ∈ m_scripts Samples.legacy_config ->
        is_proxy_script id = true ->
        proxy_fromUrl Demo.plain_host cmd <> "" ->
        obj_get [("/api", @Forward unit "/api" "http://localhost:3000")]
          (proxy_toUrl Demo.plain_host cmd)
        = Some (Forward (proxy_toUrl Demo.plain_host cmd)
                  (proxy_fromUrl Demo.plain_host cmd)))
  /\ (forall pathPrefix options,
        obj_get (default [] (m_proxy Samples.legacy_config)) pathPrefix
        = Some (ProxyObject options) ->
        obj_get [("/api", Forward "/api" "http://localhost:3000")] pathPrefix
        = Some (WithDefaultOn options))
  /\ Forall (fun e => forall pathPrefix target,
                snd e = Forward pathPrefix target -> pathPrefix = fst e)
            [("/api", @Forward unit "/api" "http://localhost:3000")].
Proof.
  apply (normalizeConfig_proxies Demo.plain_host Samples.resolve_in_proj
           Samples.legacy_config
           {| n_knownEntrypoints := [];
              n_dest := "/proj/web_modules";
              n_out := "/proj/build";
              n_exclude := ["**/node_modules/**/*"; "**/.types/**/*"; "__tests__/**/*"];
              n_metaDir := "__snowpack__";
              n_scripts := [("mount:src", "mount src"); ("bundle:*", "webpack-plugin")];
              n_proxy := [("/api", Forward "/api" "http://localhost:3000")] |}).
  - apply (bool_decide_unpack _). vm_compute. exact I.
  - vm_compute. reflexivity.
Defined.
